(** * urfu_prog, course_1/labs/lab_0/task1: the entity and level simulation core

    A shallow embedding of [objects.py]: the entity classes, the movement
    resolver, route following, the levels and the game loop with its level
    state machine, followed by the properties of the specification that were
    checked against it.

    Conventions of the embedding.
    - Python integers are [Z].  All level data, route coordinates and speeds
      of the program are integers; the one place where the program leaves the
      integers is the diagonal rescaling of [Player.handle_keyboard], which is
      modelled over the real numbers ([Player.scaled]).
    - Objects live in a store ([heap]) indexed by the identity the program
      itself assigns ([Entity.__next_id]); the class-level dictionaries
      ([entities_by_id] and its siblings) are kept as insertion-ordered key
      lists, the value under a key being the object of that identity.
    - Exceptions are results of a state-and-exception monad; a raised
      exception keeps the mutations done so far, as in Python.
    - [pygame] is outside the program: [Rect] follows the documented behaviour
      of [pygame.Rect], drawing calls are recorded in a trace, and the clock,
      the event queue and the keyboard are inputs. *)

From Stdlib Require Import ZArith QArith Reals Lia Lra String List.
From stdpp Require Import gmap list.

Local Open Scope string_scope.
Local Open Scope list_scope.
Local Open Scope Z_scope.

(** ** pygame.Rect *)

Module Rect.

Record t := { left : Z; top : Z; width : Z; height : Z }.

(** [Rect.move(x, y)]: a new rectangle shifted by the offset. *)
Definition move (r : t) (dx dy : Z) : t :=
  {| left := left r + dx; top := top r + dy;
     width := width r; height := height r |}.

(** The [center] attribute: [(x + w // 2, y + h // 2)]. *)
Definition center (r : t) : Z * Z :=
  (left r + width r / 2, top r + height r / 2).

(** Assigning [rect.center = (cx, cy)] keeps the size. *)
Definition set_center (r : t) (c : Z * Z) : t :=
  {| left := c.1 - width r / 2; top := c.2 - height r / 2;
     width := width r; height := height r |}.

(** [Rect.colliderect]: strict overlap on both axes; a rectangle of zero
    width or height collides with nothing, and edges that only touch do
    not overlap. *)
Definition colliderect (a b : t) : bool :=
  if (width a =? 0) || (height a =? 0) || (width b =? 0) || (height b =? 0)
  then false
  else (Z.min (left a) (left a + width a) <? Z.max (left b) (left b + width b))
    && (Z.min (top a) (top a + height a) <? Z.max (top b) (top b + height b))
    && (Z.min (left b) (left b + width b) <? Z.max (left a) (left a + width a))
    && (Z.min (top b) (top b + height b) <? Z.max (top a) (top a + height a)).

End Rect.

(** ** Exceptions *)

(** [GameOver], [NextLevel] and [Win] are the signals of [exceptions.py];
    the others are Python's own.  [NonIntegerStep] marks the float branch of
    [Player.handle_keyboard], which the integer store does not follow, and
    [Dangling] a key whose object was never allocated. *)
Inductive exn :=
| GameOver | NextLevel | Win
| TypeError | AttributeError | KeyError | IndexError | SystemExit
| NonIntegerStep | Dangling.

Global Instance exn_eq_dec : EqDecision exn.
Proof. solve_decision. Defined.

(** ** Data model *)

Inductive EntityClass :=
| CEntity | CWall | CMovableEntity | CEnemy | CEnemyTouch | CPlayer.

Global Instance EntityClass_eq_dec : EqDecision EntityClass.
Proof. solve_decision. Defined.

(** The per-frame callbacks are the four closures of the level classes; the
    objects a closure captures are kept by identity. *)
Inductive Callback :=
| KeyFrame (player door door_opened : Z)   (* create_key.frame *)
| GraalNextLevel (player : Z)              (* Level1.create_graal.frame *)
| GraalWin (player : Z)                    (* Level2.create_graal.frame *)
| SpikesFrame (spikes : Z).                (* Level2.create_enemy2.frame *)

(** [@dataclass class Route]; [prev] and [next] refer to other nodes. *)
Record Route := { coords : Z * Z; prev : option Z; next : option Z }.

(** An object of class [Entity] or of one of its subclasses.  The fields
    from [only_on_screen] on belong to [MovableEntity]; [_last_active] is the
    attribute [Level2] attaches to its spikes. *)
Record Entity := {
  cls : EntityClass;
  x : Z; y : Z; width : Z; height : Z;
  color : string;
  img : option string;
  frame_callback : option Callback;
  rect : Rect.t;
  on_screen : bool;
  alive : bool;
  only_on_screen : bool;
  route : option Z;
  on_route : bool;
  speed : Z;
  _last_active : option Z
}.

Definition set_rect (r : Rect.t) (e : Entity) : Entity :=
  {| cls := cls e; x := x e; y := y e; width := width e; height := height e;
     color := color e; img := img e; frame_callback := frame_callback e;
     rect := r; on_screen := on_screen e; alive := alive e;
     only_on_screen := only_on_screen e; route := route e;
     on_route := on_route e; speed := speed e;
     _last_active := _last_active e |}.

Definition set_xy (nx ny : Z) (e : Entity) : Entity :=
  {| cls := cls e; x := nx; y := ny; width := width e; height := height e;
     color := color e; img := img e; frame_callback := frame_callback e;
     rect := rect e; on_screen := on_screen e; alive := alive e;
     only_on_screen := only_on_screen e; route := route e;
     on_route := on_route e; speed := speed e;
     _last_active := _last_active e |}.

Definition set_on_screen (b : bool) (e : Entity) : Entity :=
  {| cls := cls e; x := x e; y := y e; width := width e; height := height e;
     color := color e; img := img e; frame_callback := frame_callback e;
     rect := rect e; on_screen := b; alive := alive e;
     only_on_screen := only_on_screen e; route := route e;
     on_route := on_route e; speed := speed e;
     _last_active := _last_active e |}.

Definition set_alive (b : bool) (e : Entity) : Entity :=
  {| cls := cls e; x := x e; y := y e; width := width e; height := height e;
     color := color e; img := img e; frame_callback := frame_callback e;
     rect := rect e; on_screen := on_screen e; alive := b;
     only_on_screen := only_on_screen e; route := route e;
     on_route := on_route e; speed := speed e;
     _last_active := _last_active e |}.

Definition set_route (r : option Z) (e : Entity) : Entity :=
  {| cls := cls e; x := x e; y := y e; width := width e; height := height e;
     color := color e; img := img e; frame_callback := frame_callback e;
     rect := rect e; on_screen := on_screen e; alive := alive e;
     only_on_screen := only_on_screen e; route := r;
     on_route := on_route e; speed := speed e;
     _last_active := _last_active e |}.

Definition set_last_active (t : option Z) (e : Entity) : Entity :=
  {| cls := cls e; x := x e; y := y e; width := width e; height := height e;
     color := color e; img := img e; frame_callback := frame_callback e;
     rect := rect e; on_screen := on_screen e; alive := alive e;
     only_on_screen := only_on_screen e; route := route e;
     on_route := on_route e; speed := speed e;
     _last_active := t |}.

(** The state of [pygame.key.get_pressed()] for the four keys read. *)
Record Keys := { K_UP : bool; K_DOWN : bool; K_LEFT : bool; K_RIGHT : bool }.

Inductive LevelClass := CLevel1 | CLevel2 | CWinMap.

Global Instance LevelClass_eq_dec : EqDecision LevelClass.
Proof. solve_decision. Defined.

(** A level object: its attributes are references into the store. *)
Inductive Level :=
| Level1Obj (player : Z) (walls entities : list Z) (on_screen : bool)
| Level2Obj (player : Z) (walls entities : list Z) (on_screen : bool)
| WinMapObj (title : Z) (on_screen : bool).

(** What an element of [Game.levels] can be: a level object, a level class
    not yet called, or what [type(...)] returns on a class ([abc.ABCMeta],
    the metaclass of the three level classes) and on that ([type]). *)
Inductive Slot :=
| SInstance (l : Level)
| SClass (c : LevelClass)
| SABCMeta
| SType.

(** Calls on the display, in the order they are made. *)
Inductive Draw :=
| Fill
| Blit (img : string) (r : Rect.t)
| DrawRect (color : string) (r : Rect.t)
| Flip
| Tick.

(** The program state: the class attributes of [Entity] and its subclasses,
    the objects, the attributes of the one [Game] object, and the
    environment ([settings.DISPLAY_RESOLUTION], the wall clock as the
    sequence of values [datetime.datetime.now()] returns, the keyboard and
    the display trace). *)
Record State := {
  entities_by_id : list Z;
  walls_by_id : list Z;
  movable_entities_by_id : list Z;
  players_by_id : list Z;
  __next_id : Z;
  heap : gmap Z Entity;
  routes : gmap Z Route;
  next_route : Z;
  current_level : nat;
  levels : list Slot;
  win_time : option Z;
  DISPLAY_RESOLUTION : Z * Z;
  clock : nat -> Z;
  clock_reads : nat;
  keys : Keys;
  screen : list Draw
}.

Definition upd_entities_by_id (f : list Z -> list Z) (s : State) : State :=
  {| entities_by_id := f (entities_by_id s); walls_by_id := walls_by_id s;
     movable_entities_by_id := movable_entities_by_id s;
     players_by_id := players_by_id s; __next_id := __next_id s;
     heap := heap s; routes := routes s; next_route := next_route s;
     current_level := current_level s; levels := levels s;
     win_time := win_time s; DISPLAY_RESOLUTION := DISPLAY_RESOLUTION s;
     clock := clock s; clock_reads := clock_reads s; keys := keys s;
     screen := screen s |}.

Definition upd_walls_by_id (f : list Z -> list Z) (s : State) : State :=
  {| entities_by_id := entities_by_id s; walls_by_id := f (walls_by_id s);
     movable_entities_by_id := movable_entities_by_id s;
     players_by_id := players_by_id s; __next_id := __next_id s;
     heap := heap s; routes := routes s; next_route := next_route s;
     current_level := current_level s; levels := levels s;
     win_time := win_time s; DISPLAY_RESOLUTION := DISPLAY_RESOLUTION s;
     clock := clock s; clock_reads := clock_reads s; keys := keys s;
     screen := screen s |}.

Definition upd_movable_entities_by_id (f : list Z -> list Z) (s : State) : State :=
  {| entities_by_id := entities_by_id s; walls_by_id := walls_by_id s;
     movable_entities_by_id := f (movable_entities_by_id s);
     players_by_id := players_by_id s; __next_id := __next_id s;
     heap := heap s; routes := routes s; next_route := next_route s;
     current_level := current_level s; levels := levels s;
     win_time := win_time s; DISPLAY_RESOLUTION := DISPLAY_RESOLUTION s;
     clock := clock s; clock_reads := clock_reads s; keys := keys s;
     screen := screen s |}.

Definition upd_players_by_id (f : list Z -> list Z) (s : State) : State :=
  {| entities_by_id := entities_by_id s; walls_by_id := walls_by_id s;
     movable_entities_by_id := movable_entities_by_id s;
     players_by_id := f (players_by_id s); __next_id := __next_id s;
     heap := heap s; routes := routes s; next_route := next_route s;
     current_level := current_level s; levels := levels s;
     win_time := win_time s; DISPLAY_RESOLUTION := DISPLAY_RESOLUTION s;
     clock := clock s; clock_reads := clock_reads s; keys := keys s;
     screen := screen s |}.

Definition upd___next_id (f : Z -> Z) (s : State) : State :=
  {| entities_by_id := entities_by_id s; walls_by_id := walls_by_id s;
     movable_entities_by_id := movable_entities_by_id s;
     players_by_id := players_by_id s; __next_id := f (__next_id s);
     heap := heap s; routes := routes s; next_route := next_route s;
     current_level := current_level s; levels := levels s;
     win_time := win_time s; DISPLAY_RESOLUTION := DISPLAY_RESOLUTION s;
     clock := clock s; clock_reads := clock_reads s; keys := keys s;
     screen := screen s |}.

Definition upd_heap (f : gmap Z Entity -> gmap Z Entity) (s : State) : State :=
  {| entities_by_id := entities_by_id s; walls_by_id := walls_by_id s;
     movable_entities_by_id := movable_entities_by_id s;
     players_by_id := players_by_id s; __next_id := __next_id s;
     heap := f (heap s); routes := routes s; next_route := next_route s;
     current_level := current_level s; levels := levels s;
     win_time := win_time s; DISPLAY_RESOLUTION := DISPLAY_RESOLUTION s;
     clock := clock s; clock_reads := clock_reads s; keys := keys s;
     screen := screen s |}.

Definition upd_routes (f : gmap Z Route -> gmap Z Route) (s : State) : State :=
  {| entities_by_id := entities_by_id s; walls_by_id := walls_by_id s;
     movable_entities_by_id := movable_entities_by_id s;
     players_by_id := players_by_id s; __next_id := __next_id s;
     heap := heap s; routes := f (routes s); next_route := next_route s;
     current_level := current_level s; levels := levels s;
     win_time := win_time s; DISPLAY_RESOLUTION := DISPLAY_RESOLUTION s;
     clock := clock s; clock_reads := clock_reads s; keys := keys s;
     screen := screen s |}.

Definition upd_next_route (f : Z -> Z) (s : State) : State :=
  {| entities_by_id := entities_by_id s; walls_by_id := walls_by_id s;
     movable_entities_by_id := movable_entities_by_id s;
     players_by_id := players_by_id s; __next_id := __next_id s;
     heap := heap s; routes := routes s; next_route := f (next_route s);
     current_level := current_level s; levels := levels s;
     win_time := win_time s; DISPLAY_RESOLUTION := DISPLAY_RESOLUTION s;
     clock := clock s; clock_reads := clock_reads s; keys := keys s;
     screen := screen s |}.

Definition upd_current_level (f : nat -> nat) (s : State) : State :=
  {| entities_by_id := entities_by_id s; walls_by_id := walls_by_id s;
     movable_entities_by_id := movable_entities_by_id s;
     players_by_id := players_by_id s; __next_id := __next_id s;
     heap := heap s; routes := routes s; next_route := next_route s;
     current_level := f (current_level s); levels := levels s;
     win_time := win_time s; DISPLAY_RESOLUTION := DISPLAY_RESOLUTION s;
     clock := clock s; clock_reads := clock_reads s; keys := keys s;
     screen := screen s |}.

Definition upd_levels (f : list Slot -> list Slot) (s : State) : State :=
  {| entities_by_id := entities_by_id s; walls_by_id := walls_by_id s;
     movable_entities_by_id := movable_entities_by_id s;
     players_by_id := players_by_id s; __next_id := __next_id s;
     heap := heap s; routes := routes s; next_route := next_route s;
     current_level := current_level s; levels := f (levels s);
     win_time := win_time s; DISPLAY_RESOLUTION := DISPLAY_RESOLUTION s;
     clock := clock s; clock_reads := clock_reads s; keys := keys s;
     screen := screen s |}.

Definition upd_win_time (f : option Z -> option Z) (s : State) : State :=
  {| entities_by_id := entities_by_id s; walls_by_id := walls_by_id s;
     movable_entities_by_id := movable_entities_by_id s;
     players_by_id := players_by_id s; __next_id := __next_id s;
     heap := heap s; routes := routes s; next_route := next_route s;
     current_level := current_level s; levels := levels s;
     win_time := f (win_time s); DISPLAY_RESOLUTION := DISPLAY_RESOLUTION s;
     clock := clock s; clock_reads := clock_reads s; keys := keys s;
     screen := screen s |}.

Definition upd_clock_reads (f : nat -> nat) (s : State) : State :=
  {| entities_by_id := entities_by_id s; walls_by_id := walls_by_id s;
     movable_entities_by_id := movable_entities_by_id s;
     players_by_id := players_by_id s; __next_id := __next_id s;
     heap := heap s; routes := routes s; next_route := next_route s;
     current_level := current_level s; levels := levels s;
     win_time := win_time s; DISPLAY_RESOLUTION := DISPLAY_RESOLUTION s;
     clock := clock s; clock_reads := f (clock_reads s); keys := keys s;
     screen := screen s |}.

Definition upd_keys (f : Keys -> Keys) (s : State) : State :=
  {| entities_by_id := entities_by_id s; walls_by_id := walls_by_id s;
     movable_entities_by_id := movable_entities_by_id s;
     players_by_id := players_by_id s; __next_id := __next_id s;
     heap := heap s; routes := routes s; next_route := next_route s;
     current_level := current_level s; levels := levels s;
     win_time := win_time s; DISPLAY_RESOLUTION := DISPLAY_RESOLUTION s;
     clock := clock s; clock_reads := clock_reads s; keys := f (keys s);
     screen := screen s |}.

Definition upd_screen (f : list Draw -> list Draw) (s : State) : State :=
  {| entities_by_id := entities_by_id s; walls_by_id := walls_by_id s;
     movable_entities_by_id := movable_entities_by_id s;
     players_by_id := players_by_id s; __next_id := __next_id s;
     heap := heap s; routes := routes s; next_route := next_route s;
     current_level := current_level s; levels := levels s;
     win_time := win_time s; DISPLAY_RESOLUTION := DISPLAY_RESOLUTION s;
     clock := clock s; clock_reads := clock_reads s; keys := keys s;
     screen := f (screen s) |}.

(** ** The state-and-exception monad *)

Inductive result (A : Type) :=
| Ok (a : A)
| Raise (e : exn).
Arguments Ok {A} a.
Arguments Raise {A} e.

Definition M (A : Type) : Type := State -> State * result A.

Global Instance M_ret : MRet M := fun A a s => (s, Ok a).

Global Instance M_bind : MBind M := fun A B f m s =>
  match m s with
  | (s', Ok a) => f a s'
  | (s', Raise e) => (s', Raise e)
  end.

Definition raise {A} (e : exn) : M A := fun s => (s, Raise e).
Definition gets {A} (f : State -> A) : M A := fun s => (s, Ok (f s)).
Definition modify (f : State -> State) : M unit := fun s => (f s, Ok tt).

(** [for a in l: f(a)] *)
Fixpoint for_each {A} (l : list A) (f : A -> M unit) : M unit :=
  match l with
  | [] => mret tt
  | a :: l' => f a;; for_each l' f
  end.

(** [try: m except ...: h]: [h] says which exceptions are caught. *)
Definition try_except {A} (m : M A) (h : exn -> option (M A)) : M A :=
  fun s =>
    match m s with
    | (s', Ok a) => (s', Ok a)
    | (s', Raise e) =>
        match h e with
        | Some k => k s'
        | None => (s', Raise e)
        end
    end.

(** Dictionaries keyed by identity: [d[k] = v] and [d.pop(k)]. *)
Definition dict_set (k : Z) (d : list Z) : list Z :=
  if decide (k ∈ d) then d else d ++ [k].

Definition dict_pop (k : Z) (d : list Z) : option (list Z) :=
  if decide (k ∈ d) then Some (filter (fun j => j ≠ k) d) else None.

(** Reading and rewriting an object through a reference. *)
Definition deref (i : Z) : M Entity := fun s =>
  match heap s !! i with
  | Some e => (s, Ok e)
  | None => (s, Raise Dangling)
  end.

Definition update (i : Z) (f : Entity -> Entity) : M unit :=
  e ← deref i; modify (upd_heap <[i := f e]>).

Definition deref_route (r : Z) : M Route := fun s =>
  match routes s !! r with
  | Some n => (s, Ok n)
  | None => (s, Raise Dangling)
  end.

(** [datetime.datetime.now()], in microseconds. *)
Definition now : M Z := fun s =>
  (upd_clock_reads S s, Ok (clock s (clock_reads s))).

Definition draw (d : Draw) : M unit :=
  modify (upd_screen (fun t => t ++ [d])).

(** ** Entity *)

Module Entity.

(** [return self.x - self.width // 2] *)
Definition left (self : Entity) : Z := x self - width self / 2.

(** [return self.y - self.height // 2] *)
Definition top (self : Entity) : Z := y self - height self / 2.

(** The rectangle [__init__] builds: [(left, top, width, height)], then
    re-centred on [(x, y)]. *)
Definition initial_rect (self : Entity) : Rect.t :=
  Rect.set_center
    {| Rect.left := left self; Rect.top := top self;
       Rect.width := width self; Rect.height := height self |}
    (x self, y self).

(** The object [__init__] leaves behind; the [MovableEntity] fields hold
    the defaults of that class until its own [__init__] sets them.
    Loading the image is taken to succeed. *)
Definition fresh (c : EntityClass) (x y width height : Z) (color : string)
    (img_path : option string) (frame_callback : option Callback)
  : Entity :=
  let e :=
    {| cls := c; x := x; y := y; width := width; height := height;
       color := color; img := img_path; frame_callback := frame_callback;
       rect := {| Rect.left := 0; Rect.top := 0;
                  Rect.width := width; Rect.height := height |};
       on_screen := true; alive := true;
       only_on_screen := true; route := None; on_route := false;
       speed := 10; _last_active := None |} in
  set_rect (initial_rect e) e.

(** [__init__]; the result is the identity of the new object. *)
Definition __init__ (c : EntityClass) (x y width height : Z)
    (color : string) (img_path : option string)
    (frame_callback : option Callback) : M Z :=
  id ← gets __next_id;
  modify (upd___next_id (fun n => n + 1));;
  modify (upd_entities_by_id (dict_set id));;
  modify (upd_heap
            <[id := fresh c x y width height color img_path frame_callback]>);;
  mret id.

(** [self.entities_by_id.pop(self.id); self.alive = False] *)
Definition clear (self : Z) : M unit :=
  d ← gets entities_by_id;
  match dict_pop self d with
  | None => raise KeyError
  | Some d' =>
      modify (upd_entities_by_id (fun _ => d'));;
      update self (set_alive false)
  end.

Definition is_collide (self obj : Entity) : bool :=
  if negb (on_screen self) then false
  else Rect.colliderect (rect self) (rect obj).

Definition show (self : Z) : M unit :=
  e ← deref self;
  if negb (on_screen e) then mret tt
  else
    match img e with
    | Some i => draw (Blit i (rect e))
    | None => draw (DrawRect (color e) (rect e))
    end.

Definition hide (self : Entity) : Entity := set_on_screen false self.

(** The closures the levels pass as [frame_callback], applied to the
    object they are attached to. *)
Definition call (cb : Callback) (arg : Z) : M unit :=
  match cb with
  | KeyFrame player door door_opened =>
      key ← deref arg;
      p ← deref player;
      if Rect.colliderect (rect key) (rect p) then
        update arg hide;;
        update door hide;;
        update door_opened (set_on_screen true)
      else mret tt
  | GraalNextLevel player =>
      graal ← deref arg;
      p ← deref player;
      if Rect.colliderect (rect graal) (rect p) then raise NextLevel
      else mret tt
  | GraalWin player =>
      graal ← deref arg;
      p ← deref player;
      if Rect.colliderect (rect graal) (rect p) then raise Win
      else mret tt
  | SpikesFrame spikes =>
      t1 ← now;
      enemy ← deref arg;
      match _last_active enemy with
      | None => raise AttributeError
      | Some last =>
          if t1 - last >? 2000000 then
            update spikes hide;;
            t2 ← now;
            update arg (set_last_active (Some t2))
          else
            t2 ← now;
            if t2 - last >? 1000000
            then update spikes (set_on_screen true)
            else mret tt
      end
  end.

(** [if self.alive and self.frame_callback: self.frame_callback(self)] *)
Definition frame (self : Z) : M unit :=
  e ← deref self;
  match frame_callback e with
  | Some cb => if alive e then call cb self else mret tt
  | None => mret tt
  end.

End Entity.

(** ** Wall *)

Module Wall.

Definition __init__ (x y width height : Z) (color : string) : M Z :=
  id ← Entity.__init__ CWall x y width height color None None;
  modify (upd_walls_by_id (dict_set id));;
  mret id.

Definition clear (self : Z) : M unit :=
  d ← gets walls_by_id;
  match dict_pop self d with
  | None => raise KeyError
  | Some d' =>
      modify (upd_walls_by_id (fun _ => d'));;
      Entity.clear self
  end.

End Wall.

(** ** MovableEntity: the movement resolver and route following *)

Module MovableEntity.

Definition init_fields (r : option Z) (on_r : bool) (sp : Z) (e : Entity)
  : Entity :=
  {| cls := cls e; x := x e; y := y e; width := width e; height := height e;
     color := color e; img := img e; frame_callback := frame_callback e;
     rect := rect e; on_screen := on_screen e; alive := alive e;
     only_on_screen := only_on_screen e; route := r;
     on_route := on_r; speed := sp;
     _last_active := _last_active e |}.

Definition __init__ (c : EntityClass) (x y width height : Z)
    (color : string) (img_path : option string)
    (frame_callback : option Callback)
    (route : option Z) (on_route : bool) (speed : Z) : M Z :=
  id ← Entity.__init__ c x y width height color img_path frame_callback;
  modify (upd_movable_entities_by_id (dict_set id));;
  update id (init_fields route on_route speed);;
  mret id.

Definition clear (self : Z) : M unit :=
  d ← gets movable_entities_by_id;
  match dict_pop self d with
  | None => raise KeyError
  | Some d' =>
      modify (upd_movable_entities_by_id (fun _ => d'));;
      Entity.clear self
  end.

(** Lines 271-284 of [move]: the single correction pass on [(x, y)],
    computed from the position fields through [top] and [left]. *)
Definition clamp (DISPLAY_RESOLUTION : Z * Z) (self : Entity) (dx dy : Z)
  : Z * Z :=
  if only_on_screen self then
    let next_top := Entity.top self + dy in
    let next_bottom := Entity.top self + height self + dy in
    let next_left := Entity.left self + dx in
    let next_right := Entity.left self + width self + dx in
    let dy' :=
      if next_top <? 0 then dy + Z.abs next_top
      else if next_bottom >? DISPLAY_RESOLUTION.2
           then dy - (next_bottom - DISPLAY_RESOLUTION.2)
           else dy in
    let dx' :=
      if next_left <? 0 then dx + Z.abs next_left
      else if next_right >? DISPLAY_RESOLUTION.1
           then dx - (next_right - DISPLAY_RESOLUTION.1)
           else dx in
    (dx', dy')
  else (dx, dy).

(** The trial rectangle of lines 286-287. *)
Definition trial (DISPLAY_RESOLUTION : Z * Z) (self : Entity) (dx dy : Z)
  : Rect.t :=
  let d := clamp DISPLAY_RESOLUTION self dx dy in
  Rect.move (rect self) d.1 d.2.

(** [move(self, x, y)] on the object, with [walls] the values of
    [Wall.walls_by_id] in iteration order. *)
Definition move (DISPLAY_RESOLUTION : Z * Z) (walls : list Entity)
    (self : Entity) (dx dy : Z) : Entity :=
  if negb (on_screen self) then self
  else
    let d := clamp DISPLAY_RESOLUTION self dx dy in
    let old_rect := rect self in
    let self := set_rect (Rect.move (rect self) d.1 d.2) self in
    if existsb (fun wall => Entity.is_collide wall self) walls
    then set_rect old_rect self
    else set_xy (x self + d.1) (y self + d.2) self.

(** [self.move(x, y)] through a reference.  The walls are read before the
    object is rewritten: the moving object is never one of them, since only
    [Wall.__init__] fills [walls_by_id] and [move] belongs to
    [MovableEntity]. *)
Definition move_obj (self : Z) (dx dy : Z) : M unit :=
  e ← deref self;
  ids ← gets walls_by_id;
  walls ← mapM deref ids;
  res ← gets DISPLAY_RESOLUTION;
  modify (upd_heap <[self := move res walls e dx dy]>).

(** One axis of the route step of [frame]:
    [min(speed, dist) if dist >= 0 else max(-speed, dist)]. *)
Definition axis_move (speed dist : Z) : Z :=
  if dist >=? 0 then Z.min speed dist else Z.max (- speed) dist.

(** Lines 299-302 of [frame]: the displacement handed to [move]. *)
Definition route_move (self : Entity) (target : Z * Z) : Z * Z :=
  let x_dist := target.1 - x self in
  let y_dist := target.2 - y self in
  let x_move := axis_move (speed self) x_dist in
  let y_move := axis_move (speed self) y_dist in
  (x_move, y_move).

Definition frame (self : Z) : M unit :=
  e ← deref self;
  (if on_screen e && on_route e then
     match route e with
     | Some r =>
         node ← deref_route r;
         if decide (Rect.center (rect e) ≠ coords node) then
           let m := route_move e (coords node) in
           move_obj self m.1 m.2
         else update self (set_route (next node))
     | None => mret tt
     end
   else mret tt);;
  Entity.frame self.

End MovableEntity.

(** ** EnemyTouch *)

Module EnemyTouch.

Definition frame (self : Z) : M unit :=
  e ← deref self;
  (if on_screen e then
     ps ← gets players_by_id;
     for_each ps (fun p =>
       player ← deref p;
       if Rect.colliderect (rect e) (rect player) then raise GameOver
       else mret tt)
   else mret tt);;
  MovableEntity.frame self.

End EnemyTouch.

(** ** Player *)

Module Player.

Definition __init__ (left top width height : Z) (color : string)
    (img_path : option string) (frame_callback : option Callback) : M Z :=
  id ← MovableEntity.__init__ CPlayer left top width height color img_path
         frame_callback None false 10;
  modify (upd_players_by_id (dict_set id));;
  mret id.

Definition clear (self : Z) : M unit :=
  d ← gets players_by_id;
  match dict_pop self d with
  | None => raise KeyError
  | Some d' =>
      modify (upd_players_by_id (fun _ => d'));;
      MovableEntity.clear self
  end.

(** Lines 359-370 of [handle_keyboard]: the axis values before the
    diagonal test (LEFT takes precedence over RIGHT through [elif]). *)
Definition axes (speed : Z) (keys : Keys) : Z * Z :=
  let y0 := 0 in
  let x0 := 0 in
  let y1 := if K_UP keys then y0 + - speed else y0 in
  let y2 := if K_DOWN keys then y1 + speed else y1 in
  let x1 := if K_LEFT keys then x0 + - speed
            else if K_RIGHT keys then x0 + speed else x0 in
  (x1, y2).

(** [if x and y:] *)
Definition diagonal (a : Z * Z) : bool :=
  negb (a.1 =? 0) && negb (a.2 =? 0).

(** Lines 372-375: [new_speed = (speed**2 / 2) ** (1 / 2)] and the two
    signed components, over the reals. *)
Definition new_speed (speed : Z) : R :=
  sqrt (IZR speed ^ 2 / 2).

Definition scaled (speed : Z) (a : Z * Z) : R * R :=
  if diagonal a then
    ((if a.1 >? 0 then new_speed speed else - new_speed speed)%R,
     (if a.2 >? 0 then new_speed speed else - new_speed speed)%R)
  else (IZR a.1, IZR a.2).

(** The displacement [handle_keyboard] hands to [move]. *)
Definition displacement (speed : Z) (keys : Keys) : R * R :=
  scaled speed (axes speed keys).

(** [handle_keyboard] on the integer store: an axis-aligned step is
    carried out, a diagonal one leaves the integers. *)
Definition handle_keyboard (self : Z) : M unit :=
  e ← deref self;
  if on_screen e then
    k ← gets keys;
    let a := axes (speed e) k in
    if diagonal a then raise NonIntegerStep
    else MovableEntity.move_obj self a.1 a.2
  else mret tt.

Definition frame (self : Z) : M unit :=
  handle_keyboard self;;
  MovableEntity.frame self.

End Player.

(** ** Method resolution on the class of the object *)

Definition clear_obj (self : Z) : M unit :=
  e ← deref self;
  match cls e with
  | CEntity => Entity.clear self
  | CWall => Wall.clear self
  | CMovableEntity | CEnemy | CEnemyTouch => MovableEntity.clear self
  | CPlayer => Player.clear self
  end.

Definition frame_obj (self : Z) : M unit :=
  e ← deref self;
  match cls e with
  | CEntity | CWall => Entity.frame self
  | CMovableEntity | CEnemy => MovableEntity.frame self
  | CEnemyTouch => EnemyTouch.frame self
  | CPlayer => Player.frame self
  end.

(** ** Route objects *)

Definition new_route (c : Z * Z) : M Z :=
  r ← gets next_route;
  modify (upd_next_route (fun n => n + 1));;
  modify (upd_routes <[r := {| coords := c; prev := None; next := None |}]>);;
  mret r.

Definition route_set_next (r : Z) (n : option Z) : M unit :=
  node ← deref_route r;
  modify (upd_routes
            <[r := {| coords := coords node; prev := prev node; next := n |}]>).

(** ** The levels *)

(** [create_walls] of [Level1] and of [Level2] (the same seven walls). *)
Definition create_walls : M (list Z) :=
  w1 ← Wall.__init__ 102 250 5 400 "black";
  w2 ← Wall.__init__ 500 602 800 5 "black";
  w3 ← Wall.__init__ 902 327 5 555 "black";
  w4 ← Wall.__init__ 500 52 800 5 "black";
  w5 ← Wall.__init__ 400 452 600 5 "black";
  w6 ← Wall.__init__ 702 125 5 150 "black";
  w7 ← Wall.__init__ 702 402 5 105 "black";
  mret [w1; w2; w3; w4; w5; w6; w7].

(** [create_player] of both levels. *)
Definition create_player : M Z :=
  Player.__init__ 10 10 40 30 "black" (Some "../assets/red_ball.png") None.

(** [create_enemy] of both levels: the two-node cyclic route and the
    hazard that follows it. *)
Definition create_enemy : M Z :=
  start_route ← new_route (810, 202);
  second ← new_route (810, 500);
  route_set_next start_route (Some second);;
  route_set_next second (Some start_route);;
  MovableEntity.__init__ CEnemyTouch 810 202 120 105 "black"
    (Some "../assets/monster_3.png") None (Some start_route) true 5.

Definition create_key (player door door_opened : Z) : M Z :=
  Entity.__init__ CEntity 795 105 50 50 "black" (Some "../assets/key.png")
    (Some (KeyFrame player door door_opened)).

Definition create_door : M Z := Wall.__init__ 702 272 5 145 "brown".

Definition create_door_opened : M Z :=
  door_opened ← Wall.__init__ 627 202 145 5 "brown";
  update door_opened Entity.hide;;
  mret door_opened.

Module Level1.

Definition create_graal (player : Z) : M Z :=
  Entity.__init__ CEntity 400 300 100 100 "black"
    (Some "../assets/graal.png") (Some (GraalNextLevel player)).

(** The two doors are built first; the list literal then builds the
    enemy, the key and the graal in that order. *)
Definition create_entities (player : Z) : M (list Z) :=
  door ← create_door;
  door_opened ← create_door_opened;
  enemy ← create_enemy;
  key ← create_key player door door_opened;
  graal ← create_graal player;
  mret [enemy; door; door_opened; key; graal].

Definition __init__ : M Level :=
  player ← create_player;
  walls ← create_walls;
  entities ← create_entities player;
  mret (Level1Obj player walls entities true).

End Level1.

Module Level2.

Definition create_graal (player : Z) : M Z :=
  Entity.__init__ CEntity 400 300 100 100 "black"
    (Some "../assets/graal.png") (Some (GraalWin player)).

(** The spikes refer to themselves in their callback; their identity is
    the next one to be assigned. *)
Definition create_enemy2 : M Z :=
  id ← gets __next_id;
  spikes ← MovableEntity.__init__ CEnemyTouch 600 530 200 200 "black"
             (Some "../assets/spikes.png") (Some (SpikesFrame id))
             None false 10;
  t ← now;
  update spikes (set_last_active (Some t));;
  update spikes Entity.hide;;
  mret spikes.

Definition create_entities (player : Z) : M (list Z) :=
  door ← create_door;
  door_opened ← create_door_opened;
  enemy ← create_enemy;
  spikes ← create_enemy2;
  key ← create_key player door door_opened;
  graal ← create_graal player;
  mret [enemy; spikes; door; door_opened; key; graal].

Definition __init__ : M Level :=
  player ← create_player;
  walls ← create_walls;
  entities ← create_entities player;
  mret (Level2Obj player walls entities true).

End Level2.

Module WinMap.

(** [on_screen] is [False] in the class. *)
Definition __init__ : M Level :=
  res ← gets DISPLAY_RESOLUTION;
  title ← Entity.__init__ CEntity (res.1 / 2) (res.2 / 2) 1280 720 "black"
            (Some "../assets/win.png") None;
  mret (WinMapObj title false).

End WinMap.

(** The methods the three level classes define ([Level1] and [Level2] with
    the same text). *)
Module Level.

Definition class_of (l : Level) : LevelClass :=
  match l with
  | Level1Obj _ _ _ _ => CLevel1
  | Level2Obj _ _ _ _ => CLevel2
  | WinMapObj _ _ => CWinMap
  end.

Definition on_screen (l : Level) : bool :=
  match l with
  | Level1Obj _ _ _ o | Level2Obj _ _ _ o | WinMapObj _ o => o
  end.

Definition set_on_screen (b : bool) (l : Level) : Level :=
  match l with
  | Level1Obj p ws es _ => Level1Obj p ws es b
  | Level2Obj p ws es _ => Level2Obj p ws es b
  | WinMapObj t _ => WinMapObj t b
  end.

Definition player (l : Level) : option Z :=
  match l with
  | Level1Obj p _ _ _ | Level2Obj p _ _ _ => Some p
  | WinMapObj _ _ => None
  end.

(** Every object the level holds: the player, the walls, the others. *)
Definition members (l : Level) : list Z :=
  match l with
  | Level1Obj p ws es _ | Level2Obj p ws es _ => p :: ws ++ es
  | WinMapObj t _ => [t]
  end.

Definition clear (l : Level) : M unit :=
  match l with
  | Level1Obj p ws es _ | Level2Obj p ws es _ =>
      clear_obj p;;
      for_each ws clear_obj;;
      for_each es clear_obj
  | WinMapObj t _ => clear_obj t
  end.

Definition show (l : Level) : M unit :=
  if negb (on_screen l) then mret tt
  else
    match l with
    | Level1Obj p ws es _ | Level2Obj p ws es _ =>
        Entity.show p;;
        for_each ws Entity.show;;
        for_each es Entity.show
    | WinMapObj t _ => Entity.show t
    end.

Definition hide (l : Level) : Level := set_on_screen false l.

(** Calling a level class. *)
Definition construct (c : LevelClass) : M Level :=
  match c with
  | CLevel1 => Level1.__init__
  | CLevel2 => Level2.__init__
  | CWinMap => WinMap.__init__
  end.

End Level.

(** ** Game *)

(** One round of events: whether [pygame.QUIT] is among them, and the
    keyboard state they leave. *)
Record Input := { quit : bool; pressed : Keys }.

Module Game.

(** [type(obj)] on an element of [levels]. *)
Definition type_of (sl : Slot) : Slot :=
  match sl with
  | SInstance l => SClass (Level.class_of l)
  | SClass _ => SABCMeta
  | SABCMeta => SType
  | SType => SType
  end.

(** [self.levels[i]] and [self.levels[i] = v]. *)
Definition get_level (i : nat) : M Slot :=
  ls ← gets levels;
  match ls !! i with
  | Some sl => mret sl
  | None => raise IndexError
  end.

Definition set_level (i : nat) (v : Slot) : M unit :=
  ls ← gets levels;
  if decide (i < length ls)%nat
  then modify (upd_levels (fun _ => <[i := v]> ls))
  else raise IndexError.

(** A method call on an element of [levels]: bound on a level object,
    missing its [self] on a level class, absent on a metaclass. *)
Definition level_clear (sl : Slot) : M unit :=
  match sl with
  | SInstance l => Level.clear l
  | SClass _ => raise TypeError
  | SABCMeta | SType => raise AttributeError
  end.

Definition level_show (sl : Slot) : M unit :=
  match sl with
  | SInstance l => Level.show l
  | SClass _ => raise TypeError
  | SABCMeta | SType => raise AttributeError
  end.

Definition level_hide (sl : Slot) : M Slot :=
  match sl with
  | SInstance l => mret (SInstance (Level.hide l))
  | SClass _ => raise TypeError
  | SABCMeta | SType => raise AttributeError
  end.

(** [levels[level]()]: a level class builds its level; a level object is
    not callable, and the metaclasses reject a call without arguments. *)
Definition level_call (sl : Slot) : M Slot :=
  match sl with
  | SClass c => l ← Level.construct c; mret (SInstance l)
  | SInstance _ | SABCMeta | SType => raise TypeError
  end.

Definition __init__ : M unit :=
  modify (upd_current_level (fun _ => 1%nat));;
  l ← Level1.__init__;
  modify (upd_levels (fun _ => [SInstance l; SClass CLevel2; SClass CWinMap]));;
  modify (upd_win_time (fun _ => None)).

Definition _handle_entities : M unit :=
  ids ← gets entities_by_id;
  for_each ids frame_obj.

Definition show_current : M unit :=
  cur ← gets current_level;
  sl ← get_level cur;
  level_show sl.

Definition frame : M unit :=
  _handle_entities;;
  show_current.

Definition _init_level (level : nat) : M unit :=
  sl ← get_level level;
  v ← level_call sl;
  set_level level v.

(** Lines 131-134 of [_go_to_level]: the outgoing level is cleared and
    hidden, its place takes [type(self.levels[level])], and
    [current_level] becomes [level]. *)
Definition leave_level (level : nat) : M unit :=
  cur ← gets current_level;
  sl ← get_level cur;
  level_clear sl;;
  sl ← get_level cur;
  hidden ← level_hide sl;
  set_level cur hidden;;
  target ← get_level level;
  set_level cur (type_of target);;
  modify (upd_current_level (fun _ => level)).

(** Lines 135-136: the incoming level is built and shown. *)
Definition enter_level (level : nat) : M unit :=
  cur ← gets current_level;
  _init_level cur;;
  sl ← get_level level;
  match sl with
  | SInstance l => set_level level (SInstance (Level.set_on_screen true l))
  (* not reached: [_init_level] has just stored a level object there *)
  | SClass _ | SABCMeta | SType => raise TypeError
  end.

Definition _go_to_level (level : nat) : M unit :=
  leave_level level;;
  enter_level level.

(** The handlers of the [try] statement of [start]. *)
Definition handler (e : exn) : option (M unit) :=
  match e with
  | GameOver =>
      Some (cur ← gets current_level;
            _go_to_level cur;;
            draw Tick)
  | NextLevel =>
      Some (cur ← gets current_level;
            _go_to_level (cur + 1)%nat)
  | Win =>
      Some (ls ← gets levels;
            _go_to_level (length ls - 1)%nat;;
            t ← now;
            modify (upd_win_time (fun _ => Some t));;
            draw Flip;;
            draw Tick)
  | _ => None
  end.

(** The body of the [while True] loop of [start]. *)
Definition loop_body (inp : Input) : M unit :=
  modify (upd_keys (fun _ => pressed inp));;
  (if quit inp then raise SystemExit else mret tt);;
  draw Fill;;
  wt ← gets win_time;
  match wt with
  | Some t =>
      n ← now;
      (if n - t >? 10000000 then
         modify (upd_win_time (fun _ => None));;
         _go_to_level 0
       else mret tt);;
      show_current;;
      draw Flip;;
      draw Tick
  | None =>
      try_except (frame;; draw Flip;; draw Tick) handler
  end.

(** [start], for the loop iterations the given inputs cover. *)
Definition start (inputs : list Input) : M unit :=
  draw Flip;;
  for_each inputs loop_body.

End Game.

(** The state the module is loaded in, before [main] builds the [Game]. *)
Definition initial_state (res : Z * Z) (clk : nat -> Z) : State :=
  {| entities_by_id := []; walls_by_id := []; movable_entities_by_id := [];
     players_by_id := []; __next_id := 0; heap := ∅; routes := ∅;
     next_route := 0; current_level := 0; levels := []; win_time := None;
     DISPLAY_RESOLUTION := res; clock := clk; clock_reads := 0;
     keys := {| K_UP := false; K_DOWN := false;
                K_LEFT := false; K_RIGHT := false |};
     screen := [] |}.

(** ** Predicates used in the statements, and sample objects *)

(** The rectangle agrees with the position fields, as [__init__] leaves
    it: its corner is [(left, top)] and its size [(width, height)]. *)
Definition synced (e : Entity) : Prop :=
  rect e = {| Rect.left := Entity.left e; Rect.top := Entity.top e;
              Rect.width := width e; Rect.height := height e |}.

(** The rectangle lies within [[0, W] x [0, H]]. *)
Definition in_display (res : Z * Z) (r : Rect.t) : Prop :=
  0 <= Rect.left r /\ 0 <= Rect.top r /\
  Rect.left r + Rect.width r <= res.1 /\
  Rect.top r + Rect.height r <= res.2.

(** A wall of [Level1]: [Wall(102, 250, 5, 400, "black")]. *)
Definition wall_102 : Entity :=
  Entity.fresh CWall 102 250 5 400 "black" None None.

(** A player-sized movable object centred at (100, 100). *)
Definition walker : Entity :=
  Entity.fresh CPlayer 100 100 40 30 "black" None None.

(** A hidden wall whose rectangle covers the walker's surroundings. *)
Definition hidden_wall : Entity :=
  Entity.hide (Entity.fresh CWall 110 100 50 50 "brown" None None).

(** A movable object wider than a 1280 x 720 display. *)
Definition giant : Entity :=
  Entity.fresh CEnemy 1000 100 2000 10 "black" None None.

(** A hazard 100 units away from its waypoint on both axes, speed 5. *)
Definition diagonal_hazard : Entity :=
  MovableEntity.init_fields (Some 0) true 5
    (Entity.fresh CEnemyTouch 300 300 20 20 "black" None None).

(** The clock of the sample runs: one millisecond per reading. *)
Definition sample_clock (n : nat) : Z := Z.of_nat n * 1000.

(** The state [main] reaches once [Game(screen, FRAMERATE)] has returned,
    on a 1280 x 720 display. *)
Definition booted : State :=
  (Game.__init__ (initial_state (1280, 720) sample_clock)).1.

(** The same state with [current_level] pointing at the level that was
    built. *)
Definition started : State := upd_current_level (fun _ => 0%nat) booted.

(** The invariant of the specification: the element of [levels] at
    [current_level] is a level object, and no other element is. *)
Definition one_live_level (s : State) : Prop :=
  (exists l, levels s !! current_level s = Some (SInstance l)) /\
  (forall i l, levels s !! i = Some (SInstance l) -> i = current_level s).

(** The attributes of the [Game] object. *)
Definition game_fields (s : State) : nat * list Slot * option Z :=
  (current_level s, levels s, win_time s).

(** What a computation that only builds objects does to the state: it
    does not lower [__next_id], leaves the [Game] object and the objects
    below the old [__next_id] alone, and adds to the dictionaries only
    identities from the old [__next_id] on. *)
Definition grows (s s' : State) : Prop :=
  __next_id s <= __next_id s' /\
  game_fields s' = game_fields s /\
  (forall p, p < __next_id s -> heap s' !! p = heap s !! p) /\
  (forall k, k ∈ entities_by_id s' ->
             k ∈ entities_by_id s \/ __next_id s <= k) /\
  (forall k, k ∈ walls_by_id s' ->
             k ∈ walls_by_id s \/ __next_id s <= k).

(** A computation that always returns and only builds objects: what the
    constructors of the entity and level classes do. *)
Definition allocates {A} (m : M A) : Prop :=
  forall s, exists a s', m s = (s', Ok a) /\ grows s s'.

(** The state after one object [e] was built and registered. *)
Definition created (s s' : State) (e : Entity) : Prop :=
  __next_id s' = __next_id s + 1 /\
  game_fields s' = game_fields s /\
  heap s' = <[__next_id s := e]> (heap s) /\
  entities_by_id s' = dict_set (__next_id s) (entities_by_id s) /\
  (walls_by_id s' = walls_by_id s \/
   walls_by_id s' = dict_set (__next_id s) (walls_by_id s)).

(** The player both levels build: [Player(10, 10, 40, 30, ...)]. *)
Definition spawned_player : Entity :=
  MovableEntity.init_fields None false 10
    (Entity.fresh CPlayer 10 10 40 30 "black"
       (Some "../assets/red_ball.png") None).

(** The object was built by [__init__] and is in every dictionary its
    class registers it in. *)
Definition registered_obj (s : State) (i : Z) : bool :=
  match heap s !! i with
  | Some e =>
      bool_decide (i < __next_id s) &&
      bool_decide (i ∈ entities_by_id s) &&
      match cls e with
      | CEntity => true
      | CWall => bool_decide (i ∈ walls_by_id s)
      | CMovableEntity | CEnemy | CEnemyTouch =>
          bool_decide (i ∈ movable_entities_by_id s)
      | CPlayer =>
          bool_decide (i ∈ movable_entities_by_id s) &&
          bool_decide (i ∈ players_by_id s)
      end
  | None => false
  end.

(** The objects of the level are distinct and registered. *)
Definition registered (l : Level) (s : State) : bool :=
  bool_decide (NoDup (Level.members l)) &&
  forallb (registered_obj s) (Level.members l).

(** Dictionary [d'] is [d] with some of the keys [l] removed. *)
Definition shrunk (l d d' : list Z) : Prop :=
  (forall j, j ∈ d' -> j ∈ d) /\
  (forall j, j ∉ l -> j ∈ d -> j ∈ d').

(** State [s'] is [s] after the objects [l] were cleared: they are out of
    [entities_by_id] (the walls among them out of [walls_by_id]) and marked
    dead, and no other object or dictionary entry has changed. *)
Definition torn_down (l : list Z) (s s' : State) : Prop :=
  __next_id s' = __next_id s /\
  shrunk l (entities_by_id s) (entities_by_id s') /\
  shrunk l (walls_by_id s) (walls_by_id s') /\
  shrunk l (movable_entities_by_id s) (movable_entities_by_id s') /\
  shrunk l (players_by_id s) (players_by_id s') /\
  (forall j, j ∉ l -> heap s' !! j = heap s !! j) /\
  (forall i, i ∈ l ->
     (i ∉ entities_by_id s') /\
     exists e, heap s !! i = Some e /\
               heap s' !! i = Some (set_alive false e) /\
               (cls e = CWall -> i ∉ walls_by_id s')).

(** The level object [booted] holds at index 0. *)
Definition level1_obj : Level :=
  Level1Obj 0 [1; 2; 3; 4; 5; 6; 7] [10; 8; 9; 11; 12] true.

(** [started] after the hazard of [Level1] (identity 10) has ticked once
    and turned to the second node of its route. *)
Definition patrolling : State := (MovableEntity.frame 10 started).1.

(** The hazard of [Level1] in that state. *)
Definition patrol_enemy : Entity :=
  set_route (Some 1)
    (MovableEntity.init_fields (Some 0) true 5
       (Entity.fresh CEnemyTouch 810 202 120 105 "black"
          (Some "../assets/monster_3.png") None)).

(** The computation leaves the observation [f] of the state as it was,
    whether it returns or raises. *)
Definition preserves {A B} (f : State -> B) (m : M A) : Prop :=
  forall s, f (m s).1 = f s.

(** The computation never raises the exception [e]. *)
Definition no_raise {A} (e : exn) (m : M A) : Prop :=
  forall s, (m s).2 <> Raise e.

(** The four dictionaries and the identity counter. *)
Definition registries (s : State)
  : list Z * list Z * list Z * list Z * Z :=
  (entities_by_id s, walls_by_id s, movable_entities_by_id s,
   players_by_id s, __next_id s).

(** The simulation: dictionaries, objects, routes and the [Game] object,
    that is everything but the display trace, the keyboard and the clock. *)
Definition simulation (s : State) :=
  (registries s, heap s, routes s, next_route s, game_fields s).

(** The object's rectangle overlaps that of a player of [players_by_id]. *)
Definition touches_player (s : State) (e : Entity) : Prop :=
  exists p pe, p ∈ players_by_id s /\ heap s !! p = Some pe /\
               Rect.colliderect (rect e) (rect pe) = true.

(** [started] with the player placed on the hazard of [Level1]. *)
Definition touching : State :=
  upd_heap
    <[0 := set_xy 810 202
             (set_rect {| Rect.left := 790; Rect.top := 187;
                          Rect.width := 40; Rect.height := 30 |}
                spawned_player)]>
    started.

(** A round of events with no key down and no quit request. *)
Definition idle : Input :=
  {| quit := false;
     pressed := {| K_UP := false; K_DOWN := false;
                   K_LEFT := false; K_RIGHT := false |} |}.

(** The state in which the [try] statement of an iteration starts. *)
Definition frame_start (inp : Input) (s : State) : State :=
  upd_screen (fun t => t ++ [Fill]) (upd_keys (fun _ => pressed inp) s).

(** [started] after the handlers of [NextLevel] and then of [Win] have
    run, the timer having been started at time 0: the win screen is the
    live level, at index 2. *)
Definition won_by_play : State :=
  upd_win_time (fun _ => Some 0)
    (Game._go_to_level 2 (Game._go_to_level 1 started).1).1.

(** The same with the class [Level1] at index 0. *)
Definition holding : State :=
  upd_levels (fun ls => <[0%nat := SClass CLevel1]> ls) won_by_play.

(** Eleven seconds later on the sample clock. *)
Definition later (s : State) : State :=
  upd_clock_reads (fun _ => (11 * 1000)%nat) s.

(** [started] with the player standing left of the door of [Level1]
    (identity 8), level with the gap the door closes. *)
Definition at_door : State :=
  upd_heap
    <[0 := set_xy 680 272
             (set_rect {| Rect.left := 660; Rect.top := 257;
                          Rect.width := 40; Rect.height := 30 |}
                spawned_player)]>
    started.

(** The same after what the callback of the key does to the two doors:
    [door.hide()] and [door_opened.on_screen = True]. *)
Definition unlocked : State :=
  ((update 8 Entity.hide;; update 9 (set_on_screen true)) at_door).1.

(** ** Further predicates *)

(** What a tick never changes of an object: everything but the position,
    the rectangle, the visibility, the route pointer and [_last_active]. *)
Definition shape (e : Entity) :=
  (cls e, width e, height e, color e, img e, frame_callback e, alive e,
   only_on_screen e, on_route e, speed e).

Definition shapes (s : State) := shape <$> heap s.

(** What surrounds the objects: dictionaries, [Game] object, route nodes,
    keyboard, display trace and resolution. *)
Definition around_objects (s : State) :=
  (registries s, game_fields s, routes s, next_route s, keys s, screen s,
   DISPLAY_RESOLUTION s).

(** One frame of route following on the object itself: the displacement
    of lines 299-302 handed to [move]. *)
Definition route_step (res : Z * Z) (walls : list Entity) (target : Z * Z)
    (e : Entity) : Entity :=
  let m := MovableEntity.route_move e target in
  MovableEntity.move res walls e m.1 m.2.

(** The bounding box of an object of the size of [e] centred at [(p, q)]
    lies within the display. *)
Definition box_in_display (res : Z * Z) (e : Entity) (p q : Z) : Prop :=
  0 <= p - width e / 2 /\ p - width e / 2 + width e <= res.1 /\
  0 <= q - height e / 2 /\ q - height e / 2 + height e <= res.2.

(** [main]: build the [Game] and run its loop, for the iterations the
    given inputs cover. *)
Definition main (inputs : list Input) : M unit :=
  Game.__init__;;
  Game.start inputs.

(** ** What the constructors register *)

(** The dictionaries a class registers its instances in, besides
    [Entity.entities_by_id]. *)
Definition in_walls (c : EntityClass) : bool :=
  match c with CWall => true | _ => false end.

Definition in_movables (c : EntityClass) : bool :=
  match c with
  | CMovableEntity | CEnemy | CEnemyTouch | CPlayer => true
  | CEntity | CWall => false
  end.

Definition in_players (c : EntityClass) : bool :=
  match c with CPlayer => true | _ => false end.

(** The state after the constructor of the class of [e] has built [e]:
    the object has the next identity and is in every dictionary of its
    class. *)
Definition enrolled (s s' : State) (e : Entity) : Prop :=
  __next_id s' = __next_id s + 1 /\
  game_fields s' = game_fields s /\
  heap s' = <[__next_id s := e]> (heap s) /\
  entities_by_id s' = dict_set (__next_id s) (entities_by_id s) /\
  walls_by_id s' =
    (if in_walls (cls e) then dict_set (__next_id s) (walls_by_id s)
     else walls_by_id s) /\
  movable_entities_by_id s' =
    (if in_movables (cls e)
     then dict_set (__next_id s) (movable_entities_by_id s)
     else movable_entities_by_id s) /\
  players_by_id s' =
    (if in_players (cls e) then dict_set (__next_id s) (players_by_id s)
     else players_by_id s).

(** A constructor of one object. *)
Definition enrolls (m : M Z) : Prop :=
  forall s, exists s' e, m s = (s', Ok (__next_id s)) /\ enrolled s s' e.

(** Object [k] exists and its class is one of [p]. *)
Definition class_in (p : EntityClass -> bool) (s : State) (k : Z) : Prop :=
  exists e, heap s !! k = Some e /\ p (cls e) = true.

(** State [s'] is [s] with more objects: the old objects and dictionary
    entries are kept, every identity handed out since is that of a
    registered object, and what the dictionaries have gained are new
    objects, each dictionary objects of its classes. *)
Definition extends (s s' : State) : Prop :=
  __next_id s <= __next_id s' /\
  game_fields s' = game_fields s /\
  (forall p, p < __next_id s -> heap s' !! p = heap s !! p) /\
  (forall k, k ∈ entities_by_id s -> k ∈ entities_by_id s') /\
  (forall k, k ∈ walls_by_id s -> k ∈ walls_by_id s') /\
  (forall k, k ∈ movable_entities_by_id s ->
             k ∈ movable_entities_by_id s') /\
  (forall k, k ∈ players_by_id s -> k ∈ players_by_id s') /\
  (forall i, __next_id s <= i < __next_id s' -> registered_obj s' i = true) /\
  (forall k, k ∈ entities_by_id s' ->
             k ∈ entities_by_id s \/ __next_id s <= k < __next_id s') /\
  (forall k, k ∈ walls_by_id s' ->
             k ∈ walls_by_id s \/
             __next_id s <= k < __next_id s' /\ class_in in_walls s' k) /\
  (forall k, k ∈ movable_entities_by_id s' ->
             k ∈ movable_entities_by_id s \/
             __next_id s <= k < __next_id s' /\ class_in in_movables s' k) /\
  (forall k, k ∈ players_by_id s' ->
             k ∈ players_by_id s \/
             __next_id s <= k < __next_id s' /\ class_in in_players s' k).

(** A computation that builds objects and returns them all, each once. *)
Definition furnishes (m : M (list Z)) : Prop :=
  forall s, exists ids s',
    m s = (s', Ok ids) /\ extends s s' /\ NoDup ids /\
    (forall i, i ∈ ids <-> __next_id s <= i < __next_id s').

(** The invariant of the loop: the element of [levels] at [current_level]
    is a level object whose objects are distinct and registered, and no
    other element of [levels] is a level object. *)
Definition live_level (s : State) : Prop :=
  exists l,
    levels s !! current_level s = Some (SInstance l) /\
    registered l s = true /\
    forall i l', levels s !! i = Some (SInstance l') -> i = current_level s.

(** What [live_level] reads of the state. *)
Definition level_view (s : State) :=
  (registries s, cls <$> heap s, current_level s, levels s).

(** A computation that, when it returns, returns in a state with the
    property [P], provided it was started in one. *)
Definition keeps {A} (P : State -> Prop) (m : M A) : Prop :=
  forall s s' a, P s -> m s = (s', Ok a) -> P s'.

(** [d.pop(i)] for the dictionaries of the classes of the object. *)
Definition pop_if (b : bool) (i : Z) (d : list Z) : list Z :=
  if b then filter (fun j => j ≠ i) d else d.

(** State [s'] is [s] after the objects [ids] were cleared, seen from the
    dictionaries: what a dictionary still holds it held before, and it
    holds none of [ids] that is of its classes. *)
Definition vacated (ids : list Z) (s s' : State) : Prop :=
  cls <$> heap s' = cls <$> heap s /\
  (forall k, k ∈ entities_by_id s' -> k ∈ entities_by_id s /\ k ∉ ids) /\
  (forall k, k ∈ walls_by_id s' ->
     k ∈ walls_by_id s /\ (k ∈ ids -> ~ class_in in_walls s k)) /\
  (forall k, k ∈ movable_entities_by_id s' ->
     k ∈ movable_entities_by_id s /\
     (k ∈ ids -> ~ class_in in_movables s k)) /\
  (forall k, k ∈ players_by_id s' ->
     k ∈ players_by_id s /\ (k ∈ ids -> ~ class_in in_players s k)).

(** The dictionaries hold objects among [ids] only, and each dictionary
    only objects of its classes. *)
Definition holds_only (s : State) (ids : list Z) : Prop :=
  (forall k, k ∈ entities_by_id s -> k ∈ ids) /\
  (forall k, k ∈ walls_by_id s -> k ∈ ids /\ class_in in_walls s k) /\
  (forall k, k ∈ movable_entities_by_id s ->
             k ∈ ids /\ class_in in_movables s k) /\
  (forall k, k ∈ players_by_id s -> k ∈ ids /\ class_in in_players s k).

(** The invariant with the dictionaries: besides [live_level], the four
    dictionaries hold objects of the current level only. *)
Definition dictionaries_current (s : State) : Prop :=
  live_level s /\
  forall l, levels s !! current_level s = Some (SInstance l) ->
            holds_only s (Level.members l).

(** [holds_only], computed. *)
Definition class_inb (p : EntityClass -> bool) (s : State) (k : Z) : bool :=
  match heap s !! k with
  | Some e => p (cls e)
  | None => false
  end.

Definition holds_onlyb (s : State) (ids : list Z) : bool :=
  forallb (fun k => bool_decide (k ∈ ids)) (entities_by_id s) &&
  forallb (fun k => bool_decide (k ∈ ids) && class_inb in_walls s k)
    (walls_by_id s) &&
  forallb (fun k => bool_decide (k ∈ ids) && class_inb in_movables s k)
    (movable_entities_by_id s) &&
  forallb (fun k => bool_decide (k ∈ ids) && class_inb in_players s k)
    (players_by_id s).

(** ** Visibility under the ticks *)

(** Object [w] exists and is not shown. *)
Definition hidden (w : Z) (s : State) : Prop :=
  exists e, heap s !! w = Some e /\ on_screen e = false.

(** The callback sets [on_screen = True] on [w]: the key does on the
    opened door, the spikes do on themselves. *)
Definition shows (cb : Callback) (w : Z) : bool :=
  match cb with
  | KeyFrame _ _ door_opened => bool_decide (door_opened = w)
  | SpikesFrame spikes => bool_decide (spikes = w)
  | GraalNextLevel _ | GraalWin _ => false
  end.

(** No callback of an object of the store shows [w]. *)
Definition unnamed (w : Z) (s : State) : Prop :=
  forall i e cb, heap s !! i = Some e -> frame_callback e = Some cb ->
                 shows cb w = false.

Definition unnamedb (w : Z) (s : State) : bool :=
  forallb (fun ie => match frame_callback ie.2 with
                     | Some cb => negb (shows cb w)
                     | None => true
                     end)
    (map_to_list (heap s)).

(** The computation leaves [w] hidden and unnamed, whether it returns or
    raises. *)
Definition stays_hidden {A} (w : Z) (m : M A) : Prop :=
  forall s, hidden w s /\ unnamed w s ->
            hidden w (m s).1 /\ unnamed w (m s).1.

(** * Properties *)

(** ** Helper facts on the monad and on objects *)

Lemma bind_run {A B} (m : M A) (f : A -> M B) (s : State) :
  (m ≫= f) s =
  match m s with
  | (s', Ok a) => f a s'
  | (s', Raise e) => (s', Raise e)
  end.
Proof. reflexivity. Qed.

Lemma set_rect_same (e : Entity) (r : Rect.t) :
  set_rect (rect e) (set_rect r e) = e.
Proof. destruct e; reflexivity. Qed.

Lemma fresh_synced c px py w h col ip cb :
  synced (Entity.fresh c px py w h col ip cb).
Proof. reflexivity. Qed.

Lemma move_synced res walls e dx dy :
  synced e -> synced (MovableEntity.move res walls e dx dy).
Proof.
  unfold synced, MovableEntity.move. intros Hs.
  destruct (negb (on_screen e)); [exact Hs|].
  destruct (existsb _ walls); simpl.
  - exact Hs.
  - rewrite Hs. unfold Rect.move, Entity.left, Entity.top. simpl.
    f_equal; lia.
Qed.

Lemma existsb_hidden_wall (self : Entity) (pre post : list Entity) (w : Entity) :
  on_screen w = false ->
  existsb (fun wall => Entity.is_collide wall self) (pre ++ w :: post) =
  existsb (fun wall => Entity.is_collide wall self) (pre ++ post).
Proof.
  intros Hw. rewrite !existsb_app. simpl.
  unfold Entity.is_collide at 2. rewrite Hw. reflexivity.
Qed.

(** ** C9: the derived edges *)

(** C9, as stated, fails: for the wall of width 5 centred at x = 102 the
    left edge is 100, while [x - width/2] is 99.5 in exact arithmetic. *)
Lemma left_not_exact_half :
  ~ (inject_Z (Entity.left wall_102)
     == inject_Z (x wall_102) - inject_Z (width wall_102) / 2)%Q.
Proof. vm_compute. discriminate. Qed.

(** C9, amended: the left edge is [x - width // 2] and the top edge
    [y - height // 2] with floor division; against the exact halves this
    is exact for an even size and half a unit more for an odd one. *)
Theorem left_top_floor_half (e : Entity) :
  Entity.left e = x e - width e / 2 /\
  Entity.top e = y e - height e / 2 /\
  (inject_Z (Entity.left e)
   == inject_Z (x e) - inject_Z (width e) / 2
      + (if Z.even (width e) then 0 else 1 # 2))%Q /\
  (inject_Z (Entity.top e)
   == inject_Z (y e) - inject_Z (height e) / 2
      + (if Z.even (height e) then 0 else 1 # 2))%Q.
Proof.
  assert (H : forall p w : Z,
    (inject_Z (p - w / 2)
     == inject_Z p - inject_Z w / 2 + (if Z.even w then 0 else 1 # 2))%Q).
  { intros p w.
    pose proof (Z.div_mod w 2 ltac:(lia)) as Hdm.
    pose proof (Zmod_even w) as Hev.
    destruct (Z.even w); unfold Qeq; simpl; lia. }
  unfold Entity.left, Entity.top. repeat split; apply H.
Qed.

Lemma deref_Some (s : State) (i : Z) (e : Entity) :
  heap s !! i = Some e -> deref i s = (s, Ok e).
Proof. unfold deref. intros ->. reflexivity. Qed.

Lemma deref_route_Some (s : State) (r : Z) (n : Route) :
  routes s !! r = Some n -> deref_route r s = (s, Ok n).
Proof. unfold deref_route. intros ->. reflexivity. Qed.

Lemma axis_move_bounds (sp d : Z) :
  0 <= sp ->
  Z.abs (MovableEntity.axis_move sp d) <= sp /\
  Z.abs (MovableEntity.axis_move sp d) <= Z.abs d /\
  (0 <= MovableEntity.axis_move sp d <= d \/
   d <= MovableEntity.axis_move sp d <= 0).
Proof.
  intros Hsp. unfold MovableEntity.axis_move.
  destruct (Z.geb_spec d 0); lia.
Qed.

(** ** C3: the route step *)


(** ** C1: rejection by a wall *)

(** C1, as stated, fails: the trial rectangle of [walker] moved by (1, 0)
    intersects the rectangle of a wall of the registry that is hidden, and
    the move is carried out. *)
Lemma hidden_wall_does_not_reject :
  on_screen walker = true /\
  hidden_wall ∈ [hidden_wall] /\
  Rect.colliderect (rect hidden_wall)
    (MovableEntity.trial (1280, 720) walker 1 0) = true /\
  x (MovableEntity.move (1280, 720) [hidden_wall] walker 1 0) <> x walker.
Proof.
  split; [reflexivity|]. split; [apply list_elem_of_here|].
  split; [reflexivity|]. vm_compute. discriminate.
Qed.

(** C1, amended: if the trial rectangle (the rectangle shifted by the
    clamped displacement) intersects the rectangle of a wall of the
    registry that is on screen, [move] leaves the object as it was:
    rectangle, [x] and [y] included. *)
Theorem move_rejected_by_visible_wall
    (res : Z * Z) (walls : list Entity) (e : Entity) (dx dy : Z) (w : Entity) :
  on_screen e = true ->
  w ∈ walls ->
  on_screen w = true ->
  Rect.colliderect (rect w) (MovableEntity.trial res e dx dy) = true ->
  MovableEntity.move res walls e dx dy = e /\
  rect (MovableEntity.move res walls e dx dy) = rect e /\
  x (MovableEntity.move res walls e dx dy) = x e /\
  y (MovableEntity.move res walls e dx dy) = y e.
Proof.
  intros He Hin Hw Hc.
  assert (Hm : MovableEntity.move res walls e dx dy = e).
  { unfold MovableEntity.move. rewrite He. simpl.
    assert (Hex : existsb
      (fun wall => Entity.is_collide wall
         (set_rect (Rect.move (rect e)
                      (MovableEntity.clamp res e dx dy).1
                      (MovableEntity.clamp res e dx dy).2) e)) walls = true).
    { apply existsb_exists. exists w. split.
      - apply list_elem_of_In. exact Hin.
      - unfold Entity.is_collide. rewrite Hw. simpl. exact Hc. }
    rewrite Hex. apply set_rect_same. }
  rewrite Hm. auto.
Qed.

Lemma move_rejected_by_visible_wall_witness :
  MovableEntity.move (1280, 720) [wall_102] walker 1 0 = walker.
Proof.
  apply (move_rejected_by_visible_wall (1280, 720) [wall_102] walker 1 0
           wall_102).
  - reflexivity.
  - apply list_elem_of_here.
  - reflexivity.
  - vm_compute. reflexivity.
Defined.

(** ** C2: the screen clamp *)

(** C2, as stated, fails: an object wider than the display is pushed
    back by the right-edge correction only, and its rectangle then starts
    left of the display. *)
Lemma oversized_entity_leaves_display :
  only_on_screen giant = true /\
  rect (MovableEntity.move (1280, 720) [] giant 0 0) <> rect giant /\
  ~ in_display (1280, 720) (rect (MovableEntity.move (1280, 720) [] giant 0 0)).
Proof.
  split; [reflexivity|]. split.
  - vm_compute. discriminate.
  - unfold in_display. vm_compute. intros [H _]. apply H. reflexivity.
Qed.

(** C2, amended: for an object with [only_on_screen] that is no larger
    than the display and whose rectangle agrees with its position fields,
    after [move] with an integer displacement either the rectangle is
    unchanged or it lies within the display; the displacement applied is
    the one correction pass of [clamp], top before bottom and left before
    right. *)
Theorem move_stays_in_display
    (res : Z * Z) (walls : list Entity) (e : Entity) (dx dy : Z) :
  only_on_screen e = true ->
  synced e ->
  0 <= width e <= res.1 ->
  0 <= height e <= res.2 ->
  let e' := MovableEntity.move res walls e dx dy in
  rect e' = rect e \/
  (rect e' = MovableEntity.trial res e dx dy /\ in_display res (rect e')).
Proof.
  intros Hoo Hs Hw Hh e'. subst e'.
  unfold MovableEntity.move.
  destruct (negb (on_screen e)); [left; reflexivity|].
  destruct (existsb _ walls); [left; reflexivity|].
  right. split; [reflexivity|].
  simpl. unfold in_display, MovableEntity.clamp. rewrite Hoo, Hs.
  unfold Rect.move. simpl.
  destruct (Z.ltb_spec (Entity.top e + dy) 0);
    destruct (Z.gtb_spec (Entity.top e + height e + dy) res.2);
    destruct (Z.ltb_spec (Entity.left e + dx) 0);
    destruct (Z.gtb_spec (Entity.left e + width e + dx) res.1);
    simpl; lia.
Qed.

Lemma move_stays_in_display_witness :
  in_display (1280, 720) (rect (MovableEntity.move (1280, 720) [] walker (-500) 900)).
Proof.
  destruct (move_stays_in_display (1280, 720) [] walker (-500) 900)
    as [H | [_ H]].
  - reflexivity.
  - reflexivity.
  - simpl. lia.
  - simpl. lia.
  - exfalso. vm_compute in H. discriminate H.
  - exact H.
Defined.

(** ** C10: hidden walls *)

(** C10: a wall that is in the registry but not on screen never rejects
    a move: the outcome of [move] is the one without that wall.  Hiding a
    wall only clears its [on_screen] flag: the object stays alive and the
    registries keep it. *)
Theorem hidden_wall_never_blocks :
  (forall (res : Z * Z) (pre post : list Entity) (w e : Entity) (dx dy : Z),
     on_screen w = false ->
     MovableEntity.move res (pre ++ w :: post) e dx dy
     = MovableEntity.move res (pre ++ post) e dx dy) /\
  (forall w obj : Entity,
     on_screen w = false -> Entity.is_collide w obj = false) /\
  (forall (s : State) (door : Z) (d : Entity),
     heap s !! door = Some d ->
     let s' := (update door Entity.hide s).1 in
     heap s' !! door = Some (Entity.hide d) /\
     on_screen (Entity.hide d) = false /\
     alive (Entity.hide d) = alive d /\
     rect (Entity.hide d) = rect d /\
     walls_by_id s' = walls_by_id s /\
     entities_by_id s' = entities_by_id s).
Proof.
  split; [|split].
  - intros res pre post w e dx dy Hw. unfold MovableEntity.move.
    destruct (negb (on_screen e)); [reflexivity|].
    rewrite (existsb_hidden_wall _ pre post w Hw). reflexivity.
  - intros w obj Hw. unfold Entity.is_collide. rewrite Hw. reflexivity.
  - intros s door d Hd s'. subst s'. unfold update.
    rewrite bind_run, (deref_Some _ _ _ Hd). simpl.
    rewrite lookup_insert_eq. repeat split; reflexivity.
Qed.

(** ** C4: diagonal capping *)

Lemma new_speed_sqr (sp : Z) :
  (Player.new_speed sp * Player.new_speed sp = IZR sp * IZR sp / 2)%R.
Proof.
  unfold Player.new_speed. rewrite sqrt_sqrt.
  - simpl. lra.
  - assert (0 <= IZR sp * IZR sp)%R by nra. simpl. lra.
Qed.

(** C4, as stated, fails for route following: a hazard of speed 5 that is
    100 units from its waypoint on both axes steps by (5, 5), of squared
    length 50 and not 25. *)
Lemma route_following_not_capped :
  MovableEntity.route_move diagonal_hazard (400, 400) = (5, 5) /\
  (MovableEntity.route_move diagonal_hazard (400, 400)).1 ^ 2
  + (MovableEntity.route_move diagonal_hazard (400, 400)).2 ^ 2
  <> speed diagonal_hazard ^ 2.
Proof. split; [reflexivity|]. vm_compute. discriminate. Qed.

(** C4, amended: diagonal capping is done by the keyboard handling of
    the player only.  There, when both axes are nonzero, each component
    becomes plus or minus [(speed**2 / 2) ** (1/2)], so that over the
    reals the squared length of the step is [speed**2]; an axis-aligned
    step is left as it is.  Route following steps each axis on its own:
    when both distances are at least [speed] the step is [speed] on each
    axis, of squared length [2 * speed**2]. *)
Theorem diagonal_capping_player_only :
  (forall (sp : Z) (k : Keys),
     Player.diagonal (Player.axes sp k) = true ->
     let d := Player.displacement sp k in
     (Rabs d.1 = Player.new_speed sp /\ Rabs d.2 = Player.new_speed sp /\
      d.1 * d.1 + d.2 * d.2 = IZR sp * IZR sp)%R) /\
  (forall (sp : Z) (k : Keys),
     Player.diagonal (Player.axes sp k) = false ->
     Player.displacement sp k
     = (IZR (Player.axes sp k).1, IZR (Player.axes sp k).2)) /\
  (forall (e : Entity) (target : Z * Z),
     0 <= speed e ->
     speed e <= Z.abs (target.1 - x e) ->
     speed e <= Z.abs (target.2 - y e) ->
     let m := MovableEntity.route_move e target in
     Z.abs m.1 = speed e /\ Z.abs m.2 = speed e /\
     m.1 * m.1 + m.2 * m.2 = 2 * (speed e * speed e)).
Proof.
  split; [|split].
  - intros sp k Hd d. subst d. unfold Player.displacement, Player.scaled.
    rewrite Hd. pose proof (new_speed_sqr sp) as Hsq.
    assert (Hpos : (0 <= Player.new_speed sp)%R) by apply sqrt_pos.
    destruct ((Player.axes sp k).1 >? 0), ((Player.axes sp k).2 >? 0);
      simpl; (split; [|split]);
      try (rewrite Rabs_Ropp); try (apply Rabs_pos_eq; exact Hpos); nra.
  - intros sp k Hd. unfold Player.displacement, Player.scaled.
    rewrite Hd. reflexivity.
  - intros e target Hsp Hx Hy m. subst m.
    unfold MovableEntity.route_move, MovableEntity.axis_move. simpl.
    destruct (Z.geb_spec (target.1 - x e) 0),
             (Z.geb_spec (target.2 - y e) 0); nia.
Qed.

Lemma diagonal_capping_player_only_witness :
  let k := {| K_UP := true; K_DOWN := false;
              K_LEFT := false; K_RIGHT := true |} in
  let d := Player.displacement 10 k in
  (d.1 * d.1 + d.2 * d.2 = IZR 10 * IZR 10)%R /\
  (MovableEntity.route_move diagonal_hazard (400, 400)).1
  * (MovableEntity.route_move diagonal_hazard (400, 400)).1
  + (MovableEntity.route_move diagonal_hazard (400, 400)).2
    * (MovableEntity.route_move diagonal_hazard (400, 400)).2
  = 2 * (speed diagonal_hazard * speed diagonal_hazard).
Proof.
  intros k d.
  destruct diagonal_capping_player_only as (Hp & _ & Hr).
  split.
  - apply (Hp 10 k). reflexivity.
  - apply (Hr diagonal_hazard (400, 400)); simpl; lia.
Defined.

(** ** Construction always succeeds *)

Lemma bind_Ok {A B} (m : M A) (f : A -> M B) (s s' : State) (a : A) :
  m s = (s', Ok a) -> (m ≫= f) s = f a s'.
Proof. intros H. rewrite bind_run, H. reflexivity. Qed.

Lemma bind_Raise {A B} (m : M A) (f : A -> M B) (s s' : State) (e : exn) :
  m s = (s', Raise e) -> (m ≫= f) s = (s', Raise e).
Proof. intros H. rewrite bind_run, H. reflexivity. Qed.

Lemma update_run (s : State) (i : Z) (e : Entity) (f : Entity -> Entity) :
  heap s !! i = Some e ->
  update i f s = (upd_heap <[i := f e]> s, Ok tt).
Proof.
  intros H. unfold update. rewrite (bind_Ok _ _ _ _ _ (deref_Some _ _ _ H)).
  reflexivity.
Qed.

Lemma elem_of_dict_set (k j : Z) (d : list Z) :
  j ∈ dict_set k d <-> j ∈ d \/ j = k.
Proof.
  unfold dict_set. destruct (decide (k ∈ d)) as [Hk|Hk].
  - split; [auto|]. intros [H| ->]; assumption.
  - rewrite elem_of_app, list_elem_of_singleton. reflexivity.
Qed.

Lemma grows_refl (s : State) : grows s s.
Proof. unfold grows. repeat split; auto. lia. Qed.

Lemma grows_trans (s1 s2 s3 : State) :
  grows s1 s2 -> grows s2 s3 -> grows s1 s3.
Proof.
  intros (N1 & G1 & F1 & E1 & W1) (N2 & G2 & F2 & E2 & W2).
  unfold grows. split; [lia|]. split; [congruence|]. split; [|split].
  - intros p Hp. rewrite F2 by lia. apply F1. exact Hp.
  - intros k Hk. destruct (E2 k Hk) as [Hk'|Hk']; [auto|right; lia].
  - intros k Hk. destruct (W2 k Hk) as [Hk'|Hk']; [auto|right; lia].
Qed.

Lemma created_grows (s s' : State) (e : Entity) :
  created s s' e -> grows s s'.
Proof.
  intros (N & G & H & E & W). unfold grows.
  split; [lia|]. split; [exact G|]. split; [|split].
  - intros p Hp. rewrite H. apply lookup_insert_ne. lia.
  - intros k. rewrite E, elem_of_dict_set. intros [Hk| ->]; [auto|right; lia].
  - intros k. destruct W as [W|W]; rewrite W; [auto|].
    rewrite elem_of_dict_set. intros [Hk| ->]; [auto|right; lia].
Qed.

Lemma allocates_ret {A} (a : A) : allocates (mret a).
Proof.
  intros s. exists a, s. split; [reflexivity|apply grows_refl].
Qed.

Lemma allocates_bind {A B} (m : M A) (f : A -> M B) :
  allocates m -> (forall a, allocates (f a)) -> allocates (m ≫= f).
Proof.
  intros Hm Hf s. destruct (Hm s) as (a & s1 & E1 & G1).
  destruct (Hf a s1) as (b & s2 & E2 & G2).
  exists b, s2. rewrite (bind_Ok _ _ _ _ _ E1), E2. split; [reflexivity|].
  exact (grows_trans _ _ _ G1 G2).
Qed.

(** Turning a run equation into [allocates]. *)
Lemma allocates_of_run (m : M Z) :
  (forall s, exists s' e, m s = (s', Ok (__next_id s)) /\ created s s' e) ->
  allocates m.
Proof.
  intros Hrun s. destruct (Hrun s) as (s' & e & E & C).
  exists (__next_id s), s'. split; [exact E|].
  exact (created_grows _ _ _ C).
Qed.

Lemma Entity_init_run c px py w h col ip cb (s : State) :
  exists s',
    Entity.__init__ c px py w h col ip cb s = (s', Ok (__next_id s)) /\
    created s s' (Entity.fresh c px py w h col ip cb).
Proof.
  eexists. split; [reflexivity|]. unfold created. simpl. auto 10.
Qed.

Lemma Wall_init_run px py w h col (s : State) :
  exists s',
    Wall.__init__ px py w h col s = (s', Ok (__next_id s)) /\
    created s s' (Entity.fresh CWall px py w h col None None).
Proof.
  eexists. split; [reflexivity|]. unfold created. simpl. auto 10.
Qed.

Lemma MovableEntity_init_run c px py w h col ip cb r o sp (s : State) :
  exists s',
    MovableEntity.__init__ c px py w h col ip cb r o sp s
    = (s', Ok (__next_id s)) /\
    created s s' (MovableEntity.init_fields r o sp
                    (Entity.fresh c px py w h col ip cb)).
Proof.
  unfold MovableEntity.__init__.
  destruct (Entity_init_run c px py w h col ip cb s)
    as (s1 & E & N & G & H & R & W).
  rewrite (bind_Ok _ _ _ _ _ E).
  erewrite bind_Ok by reflexivity.
  erewrite bind_Ok.
  2:{ apply update_run. simpl. rewrite H. apply lookup_insert_eq. }
  eexists. split; [reflexivity|]. unfold created. simpl.
  split; [exact N|]. split; [exact G|]. split; [|auto].
  rewrite H. apply insert_insert_eq.
Qed.

Lemma allocates_Entity_init c px py w h col ip cb :
  allocates (Entity.__init__ c px py w h col ip cb).
Proof.
  apply allocates_of_run. intros s.
  destruct (Entity_init_run c px py w h col ip cb s) as (s' & H).
  eauto.
Qed.

Lemma allocates_Wall_init px py w h col :
  allocates (Wall.__init__ px py w h col).
Proof.
  apply allocates_of_run. intros s.
  destruct (Wall_init_run px py w h col s) as (s' & H). eauto.
Qed.

Lemma allocates_MovableEntity_init c px py w h col ip cb r o sp :
  allocates (MovableEntity.__init__ c px py w h col ip cb r o sp).
Proof.
  apply allocates_of_run. intros s.
  destruct (MovableEntity_init_run c px py w h col ip cb r o sp s)
    as (s' & H).
  eauto.
Qed.

Lemma create_player_run (s : State) :
  exists s',
    create_player s = (s', Ok (__next_id s)) /\
    created s s' spawned_player.
Proof.
  unfold create_player, Player.__init__.
  destruct (MovableEntity_init_run CPlayer 10 10 40 30 "black"
              (Some "../assets/red_ball.png") None None false 10 s)
    as (s1 & E & C).
  rewrite (bind_Ok _ _ _ _ _ E).
  eexists. split; [reflexivity|]. exact C.
Qed.

Lemma create_door_opened_run (s : State) :
  exists s' e,
    create_door_opened s = (s', Ok (__next_id s)) /\ created s s' e.
Proof.
  unfold create_door_opened.
  destruct (Wall_init_run 627 202 145 5 "brown" s)
    as (s1 & E & N & G & H & R & W).
  rewrite (bind_Ok _ _ _ _ _ E).
  erewrite bind_Ok.
  2:{ apply update_run. rewrite H. apply lookup_insert_eq. }
  eexists _, _. split; [reflexivity|]. unfold created. simpl.
  split; [exact N|]. split; [exact G|]. split; [|auto].
  rewrite H. apply insert_insert_eq.
Qed.

Lemma create_enemy_run (s : State) :
  exists s' e,
    create_enemy s = (s', Ok (__next_id s)) /\ created s s' e.
Proof.
  unfold create_enemy, route_set_next.
  erewrite bind_Ok by reflexivity.
  erewrite bind_Ok by reflexivity.
  erewrite bind_Ok.
  2:{ erewrite bind_Ok.
      2:{ apply deref_route_Some. simpl.
          rewrite lookup_insert_ne by lia. apply lookup_insert_eq. }
      reflexivity. }
  erewrite bind_Ok.
  2:{ erewrite bind_Ok.
      2:{ apply deref_route_Some. simpl.
          rewrite lookup_insert_ne by lia. apply lookup_insert_eq. }
      reflexivity. }
  lazymatch goal with
  | |- context [MovableEntity.__init__ ?c ?a ?b ?w ?h ?col ?ip ?cb ?r ?o ?sp ?st] =>
      destruct (MovableEntity_init_run c a b w h col ip cb r o sp st)
        as (s1 & E & C)
  end.
  eexists _, _. split; [exact E|]. exact C.
Qed.

Lemma create_enemy2_run (s : State) :
  exists s' e,
    Level2.create_enemy2 s = (s', Ok (__next_id s)) /\ created s s' e.
Proof.
  unfold Level2.create_enemy2.
  erewrite bind_Ok by reflexivity.
  destruct (MovableEntity_init_run CEnemyTouch 600 530 200 200 "black"
              (Some "../assets/spikes.png")
              (Some (SpikesFrame (__next_id s))) None false 10 s)
    as (s1 & E & N & G & H & R & W).
  rewrite (bind_Ok _ _ _ _ _ E).
  erewrite bind_Ok by reflexivity.
  erewrite bind_Ok.
  2:{ apply update_run. simpl. rewrite H. apply lookup_insert_eq. }
  erewrite bind_Ok.
  2:{ apply update_run. simpl. apply lookup_insert_eq. }
  eexists _, _. split; [reflexivity|]. unfold created. simpl.
  split; [exact N|]. split; [exact G|]. split; [|auto].
  rewrite H. rewrite !insert_insert_eq. reflexivity.
Qed.

Lemma allocates_create_walls : allocates create_walls.
Proof.
  unfold create_walls.
  repeat (apply allocates_bind; [apply allocates_Wall_init|intros ?]).
  apply allocates_ret.
Qed.

Lemma allocates_Level1_create_entities p :
  allocates (Level1.create_entities p).
Proof.
  unfold Level1.create_entities, create_door, create_key, Level1.create_graal.
  apply allocates_bind; [apply allocates_Wall_init|intros ?].
  apply allocates_bind;
    [apply allocates_of_run; intros s; destruct (create_door_opened_run s)
       as (s' & e & H); eauto|intros ?].
  apply allocates_bind;
    [apply allocates_of_run; intros s; destruct (create_enemy_run s)
       as (s' & e & H); eauto|intros ?].
  apply allocates_bind; [apply allocates_Entity_init|intros ?].
  apply allocates_bind; [apply allocates_Entity_init|intros ?].
  apply allocates_ret.
Qed.

Lemma allocates_Level2_create_entities p :
  allocates (Level2.create_entities p).
Proof.
  unfold Level2.create_entities, create_door, create_key, Level2.create_graal.
  apply allocates_bind; [apply allocates_Wall_init|intros ?].
  apply allocates_bind;
    [apply allocates_of_run; intros s; destruct (create_door_opened_run s)
       as (s' & e & H); eauto|intros ?].
  apply allocates_bind;
    [apply allocates_of_run; intros s; destruct (create_enemy_run s)
       as (s' & e & H); eauto|intros ?].
  apply allocates_bind;
    [apply allocates_of_run; intros s; destruct (create_enemy2_run s)
       as (s' & e & H); eauto|intros ?].
  apply allocates_bind; [apply allocates_Entity_init|intros ?].
  apply allocates_bind; [apply allocates_Entity_init|intros ?].
  apply allocates_ret.
Qed.

(** Calling a level class always returns a level of that class, built
    from objects of fresh identity, with the [Game] object untouched; for
    the two playable levels the first object built is the player at its
    spawn point. *)
Lemma Level_construct_run (c : LevelClass) (s : State) :
  exists l s',
    Level.construct c s = (s', Ok l) /\
    Level.class_of l = c /\
    grows s s' /\
    (c <> CWinMap ->
     Level.player l = Some (__next_id s) /\
     Level.on_screen l = true /\
     heap s' !! __next_id s = Some spawned_player).
Proof.
  assert (Hplayable : forall (ents : Z -> M (list Z))
                        (mk : Z -> list Z -> list Z -> bool -> Level),
    (forall p, allocates (ents p)) ->
    exists ws es s',
      (player ← create_player; walls ← create_walls;
       entities ← ents player;
       mret (mk player walls entities true)) s
      = (s', Ok (mk (__next_id s) ws es true)) /\
      grows s s' /\
      heap s' !! __next_id s = Some spawned_player).
  { intros ents mk Hents.
    destruct (create_player_run s) as (s1 & E1 & C1).
    destruct (allocates_create_walls s1) as (ws & s2 & E2 & G2).
    destruct (Hents (__next_id s) s2) as (es & s3 & E3 & G3).
    exists ws, es, s3.
    rewrite (bind_Ok _ _ _ _ _ E1), (bind_Ok _ _ _ _ _ E2),
      (bind_Ok _ _ _ _ _ E3).
    split; [reflexivity|].
    pose proof (grows_trans _ _ _ G2 G3) as G23.
    split; [exact (grows_trans _ _ _ (created_grows _ _ _ C1) G23)|].
    destruct C1 as (N1 & _ & H1 & _).
    destruct G23 as (_ & _ & F & _).
    rewrite F by lia. rewrite H1. apply lookup_insert_eq. }
  destruct c.
  - destruct (Hplayable Level1.create_entities Level1Obj
                allocates_Level1_create_entities)
      as (ws & es & s' & E & G & H).
    exists (Level1Obj (__next_id s) ws es true), s'.
    split; [exact E|]. split; [reflexivity|]. split; [exact G|].
    intros _. split; [reflexivity|]. split; [reflexivity|exact H].
  - destruct (Hplayable Level2.create_entities Level2Obj
                allocates_Level2_create_entities)
      as (ws & es & s' & E & G & H).
    exists (Level2Obj (__next_id s) ws es true), s'.
    split; [exact E|]. split; [reflexivity|]. split; [exact G|].
    intros _. split; [reflexivity|]. split; [reflexivity|exact H].
  - unfold Level.construct, WinMap.__init__.
    destruct (Entity_init_run CEntity ((DISPLAY_RESOLUTION s).1 / 2)
                ((DISPLAY_RESOLUTION s).2 / 2) 1280 720 "black"
                (Some "../assets/win.png") None s) as (s1 & E & C).
    exists (WinMapObj (__next_id s) false), s1.
    erewrite bind_Ok by reflexivity.
    rewrite (bind_Ok _ _ _ _ _ E).
    split; [reflexivity|]. split; [reflexivity|].
    split; [exact (created_grows _ _ _ C)|].
    intros Hc. contradiction.
Qed.

(** ** C5: one live level *)

(** C5 does not hold of the code: whatever the state [Game.__init__]
    starts from, it returns with [current_level = 1] while the one level
    object it built sits at index 0 and the element at index 1 is the class
    [Level2], so that the element at [current_level] is not a live level. *)
Theorem game_init_current_level_not_live (s : State) :
  exists l s',
    Game.__init__ s = (s', Ok tt) /\
    current_level s' = 1%nat /\
    levels s' = [SInstance l; SClass CLevel2; SClass CWinMap] /\
    Level.class_of l = CLevel1 /\
    ~ one_live_level s'.
Proof.
  unfold Game.__init__.
  destruct (Level_construct_run CLevel1 (upd_current_level (fun _ => 1%nat) s))
    as (l & s1 & E & C & (_ & G & _) & _).
  simpl in E.
  exists l. eexists. split.
  - erewrite bind_Ok by reflexivity.
    rewrite (bind_Ok _ _ _ _ _ E). reflexivity.
  - simpl. injection G as G1 G2 G3. split; [exact G1|].
    split; [reflexivity|]. split; [exact C|].
    intros [[l' Hl'] _]. simpl in Hl'. rewrite G1 in Hl'. discriminate Hl'.
Qed.

(** ** C6: clearing a level *)

Lemma dict_pop_elem (k : Z) (d : list Z) :
  k ∈ d -> dict_pop k d = Some (filter (fun j => j ≠ k) d).
Proof. intros H. unfold dict_pop. destruct (decide (k ∈ d)); [auto|tauto]. Qed.

Lemma shrunk_refl (l d : list Z) : shrunk l d d.
Proof. split; auto. Qed.

Lemma shrunk_filter (i : Z) (d : list Z) :
  shrunk [i] d (filter (fun j => j ≠ i) d).
Proof.
  split; intros j; rewrite list_elem_of_filter.
  - tauto.
  - rewrite list_elem_of_singleton. tauto.
Qed.

Lemma shrunk_cons (i : Z) (l d1 d2 d3 : list Z) :
  shrunk [i] d1 d2 -> shrunk l d2 d3 -> shrunk (i :: l) d1 d3.
Proof.
  intros [A1 B1] [A2 B2]. split.
  - auto.
  - intros j Hj Hd. rewrite not_elem_of_cons in Hj. destruct Hj as [Hji Hjl].
    apply B2; [exact Hjl|]. apply B1; [|exact Hd].
    rewrite list_elem_of_singleton. exact Hji.
Qed.

Lemma not_elem_of_filter_ne (i : Z) (d : list Z) :
  i ∉ filter (fun j => j ≠ i) d.
Proof. rewrite list_elem_of_filter. tauto. Qed.

Lemma Entity_clear_run (s : State) (i : Z) (e : Entity) :
  heap s !! i = Some e -> i ∈ entities_by_id s ->
  Entity.clear i s
  = (upd_heap <[i := set_alive false e]>
       (upd_entities_by_id (fun _ => filter (fun j => j ≠ i) (entities_by_id s))
          s), Ok tt).
Proof.
  intros He Hi. unfold Entity.clear.
  erewrite bind_Ok by reflexivity. rewrite (dict_pop_elem _ _ Hi).
  erewrite bind_Ok by reflexivity.
  apply update_run. exact He.
Qed.

Lemma clear_obj_run (s : State) (i : Z) :
  registered_obj s i = true ->
  exists s',
    clear_obj i s = (s', Ok tt) /\ torn_down [i] s s' /\
    game_fields s' = game_fields s.
Proof.
  unfold registered_obj. destruct (heap s !! i) as [e|] eqn:He; [|discriminate].
  rewrite !andb_true_iff, !bool_decide_eq_true. intros [[Hn Hi] Hc].
  assert (Hobj : forall s' : State,
    __next_id s' = __next_id s -> game_fields s' = game_fields s ->
    heap s' = <[i := set_alive false e]> (heap s) ->
    entities_by_id s' = filter (fun j => j ≠ i) (entities_by_id s) ->
    shrunk [i] (walls_by_id s) (walls_by_id s') ->
    shrunk [i] (movable_entities_by_id s) (movable_entities_by_id s') ->
    shrunk [i] (players_by_id s) (players_by_id s') ->
    (cls e = CWall -> i ∉ walls_by_id s') ->
    torn_down [i] s s' /\ game_fields s' = game_fields s).
  { intros s' N G H E W Mv P Hw. split; [|exact G]. unfold torn_down.
    split; [exact N|].
    split; [rewrite E; apply shrunk_filter|].
    split; [exact W|]. split; [exact Mv|]. split; [exact P|]. split.
    - intros j Hj. rewrite list_elem_of_singleton in Hj.
      rewrite H. apply lookup_insert_ne. congruence.
    - intros k Hk. rewrite list_elem_of_singleton in Hk. subst k. split.
      + rewrite E. apply not_elem_of_filter_ne.
      + exists e. split; [exact He|]. split; [|exact Hw].
        rewrite H. apply lookup_insert_eq. }
  unfold clear_obj. rewrite (bind_Ok _ _ _ _ _ (deref_Some _ _ _ He)).
  destruct (cls e) eqn:Hcls.
  - eexists. split; [apply Entity_clear_run; eassumption|].
    apply Hobj; try reflexivity; try apply shrunk_refl. discriminate.
  - rewrite bool_decide_eq_true in Hc.
    unfold Wall.clear. erewrite bind_Ok by reflexivity.
    rewrite (dict_pop_elem _ _ Hc). erewrite bind_Ok by reflexivity.
    eexists. split; [apply Entity_clear_run; eassumption|].
    apply Hobj; try reflexivity; try apply shrunk_refl.
    + apply shrunk_filter.
    + intros _. apply not_elem_of_filter_ne.
  - rewrite bool_decide_eq_true in Hc.
    unfold MovableEntity.clear. erewrite bind_Ok by reflexivity.
    rewrite (dict_pop_elem _ _ Hc). erewrite bind_Ok by reflexivity.
    eexists. split; [apply Entity_clear_run; eassumption|].
    apply Hobj; try reflexivity; try apply shrunk_refl.
    + apply shrunk_filter.
    + discriminate.
  - rewrite bool_decide_eq_true in Hc.
    unfold MovableEntity.clear. erewrite bind_Ok by reflexivity.
    rewrite (dict_pop_elem _ _ Hc). erewrite bind_Ok by reflexivity.
    eexists. split; [apply Entity_clear_run; eassumption|].
    apply Hobj; try reflexivity; try apply shrunk_refl.
    + apply shrunk_filter.
    + discriminate.
  - rewrite bool_decide_eq_true in Hc.
    unfold MovableEntity.clear. erewrite bind_Ok by reflexivity.
    rewrite (dict_pop_elem _ _ Hc). erewrite bind_Ok by reflexivity.
    eexists. split; [apply Entity_clear_run; eassumption|].
    apply Hobj; try reflexivity; try apply shrunk_refl.
    + apply shrunk_filter.
    + discriminate.
  - rewrite andb_true_iff, !bool_decide_eq_true in Hc.
    destruct Hc as [Hm Hp].
    unfold Player.clear. erewrite bind_Ok by reflexivity.
    rewrite (dict_pop_elem _ _ Hp). erewrite bind_Ok by reflexivity.
    unfold MovableEntity.clear. erewrite bind_Ok by reflexivity.
    simpl. rewrite (dict_pop_elem _ _ Hm). erewrite bind_Ok by reflexivity.
    eexists. split; [apply Entity_clear_run; eassumption|].
    apply Hobj; try reflexivity; try apply shrunk_refl.
    + apply shrunk_filter.
    + apply shrunk_filter.
    + discriminate.
Qed.

Lemma torn_down_nil (s : State) : torn_down [] s s.
Proof.
  unfold torn_down. split; [reflexivity|].
  do 4 (split; [apply shrunk_refl|]). split; [reflexivity|].
  intros k Hk. apply elem_of_nil in Hk. contradiction.
Qed.

Lemma torn_down_cons (i : Z) (l : list Z) (s s1 s' : State) :
  i ∉ l -> torn_down [i] s s1 -> torn_down l s1 s' ->
  torn_down (i :: l) s s'.
Proof.
  intros Hil (N1 & E1 & W1 & M1 & P1 & F1 & C1) (N2 & E2 & W2 & M2 & P2 & F2 & C2).
  unfold torn_down. split; [congruence|].
  split; [exact (shrunk_cons _ _ _ _ _ E1 E2)|].
  split; [exact (shrunk_cons _ _ _ _ _ W1 W2)|].
  split; [exact (shrunk_cons _ _ _ _ _ M1 M2)|].
  split; [exact (shrunk_cons _ _ _ _ _ P1 P2)|].
  split.
  - intros j Hj. rewrite not_elem_of_cons in Hj. destruct Hj as [Hji Hjl].
    rewrite F2 by exact Hjl. apply F1.
    rewrite list_elem_of_singleton. exact Hji.
  - intros k Hk. rewrite elem_of_cons in Hk. destruct Hk as [->|Hk].
    + destruct (C1 i) as (Hne & e & He & He1 & Hw);
        [apply list_elem_of_here|].
      split; [intros Hin; apply Hne; apply E2; exact Hin|].
      exists e. split; [exact He|]. split.
      * rewrite F2 by exact Hil. exact He1.
      * intros Hc Hin. apply (Hw Hc). apply W2. exact Hin.
    + destruct (C2 k Hk) as (Hne & e & He & He1 & Hw).
      split; [exact Hne|]. exists e. split; [|split; assumption].
      rewrite <- F1; [exact He|].
      rewrite list_elem_of_singleton. intros ->. contradiction.
Qed.

Lemma torn_down_registered (l : list Z) (s s' : State) (j : Z) :
  torn_down l s s' -> j ∉ l ->
  registered_obj s j = true -> registered_obj s' j = true.
Proof.
  intros (N & [_ E] & [_ W] & [_ Mv] & [_ P] & F & _) Hj.
  unfold registered_obj. rewrite (F j Hj), N.
  destruct (heap s !! j) as [e|]; [|auto].
  rewrite !andb_true_iff, !bool_decide_eq_true. intros [[Hn Hi] Hc].
  split; [split; [exact Hn|apply E; assumption]|].
  destruct (cls e); auto.
  all: rewrite ?andb_true_iff, ?bool_decide_eq_true in *.
  all: try destruct Hc as [Hc1 Hc2]; auto.
Qed.

Lemma for_each_clear_run (l : list Z) (s : State) :
  NoDup l ->
  (forall i, i ∈ l -> registered_obj s i = true) ->
  exists s',
    for_each l clear_obj s = (s', Ok tt) /\ torn_down l s s' /\
    game_fields s' = game_fields s.
Proof.
  revert s. induction l as [|i l IH]; intros s Hnd Hreg.
  - exists s. split; [reflexivity|]. split; [apply torn_down_nil|reflexivity].
  - apply NoDup_cons in Hnd. destruct Hnd as [Hil Hnd].
    destruct (clear_obj_run s i) as (s1 & E1 & T1 & G1).
    { apply Hreg. apply list_elem_of_here. }
    destruct (IH s1 Hnd) as (s2 & E2 & T2 & G2).
    { intros j Hj. apply (torn_down_registered [i] s s1 j T1).
      - rewrite list_elem_of_singleton. intros ->. contradiction.
      - apply Hreg. apply list_elem_of_further. exact Hj. }
    exists s2. simpl. rewrite (bind_Ok _ _ _ _ _ E1).
    split; [exact E2|]. split; [|congruence].
    exact (torn_down_cons _ _ _ _ _ Hil T1 T2).
Qed.

Lemma for_each_app {A} (l1 l2 : list A) (f : A -> M unit) (s : State) :
  for_each (l1 ++ l2) f s = (for_each l1 f;; for_each l2 f) s.
Proof.
  revert s. induction l1 as [|a l1 IH]; intros s.
  - reflexivity.
  - simpl. rewrite !bind_run. destruct (f a s) as [s1 [[]|e]].
    + rewrite IH. reflexivity.
    + reflexivity.
Qed.

Lemma Level_clear_for_each (l : Level) (s : State) :
  Level.clear l s = for_each (Level.members l) clear_obj s.
Proof.
  assert (H : forall p ws es,
    (clear_obj p;; for_each ws clear_obj;; for_each es clear_obj) s
    = for_each (p :: ws ++ es) clear_obj s).
  { intros p ws es. simpl. rewrite !(bind_run (clear_obj p)).
    destruct (clear_obj p s) as [s1 [[]|e]]; [|reflexivity].
    symmetry. apply for_each_app. }
  destruct l as [p ws es o|p ws es o|t o]; simpl.
  - apply H.
  - apply H.
  - rewrite bind_run. destruct (clear_obj t s) as [s1 [[]|e]]; reflexivity.
Qed.

Lemma Level_clear_run (l : Level) (s : State) :
  registered l s = true ->
  exists s',
    Level.clear l s = (s', Ok tt) /\
    torn_down (Level.members l) s s' /\
    game_fields s' = game_fields s.
Proof.
  unfold registered. rewrite andb_true_iff, bool_decide_eq_true.
  intros [Hnd Hall]. rewrite Level_clear_for_each.
  apply for_each_clear_run; [exact Hnd|].
  intros i Hi. rewrite forallb_forall in Hall. apply Hall.
  apply list_elem_of_In. exact Hi.
Qed.

Lemma get_level_run (s : State) (i : nat) (sl : Slot) :
  levels s !! i = Some sl -> Game.get_level i s = (s, Ok sl).
Proof.
  intros H. unfold Game.get_level. erewrite bind_Ok by reflexivity.
  rewrite H. reflexivity.
Qed.

Lemma set_level_run (s : State) (i : nat) (v : Slot) :
  (i < length (levels s))%nat ->
  Game.set_level i v s
  = (upd_levels (fun _ => <[i := v]> (levels s)) s, Ok tt).
Proof.
  intros H. unfold Game.set_level. erewrite bind_Ok by reflexivity.
  destruct (decide (i < length (levels s))%nat); [reflexivity|contradiction].
Qed.

(** The four statements of [leave_level] on a state whose current element
    is a registered level object. *)
Lemma leave_level_run (s : State) (level : nat) (l : Level) :
  levels s !! current_level s = Some (SInstance l) ->
  registered l s = true ->
  (level < length (levels s))%nat ->
  exists s1 target,
    Game.leave_level level s = (s1, Ok tt) /\
    torn_down (Level.members l) s s1 /\
    <[current_level s := SInstance (Level.hide l)]> (levels s) !! level
      = Some target /\
    levels s1 = <[current_level s := Game.type_of target]> (levels s) /\
    current_level s1 = level /\
    win_time s1 = win_time s.
Proof.
  intros Hcur Hreg Hlevel.
  assert (Hlt : (current_level s < length (levels s))%nat)
    by (eapply lookup_lt_Some; exact Hcur).
  destruct (Level_clear_run l s Hreg) as (s1 & E1 & T1 & G1).
  injection G1 as Gc Gl Gw.
  destruct (lookup_lt_is_Some_2
              (<[current_level s := SInstance (Level.hide l)]> (levels s))
              level) as [target Ht].
  { rewrite length_insert. exact Hlevel. }
  eexists _, target. unfold Game.leave_level.
  erewrite bind_Ok by reflexivity.
  rewrite (bind_Ok _ _ _ _ _ (get_level_run _ _ _ Hcur)).
  simpl. rewrite (bind_Ok _ _ _ _ _ E1).
  erewrite bind_Ok.
  2:{ apply get_level_run. rewrite Gl. exact Hcur. }
  simpl. erewrite bind_Ok by reflexivity.
  erewrite bind_Ok.
  2:{ apply set_level_run. rewrite Gl. exact Hlt. }
  erewrite bind_Ok.
  2:{ apply get_level_run. simpl. rewrite Gl. exact Ht. }
  erewrite bind_Ok.
  2:{ apply set_level_run. simpl. rewrite length_insert, Gl. exact Hlt. }
  split; [reflexivity|]. simpl.
  split; [exact T1|]. split; [exact Ht|].
  split; [rewrite Gl; apply list_insert_insert_eq|].
  split; [reflexivity|exact Gw].
Qed.

Lemma get_level_state (i : nat) (s : State) :
  (Game.get_level i s).1 = s.
Proof.
  unfold Game.get_level. rewrite bind_run. simpl.
  destruct (levels s !! i); reflexivity.
Qed.

Lemma set_level_state (i : nat) (v : Slot) (s : State) :
  (Game.set_level i v s).1 = s \/
  (Game.set_level i v s).1 = upd_levels (fun _ => <[i := v]> (levels s)) s.
Proof.
  unfold Game.set_level. rewrite bind_run. simpl.
  destruct (decide _); [right|left]; reflexivity.
Qed.

(** [enter_level] adds to the dictionaries only identities from
    [__next_id] on, whether it returns or raises. *)
Lemma enter_level_registries (level : nat) (s s' : State) (r : result unit) :
  Game.enter_level level s = (s', r) ->
  (forall k, k ∈ entities_by_id s' ->
             k ∈ entities_by_id s \/ __next_id s <= k) /\
  (forall k, k ∈ walls_by_id s' ->
             k ∈ walls_by_id s \/ __next_id s <= k).
Proof.
  assert (Hgrow : forall s1 s2 : State,
    grows s s1 ->
    entities_by_id s2 = entities_by_id s1 ->
    walls_by_id s2 = walls_by_id s1 ->
    (forall k, k ∈ entities_by_id s2 ->
               k ∈ entities_by_id s \/ __next_id s <= k) /\
    (forall k, k ∈ walls_by_id s2 ->
               k ∈ walls_by_id s \/ __next_id s <= k)).
  { intros s1 s2 (_ & _ & _ & E & W) -> ->. auto. }
  assert (Hset : forall i v (s1 : State),
    entities_by_id (Game.set_level i v s1).1 = entities_by_id s1 /\
    walls_by_id (Game.set_level i v s1).1 = walls_by_id s1).
  { intros i v s1. destruct (set_level_state i v s1) as [-> | ->]; auto. }
  (* the state after [_init_level] *)
  assert (Hinit : forall s1 r1,
    Game._init_level (current_level s) s = (s1, r1) ->
    exists s0, grows s s0 /\ entities_by_id s1 = entities_by_id s0 /\
               walls_by_id s1 = walls_by_id s0).
  { intros s1 r1. unfold Game._init_level. rewrite bind_run.
    pose proof (get_level_state (current_level s) s) as Hg.
    destruct (Game.get_level (current_level s) s) as [s0 [sl|e]];
      simpl in Hg; subst s0;
      [|intros [= <- _]; exists s; split; [apply grows_refl|auto]].
    rewrite bind_run.
    destruct sl as [l|c| |]; simpl;
      try (intros [= <- _]; exists s; split; [apply grows_refl|auto]).
    destruct (Level_construct_run c s) as (l & s2 & E & _ & G & _).
    rewrite (bind_Ok _ _ _ _ _ E). unfold mret, M_ret.
    intros Hs. exists s2. split; [exact G|].
    destruct (Hset (current_level s) (SInstance l) s2) as [H1 H2].
    rewrite Hs in H1, H2. auto. }
  unfold Game.enter_level. erewrite bind_Ok by reflexivity.
  rewrite bind_run.
  destruct (Game._init_level (current_level s) s) as [s1 r1] eqn:E1.
  destruct (Hinit s1 r1 eq_refl) as (s0 & G & HE & HW).
  destruct r1 as [[]|e];
    [|intros [= <- _]; apply (Hgrow s0); assumption].
  rewrite bind_run.
  pose proof (get_level_state level s1) as Hg.
  destruct (Game.get_level level s1) as [s2 [sl|e]]; simpl in Hg; subst s2;
    [|intros [= <- _]; apply (Hgrow s0); assumption].
  destruct sl as [l|c| |];
    try (intros [= <- _]; apply (Hgrow s0); assumption).
  intros Hs.
  destruct (Hset level (SInstance (Level.set_on_screen true l)) s1)
    as [H1 H2].
  rewrite Hs in H1, H2. simpl in H1, H2.
  apply (Hgrow s0); [exact G|congruence..].
Qed.

(** C6: [_go_to_level] on a state whose current element is a level
    object with registered objects first carries out lines 131-134 without
    raising; in the state these leave, that is before the incoming level is
    built, every object of the outgoing level (player, walls, others) is out
    of [entities_by_id], every wall among them out of [walls_by_id], and
    each is marked dead; building the incoming level does not bring any of
    them back. *)
Theorem transition_clears_outgoing_level
    (s : State) (level : nat) (l : Level) :
  levels s !! current_level s = Some (SInstance l) ->
  registered l s = true ->
  (level < length (levels s))%nat ->
  exists s1,
    Game.leave_level level s = (s1, Ok tt) /\
    Game._go_to_level level s = Game.enter_level level s1 /\
    (forall i, i ∈ Level.members l ->
       (i ∉ entities_by_id s1) /\
       exists e, heap s !! i = Some e /\
                 heap s1 !! i = Some (set_alive false e) /\
                 (cls e = CWall -> i ∉ walls_by_id s1)) /\
    (forall i, i ∈ Level.members l ->
       (i ∉ entities_by_id (Game._go_to_level level s).1) /\
       forall e, heap s !! i = Some e -> cls e = CWall ->
                 i ∉ walls_by_id (Game._go_to_level level s).1).
Proof.
  intros Hcur Hreg Hlevel.
  destruct (leave_level_run s level l Hcur Hreg Hlevel)
    as (s1 & target & E & T & _).
  exists s1. split; [exact E|].
  assert (Hgo : Game._go_to_level level s = Game.enter_level level s1).
  { unfold Game._go_to_level. rewrite (bind_Ok _ _ _ _ _ E). reflexivity. }
  split; [exact Hgo|].
  destruct T as (N & _ & _ & _ & _ & _ & C).
  split; [exact C|].
  intros i Hi. rewrite Hgo.
  destruct (Game.enter_level level s1) as [s2 r] eqn:E2.
  destruct (enter_level_registries level s1 s2 r E2) as [HE HW]. simpl.
  assert (Hlt : i < __next_id s1).
  { rewrite N. unfold registered in Hreg.
    rewrite andb_true_iff, forallb_forall in Hreg. destruct Hreg as [_ Hall].
    specialize (Hall i (proj1 (list_elem_of_In _ _) Hi)).
    unfold registered_obj in Hall. destruct (heap s !! i); [|discriminate].
    rewrite !andb_true_iff, bool_decide_eq_true in Hall. tauto. }
  destruct (C i Hi) as (Hne & e & He & _ & Hw). split.
  - intros Hin. destruct (HE i Hin) as [H|H]; [contradiction|lia].
  - intros e' He' Hc Hin. rewrite He in He'. injection He' as <-.
    destruct (HW i Hin) as [H|H]; [exact (Hw Hc H)|lia].
Qed.

Lemma transition_clears_outgoing_level_witness :
  exists s1,
    Game.leave_level 1 started = (s1, Ok tt) /\
    Game._go_to_level 1 started = Game.enter_level 1 s1 /\
    (forall i, i ∈ Level.members level1_obj ->
       (i ∉ entities_by_id s1) /\
       exists e, heap started !! i = Some e /\
                 heap s1 !! i = Some (set_alive false e) /\
                 (cls e = CWall -> i ∉ walls_by_id s1)) /\
    (forall i, i ∈ Level.members level1_obj ->
       (i ∉ entities_by_id (Game._go_to_level 1 started).1) /\
       forall e, heap started !! i = Some e -> cls e = CWall ->
                 i ∉ walls_by_id (Game._go_to_level 1 started).1).
Proof.
  apply (transition_clears_outgoing_level started 1 level1_obj).
  - vm_compute. reflexivity.
  - vm_compute. reflexivity.
  - vm_compute. lia.
Defined.


Lemma hidden_wall_never_blocks_witness :
  MovableEntity.move (1280, 720) ([wall_102] ++ hidden_wall :: []) walker 1 0
  = MovableEntity.move (1280, 720) ([wall_102] ++ []) walker 1 0 /\
  walls_by_id (update 8 Entity.hide started).1 = walls_by_id started /\
  entities_by_id (update 8 Entity.hide started).1 = entities_by_id started.
Proof.
  destruct hidden_wall_never_blocks as (Hmove & _ & Hhide).
  split.
  - apply Hmove. reflexivity.
  - destruct (Hhide started 8
                (Entity.fresh CWall 702 272 5 145 "brown" None None))
      as (_ & _ & _ & _ & Hw & He).
    + vm_compute. reflexivity.
    + split; assumption.
Defined.

(** ** What computations leave alone *)

Section Preserves.
Context {B : Type} (f : State -> B).

Lemma preserves_ret {A} (a : A) : preserves f (mret a).
Proof. intros s. reflexivity. Qed.

Lemma preserves_raise {A} (e : exn) : preserves f (raise e : M A).
Proof. intros s. reflexivity. Qed.

Lemma preserves_gets {A} (g : State -> A) : preserves f (gets g).
Proof. intros s. reflexivity. Qed.

Lemma preserves_modify (g : State -> State) :
  (forall s, f (g s) = f s) -> preserves f (modify g).
Proof. intros H s. apply H. Qed.

Lemma preserves_bind {A C} (m : M A) (k : A -> M C) :
  preserves f m -> (forall a, preserves f (k a)) -> preserves f (m ≫= k).
Proof.
  intros Hm Hk s. rewrite bind_run. specialize (Hm s).
  destruct (m s) as [s1 [a|e]]; simpl in *.
  - rewrite Hk. exact Hm.
  - exact Hm.
Qed.

Lemma preserves_deref (i : Z) : preserves f (deref i).
Proof. intros s. unfold deref. destruct (heap s !! i); reflexivity. Qed.

Lemma preserves_deref_route (r : Z) : preserves f (deref_route r).
Proof. intros s. unfold deref_route. destruct (routes s !! r); reflexivity. Qed.

Lemma preserves_for_each {A} (l : list A) (k : A -> M unit) :
  (forall a, preserves f (k a)) -> preserves f (for_each l k).
Proof.
  intros Hk. induction l as [|a l IH]; simpl.
  - apply preserves_ret.
  - apply preserves_bind; [apply Hk|intros _; exact IH].
Qed.

Lemma preserves_mapM {A C} (l : list A) (k : A -> M C) :
  (forall a, preserves f (k a)) -> preserves f (mapM k l).
Proof.
  intros Hk. induction l as [|a l IH]; simpl.
  - apply preserves_ret.
  - apply preserves_bind; [apply Hk|intros c].
    apply preserves_bind; [exact IH|intros cs]. apply preserves_ret.
Qed.

Lemma preserves_try_except {A} (m : M A) (h : exn -> option (M A)) :
  preserves f m -> (forall e k, h e = Some k -> preserves f k) ->
  preserves f (try_except m h).
Proof.
  intros Hm Hh s. unfold try_except. specialize (Hm s).
  destruct (m s) as [s1 [a|e]]; simpl in *; [exact Hm|].
  destruct (h e) as [k|] eqn:He; simpl; [|exact Hm].
  rewrite (Hh e k He). exact Hm.
Qed.

End Preserves.

Section NoRaise.
Context (x : exn).

Lemma no_raise_ret {A} (a : A) : no_raise x (mret a).
Proof. intros s. discriminate. Qed.

Lemma no_raise_raise {A} (e : exn) : e <> x -> no_raise x (raise e : M A).
Proof. intros H s. simpl. congruence. Qed.

Lemma no_raise_gets {A} (g : State -> A) : no_raise x (gets g).
Proof. intros s. discriminate. Qed.

Lemma no_raise_modify (g : State -> State) : no_raise x (modify g).
Proof. intros s. discriminate. Qed.

Lemma no_raise_now : no_raise x now.
Proof. intros s. discriminate. Qed.

Lemma no_raise_bind {A C} (m : M A) (k : A -> M C) :
  no_raise x m -> (forall a, no_raise x (k a)) -> no_raise x (m ≫= k).
Proof.
  intros Hm Hk s. rewrite bind_run. specialize (Hm s).
  destruct (m s) as [s1 [a|e]]; simpl in *.
  - apply Hk.
  - intros [= He]. apply Hm. rewrite He. reflexivity.
Qed.

Lemma no_raise_deref (i : Z) : x <> Dangling -> no_raise x (deref i).
Proof.
  intros H s. unfold deref. destruct (heap s !! i); simpl; congruence.
Qed.

Lemma no_raise_deref_route (r : Z) :
  x <> Dangling -> no_raise x (deref_route r).
Proof.
  intros H s. unfold deref_route. destruct (routes s !! r); simpl; congruence.
Qed.

Lemma no_raise_update (i : Z) (g : Entity -> Entity) :
  x <> Dangling -> no_raise x (update i g).
Proof.
  intros H. unfold update. apply no_raise_bind.
  - apply no_raise_deref. exact H.
  - intros e. apply no_raise_modify.
Qed.

Lemma no_raise_for_each {A} (l : list A) (k : A -> M unit) :
  (forall a, no_raise x (k a)) -> no_raise x (for_each l k).
Proof.
  intros Hk. induction l as [|a l IH]; simpl.
  - apply no_raise_ret.
  - apply no_raise_bind; [apply Hk|intros _; exact IH].
Qed.

Lemma no_raise_mapM {A C} (l : list A) (k : A -> M C) :
  (forall a, no_raise x (k a)) -> no_raise x (mapM k l).
Proof.
  intros Hk. induction l as [|a l IH]; simpl.
  - apply no_raise_ret.
  - apply no_raise_bind; [apply Hk|intros c].
    apply no_raise_bind; [exact IH|intros cs]. apply no_raise_ret.
Qed.

End NoRaise.

Ltac no_raise_step :=
  lazymatch goal with
  | |- no_raise _ (mret _) => apply no_raise_ret
  | |- no_raise _ (_ ≫= _) => apply no_raise_bind; [|intros ?]
  | |- no_raise _ (raise _) => apply no_raise_raise; discriminate
  | |- no_raise _ (gets _) => apply no_raise_gets
  | |- no_raise _ (modify _) => apply no_raise_modify
  | |- no_raise _ now => apply no_raise_now
  | |- no_raise _ (deref _) => apply no_raise_deref; discriminate
  | |- no_raise _ (deref_route _) => apply no_raise_deref_route; discriminate
  | |- no_raise _ (update _ _) => apply no_raise_update; discriminate
  | |- no_raise _ (for_each _ _) => apply no_raise_for_each; intros ?
  | |- no_raise _ (mapM _ _) => apply no_raise_mapM; intros ?
  | |- no_raise _ (match ?c with _ => _ end) => destruct c
  end.

Lemma no_GameOver_Entity_frame (self : Z) :
  no_raise GameOver (Entity.frame self).
Proof.
  unfold Entity.frame, Entity.call. repeat no_raise_step.
Qed.

Lemma no_GameOver_MovableEntity_frame (self : Z) :
  no_raise GameOver (MovableEntity.frame self).
Proof.
  unfold MovableEntity.frame, MovableEntity.move_obj.
  repeat no_raise_step. apply no_GameOver_Entity_frame.
Qed.

(** [enter_level] on a state whose element at [level = current_level] is
    a level class: the class is called and the new level object, shown,
    takes the place of the class. *)
Lemma enter_level_run (s : State) (level : nat) (c : LevelClass) :
  current_level s = level ->
  levels s !! level = Some (SClass c) ->
  exists l s1,
    Level.construct c s = (s1, Ok l) /\
    Level.class_of l = c /\
    grows s s1 /\
    (c <> CWinMap ->
     Level.player l = Some (__next_id s) /\
     heap s1 !! __next_id s = Some spawned_player) /\
    Game.enter_level level s
    = (upd_levels
         (fun _ => <[level := SInstance (Level.set_on_screen true l)]>
                     (levels s)) s1, Ok tt).
Proof.
  intros Hcur Hsl.
  assert (Hlt : (level < length (levels s))%nat)
    by (eapply lookup_lt_Some; exact Hsl).
  destruct (Level_construct_run c s) as (l & s1 & E & C & G & P).
  pose proof G as (_ & Gf & _). injection Gf as Gc Gl Gw.
  exists l, s1. split; [exact E|]. split; [exact C|]. split; [exact G|].
  split; [intros Hc; destruct (P Hc) as (P1 & _ & P3); auto|].
  unfold Game.enter_level, Game._init_level.
  erewrite bind_Ok by reflexivity. rewrite Hcur.
  erewrite bind_Ok.
  2:{ rewrite (bind_Ok _ _ _ _ _ (get_level_run _ _ _ Hsl)).
      simpl. erewrite bind_Ok.
      2:{ rewrite (bind_Ok _ _ _ _ _ E). reflexivity. }
      apply set_level_run. rewrite Gl. exact Hlt. }
  erewrite bind_Ok.
  2:{ apply get_level_run. simpl. apply list_lookup_insert_eq.
      rewrite Gl. exact Hlt. }
  cbv beta iota.
  rewrite set_level_run by (simpl; rewrite length_insert, Gl; exact Hlt).
  simpl. rewrite Gl, list_insert_insert_eq. reflexivity.
Qed.

(** Reloading the current level: [_go_to_level(self.current_level)] on a
    registered level object returns with the same index, a new object of
    the same class in its place, and the old objects unregistered. *)
Lemma reload_level_run (s : State) (l : Level) :
  levels s !! current_level s = Some (SInstance l) ->
  registered l s = true ->
  exists s' l',
    Game._go_to_level (current_level s) s = (s', Ok tt) /\
    current_level s' = current_level s /\
    win_time s' = win_time s /\
    levels s' = <[current_level s := SInstance l']> (levels s) /\
    Level.class_of l' = Level.class_of l /\
    Level.on_screen l' = true /\
    (Level.class_of l <> CWinMap ->
     exists p, Level.player l' = Some p /\ __next_id s <= p /\
               heap s' !! p = Some spawned_player) /\
    (forall i, i ∈ Level.members l -> i ∉ entities_by_id s').
Proof.
  intros Hcur Hreg.
  assert (Hlt : (current_level s < length (levels s))%nat)
    by (eapply lookup_lt_Some; exact Hcur).
  destruct (leave_level_run s (current_level s) l Hcur Hreg Hlt)
    as (s1 & target & E1 & T & Ht & Hl1 & Hc1 & Hw1).
  rewrite list_lookup_insert_eq in Ht by exact Hlt.
  injection Ht as <-. simpl in Hl1.
  assert (Hcls : Level.class_of (Level.hide l) = Level.class_of l)
    by (destruct l; reflexivity).
  rewrite Hcls in Hl1.
  destruct (enter_level_run s1 (current_level s) (Level.class_of l) Hc1)
    as (l' & s2 & E2 & C2 & G2 & P2 & E3).
  { rewrite Hl1. apply list_lookup_insert_eq. exact Hlt. }
  eexists _, (Level.set_on_screen true l').
  unfold Game._go_to_level. rewrite (bind_Ok _ _ _ _ _ E1).
  split; [exact E3|]. simpl.
  destruct G2 as (N2 & Gf & F2 & R2 & _). injection Gf as Gc Gl Gw.
  destruct T as (N1 & _ & _ & _ & _ & _ & C1).
  split; [congruence|]. split; [congruence|].
  split; [rewrite Hl1; apply list_insert_insert_eq|].
  split; [rewrite <- C2; destruct l'; reflexivity|].
  split; [destruct l'; reflexivity|]. split.
  - intros Hc. destruct (P2 Hc) as [Pp Ph].
    exists (__next_id s1). split; [destruct l'; exact Pp|].
    split; [lia|exact Ph].
  - intros i Hi Hin. destruct (C1 i Hi) as (Hne & _).
    destruct (R2 i Hin) as [H|H]; [contradiction|].
    unfold registered in Hreg.
    rewrite andb_true_iff, forallb_forall in Hreg. destruct Hreg as [_ Hall].
    specialize (Hall i (proj1 (list_elem_of_In _ _) Hi)).
    unfold registered_obj in Hall. destruct (heap s !! i); [|discriminate].
    rewrite !andb_true_iff, bool_decide_eq_true in Hall. lia.
Qed.

(** ** C7: touching a hazard *)

Lemma touch_loop (s : State) (e : Entity) (ps : list Z) :
  Forall (fun p => is_Some (heap s !! p)) ps ->
  for_each ps (fun p =>
    player ← deref p;
    if Rect.colliderect (rect e) (rect player) then raise GameOver
    else mret tt) s
  = (s, if existsb (fun p => match heap s !! p with
                             | Some pe => Rect.colliderect (rect e) (rect pe)
                             | None => false
                             end) ps
        then Raise GameOver else Ok tt).
Proof.
  induction 1 as [|p ps [pe Hp] _ IH]; simpl.
  - reflexivity.
  - rewrite bind_run, (bind_Ok _ _ _ _ _ (deref_Some _ _ _ Hp)), Hp.
    destruct (Rect.colliderect (rect e) (rect pe)); simpl.
    + reflexivity.
    + exact IH.
Qed.

Lemma touches_player_existsb (s : State) (e : Entity) :
  existsb (fun p => match heap s !! p with
                    | Some pe => Rect.colliderect (rect e) (rect pe)
                    | None => false
                    end) (players_by_id s) = true
  <-> touches_player s e.
Proof.
  rewrite existsb_exists. unfold touches_player. split.
  - intros (p & Hin & Hp). destruct (heap s !! p) as [pe|] eqn:He;
      [|discriminate].
    exists p, pe. rewrite list_elem_of_In. auto.
  - intros (p & pe & Hin & He & Hc). exists p.
    rewrite <- list_elem_of_In, He. auto.
Qed.

Lemma for_each_abort {A} (pre post : list A) (a : A) (f : A -> M unit)
    (s s1 s2 : State) (ex : exn) :
  for_each pre f s = (s1, Ok tt) ->
  f a s1 = (s2, Raise ex) ->
  for_each (pre ++ a :: post) f s = (s2, Raise ex).
Proof.
  intros Hpre Ha. rewrite for_each_app, (bind_Ok _ _ _ _ _ Hpre).
  simpl. apply bind_Raise. exact Ha.
Qed.

(** C7: (a) an [EnemyTouch] whose players are allocated raises [GameOver]
    exactly when it is on screen and its rectangle overlaps that of a
    player of [players_by_id]; (b) an exception raised by the tick of one
    object ends [_handle_entities] and [frame] in the state of the raise,
    the objects after it not being ticked; (c) the loop answers a
    [GameOver] of the frame with [_go_to_level(self.current_level)];
    (d) which, on a registered level object with a player, returns with
    [current_level] unchanged and a new level object of the same class in
    place, shown, whose player is a new object at the spawn point, the old
    objects being out of [entities_by_id]. *)
Theorem hazard_touch_restarts_level :
  (forall (s : State) (self : Z) (e : Entity),
     heap s !! self = Some e ->
     Forall (fun p => is_Some (heap s !! p)) (players_by_id s) ->
     ((EnemyTouch.frame self s).2 = Raise GameOver
      <-> on_screen e = true /\ touches_player s e)) /\
  (forall (s s1 s2 : State) (pre post : list Z) (i : Z) (ex : exn),
     entities_by_id s = pre ++ i :: post ->
     for_each pre frame_obj s = (s1, Ok tt) ->
     frame_obj i s1 = (s2, Raise ex) ->
     Game._handle_entities s = (s2, Raise ex) /\
     Game.frame s = (s2, Raise ex)) /\
  (forall (s s2 : State) (inp : Input),
     quit inp = false -> win_time s = None ->
     Game.frame (frame_start inp s) = (s2, Raise GameOver) ->
     Game.loop_body inp s
     = (Game._go_to_level (current_level s2);; draw Tick) s2) /\
  (forall (s2 : State) (l : Level),
     levels s2 !! current_level s2 = Some (SInstance l) ->
     registered l s2 = true ->
     Level.class_of l <> CWinMap ->
     exists s3 l' p,
       (Game._go_to_level (current_level s2);; draw Tick) s2 = (s3, Ok tt) /\
       current_level s3 = current_level s2 /\
       levels s3 !! current_level s2 = Some (SInstance l') /\
       Level.class_of l' = Level.class_of l /\
       Level.on_screen l' = true /\
       Level.player l' = Some p /\
       __next_id s2 <= p /\
       heap s3 !! p = Some spawned_player /\
       x spawned_player = 10 /\ y spawned_player = 10 /\
       (forall i, i ∈ Level.members l -> i ∉ entities_by_id s3)).
Proof.
  split; [|split; [|split]].
  - intros s self e He Hps. unfold EnemyTouch.frame.
    rewrite (bind_Ok _ _ _ _ _ (deref_Some _ _ _ He)).
    pose proof (no_GameOver_MovableEntity_frame self s) as Hno.
    destruct (on_screen e) eqn:Hon.
    + rewrite bind_run. erewrite bind_Ok by reflexivity.
      rewrite (touch_loop s e _ Hps).
      pose proof (touches_player_existsb s e) as Hex.
      destruct (existsb _ (players_by_id s)); simpl.
      * split; [intros _; split; [reflexivity|apply Hex; reflexivity]|auto].
      * split; [intros H; contradiction|].
        intros [_ Ht]. apply Hex in Ht. discriminate Ht.
    + rewrite bind_run. simpl.
      split; [intros H; contradiction|intros [H _]; discriminate H].
  - intros s s1 s2 pre post i ex Hids Hpre Hi.
    assert (Hh : Game._handle_entities s = (s2, Raise ex)).
    { unfold Game._handle_entities. erewrite bind_Ok by reflexivity.
      rewrite Hids. exact (for_each_abort _ _ _ _ _ _ _ _ Hpre Hi). }
    split; [exact Hh|]. unfold Game.frame. apply bind_Raise. exact Hh.
  - intros s s2 inp Hq Hw Hf. unfold Game.loop_body.
    erewrite bind_Ok by reflexivity. rewrite Hq.
    erewrite bind_Ok by reflexivity.
    erewrite bind_Ok by reflexivity.
    erewrite bind_Ok by reflexivity. simpl. rewrite Hw.
    unfold try_except.
    change (upd_screen (fun t => t ++ [Fill])
              (upd_keys (fun _ => pressed inp) s))
      with (frame_start inp s).
    rewrite (bind_Raise _ _ _ _ _ Hf). simpl.
    erewrite bind_Ok by reflexivity. reflexivity.
  - intros s2 l Hcur Hreg Hc.
    destruct (reload_level_run s2 l Hcur Hreg)
      as (s3 & l' & E & C & _ & Hl & Hcls & Hon & Hp & Hm).
    destruct (Hp Hc) as (p & Hpl & Hfresh & Hheap).
    assert (Hlt : (current_level s2 < length (levels s2))%nat)
      by (eapply lookup_lt_Some; exact Hcur).
    eexists _, l', p. rewrite (bind_Ok _ _ _ _ _ E).
    split; [reflexivity|]. simpl.
    split; [exact C|].
    split; [rewrite Hl; apply list_lookup_insert_eq; exact Hlt|].
    repeat (split; [assumption || reflexivity|]). exact Hm.
Qed.

Lemma hazard_touch_restarts_level_witness :
  exists s3 l' p,
    Game.loop_body idle touching = (s3, Ok tt) /\
    current_level s3 = 0%nat /\
    levels s3 !! 0%nat = Some (SInstance l') /\
    Level.player l' = Some p /\
    heap s3 !! p = Some spawned_player.
Proof.
  destruct hazard_touch_restarts_level as (_ & _ & Hloop & Hreload).
  pose (s2 := (Game.frame (frame_start idle touching)).1).
  assert (Hf : Game.frame (frame_start idle touching) = (s2, Raise GameOver))
    by (vm_compute; reflexivity).
  destruct (Hreload s2 level1_obj) as (s3 & l' & p & E & C & Hl & _ & _ & Hp & _ & Hh & _).
  - vm_compute. reflexivity.
  - vm_compute. reflexivity.
  - discriminate.
  - exists s3, l', p. rewrite (Hloop touching s2 idle eq_refl eq_refl Hf).
    split; [exact E|]. split; [exact C|]. split; [exact Hl|].
    split; [exact Hp|exact Hh].
Defined.

(** ** C8: the win-hold *)

Ltac preserves_step :=
  lazymatch goal with
  | |- preserves _ (mret _) => apply preserves_ret
  | |- preserves _ (_ ≫= _) => apply preserves_bind; [|intros ?]
  | |- preserves _ (raise _) => apply preserves_raise
  | |- preserves _ (gets _) => apply preserves_gets
  | |- preserves _ (modify _) => apply preserves_modify; intros ?; reflexivity
  | |- preserves _ (deref _) => apply preserves_deref
  | |- preserves _ (for_each _ _) => apply preserves_for_each; intros ?
  | |- preserves _ (match ?c with _ => _ end) => destruct c
  end.

Lemma preserves_simulation_Entity_show (self : Z) :
  preserves simulation (Entity.show self).
Proof. unfold Entity.show, draw. repeat preserves_step. Qed.

Lemma preserves_simulation_Level_show (l : Level) :
  preserves simulation (Level.show l).
Proof.
  unfold Level.show. repeat preserves_step;
    apply preserves_simulation_Entity_show.
Qed.

Lemma preserves_simulation_show_current :
  preserves simulation Game.show_current.
Proof.
  unfold Game.show_current, Game.get_level, Game.level_show.
  repeat preserves_step; apply preserves_simulation_Level_show.
Qed.

Lemma preserves_simulation_present :
  preserves simulation (Game.show_current;; draw Flip;; draw Tick).
Proof.
  unfold draw. repeat preserves_step. apply preserves_simulation_show_current.
Qed.

Lemma preserves_win_time_clear_obj (self : Z) :
  preserves win_time (clear_obj self).
Proof.
  unfold clear_obj, Player.clear, Wall.clear, MovableEntity.clear,
    Entity.clear, update.
  repeat preserves_step.
Qed.

Lemma preserves_win_time_construct (c : LevelClass) :
  preserves win_time (Level.construct c).
Proof.
  intros s.
  destruct (Level_construct_run c s) as (l & s1 & E & _ & (_ & G & _) & _).
  rewrite E. simpl. injection G as _ _ G. exact G.
Qed.

Lemma preserves_win_time_go_to_level (level : nat) :
  preserves win_time (Game._go_to_level level).
Proof.
  unfold Game._go_to_level, Game.leave_level, Game.enter_level,
    Game._init_level, Game.get_level, Game.set_level, Game.level_clear,
    Game.level_hide, Game.level_call, Level.clear.
  repeat preserves_step;
    first [apply preserves_win_time_clear_obj
          |apply preserves_win_time_construct].
Qed.

Lemma simulation_win_time (s s' : State) :
  simulation s' = simulation s ->
  win_time s' = win_time s /\ current_level s' = current_level s /\
  levels s' = levels s /\ heap s' = heap s /\
  entities_by_id s' = entities_by_id s.
Proof. unfold simulation, registries, game_fields. intros [= ]. auto. Qed.

(** Leaving the win screen for level 0, when the class of level 0 waits
    at index 0. *)
Lemma go_to_first_level_run (s : State) (l : Level) (c : LevelClass) :
  levels s !! current_level s = Some (SInstance l) ->
  registered l s = true ->
  levels s !! 0%nat = Some (SClass c) ->
  exists s' l',
    Game._go_to_level 0 s = (s', Ok tt) /\
    current_level s' = 0%nat /\
    levels s' !! 0%nat = Some (SInstance l') /\
    Level.class_of l' = c /\
    Level.on_screen l' = true /\
    (forall i, i ∈ Level.members l -> i ∉ entities_by_id s').
Proof.
  intros Hcur Hreg H0.
  assert (Hlt0 : (0 < length (levels s))%nat)
    by (eapply lookup_lt_Some; exact H0).
  assert (Hne : current_level s <> 0%nat).
  { intros Heq. rewrite Heq in Hcur. congruence. }
  destruct (leave_level_run s 0 l Hcur Hreg Hlt0)
    as (s1 & target & E1 & T & Ht & Hl1 & Hc1 & Hw1).
  rewrite list_lookup_insert_ne in Ht by exact Hne.
  rewrite H0 in Ht. injection Ht as <-.
  destruct (enter_level_run s1 0 c Hc1)
    as (l' & s2 & E2 & C2 & G2 & P2 & E3).
  { rewrite Hl1, list_lookup_insert_ne by exact Hne. exact H0. }
  eexists _, (Level.set_on_screen true l').
  unfold Game._go_to_level. rewrite (bind_Ok _ _ _ _ _ E1).
  split; [exact E3|]. simpl.
  destruct G2 as (N2 & Gf & F2 & R2 & _). injection Gf as Gc Gl Gw.
  destruct T as (N1 & _ & _ & _ & _ & _ & C1).
  split; [congruence|].
  split; [apply list_lookup_insert_eq;
          rewrite Hl1, length_insert; exact Hlt0|].
  split; [rewrite <- C2; destruct l'; reflexivity|].
  split; [destruct l'; reflexivity|].
  intros i Hi Hin. destruct (C1 i Hi) as (Hni & _).
  destruct (R2 i Hin) as [H|H]; [contradiction|].
  unfold registered in Hreg.
  rewrite andb_true_iff, forallb_forall in Hreg. destruct Hreg as [_ Hall].
  specialize (Hall i (proj1 (list_elem_of_In _ _) Hi)).
  unfold registered_obj in Hall. destruct (heap s !! i); [|discriminate].
  rewrite !andb_true_iff, bool_decide_eq_true in Hall. lia.
Qed.

Lemma preserves_current_level_enter_level (level : nat) :
  preserves current_level (Game.enter_level level).
Proof.
  assert (Hc : forall c, preserves current_level (Level.construct c)).
  { intros c s.
    destruct (Level_construct_run c s) as (l & s1 & E & _ & (_ & G & _) & _).
    rewrite E. simpl. injection G as G _ _. exact G. }
  unfold Game.enter_level, Game._init_level, Game.get_level, Game.set_level,
    Game.level_call.
  repeat preserves_step; apply Hc.
Qed.

(** [_go_to_level] away from a registered level object: [current_level]
    becomes the target and the old objects are unregistered, whether or not
    the element at the target can be called. *)
Lemma go_to_level_index (s : State) (level : nat) (l : Level) :
  levels s !! current_level s = Some (SInstance l) ->
  registered l s = true ->
  (level < length (levels s))%nat ->
  current_level (Game._go_to_level level s).1 = level /\
  (forall i, i ∈ Level.members l ->
             i ∉ entities_by_id (Game._go_to_level level s).1).
Proof.
  intros Hcur Hreg Hlevel.
  destruct (leave_level_run s level l Hcur Hreg Hlevel)
    as (s1 & target & E1 & T & _ & _ & Hc1 & _).
  unfold Game._go_to_level. rewrite (bind_Ok _ _ _ _ _ E1).
  split.
  - rewrite preserves_current_level_enter_level. exact Hc1.
  - intros i Hi Hin.
    destruct (Game.enter_level level s1) as [s2 r] eqn:E2.
    destruct (enter_level_registries level s1 s2 r E2) as [HE _].
    destruct T as (N & _ & _ & _ & _ & _ & C).
    destruct (C i Hi) as (Hni & _).
    destruct (HE i Hin) as [H|H]; [contradiction|].
    unfold registered in Hreg.
    rewrite andb_true_iff, forallb_forall in Hreg. destruct Hreg as [_ Hall].
    specialize (Hall i (proj1 (list_elem_of_In _ _) Hi)).
    unfold registered_obj in Hall. destruct (heap s !! i); [|discriminate].
    rewrite !andb_true_iff, bool_decide_eq_true in Hall. lia.
Qed.



(** What the element a transition vacates holds: leaving level 0 for
    level 1 stores [type(self.levels[1])], the metaclass, at index 0; after
    the handlers of [NextLevel] and [Win] the iteration that ends the
    win-hold sets [current_level] to 0, cannot call what it finds there,
    and ends in [TypeError] with no level object left. *)
Lemma vacated_element_is_metaclass :
  levels (Game._go_to_level 1 started).1 !! 0%nat = Some SABCMeta /\
  levels won_by_play !! 0%nat = Some SABCMeta /\
  (Game.loop_body idle (later won_by_play)).2 = Raise TypeError /\
  current_level (Game.loop_body idle (later won_by_play)).1 = 0%nat /\
  levels (Game.loop_body idle (later won_by_play)).1
  = [SABCMeta; SABCMeta; SType].
Proof. vm_compute. repeat split; reflexivity. Qed.

(** The door of [Level1]: a step of 10 to the right into the gap is
    rejected while the door is shown and carried out once it is hidden,
    the door still being alive and in both dictionaries. *)
Lemma door_gap_scenario :
  heap (MovableEntity.move_obj 0 10 0 at_door).1 !! 0 = heap at_door !! 0 /\
  x <$> heap (MovableEntity.move_obj 0 10 0 unlocked).1 !! 0 = Some 690 /\
  alive <$> heap unlocked !! 8 = Some true /\
  on_screen <$> heap unlocked !! 8 = Some false /\
  8 ∈ walls_by_id unlocked /\ 8 ∈ entities_by_id unlocked.
Proof.
  split; [vm_compute; reflexivity|].
  split; [vm_compute; reflexivity|].
  split; [vm_compute; reflexivity|].
  split; [vm_compute; reflexivity|].
  split; eapply bool_decide_eq_true_1; vm_compute; reflexivity.
Qed.

(** * Further properties of the code *)

(** ** Ticks *)

Lemma preserves_shapes_update (i : Z) (g : Entity -> Entity) :
  (forall e, shape (g e) = shape e) -> preserves shapes (update i g).
Proof.
  intros Hg s. unfold update, shapes. rewrite bind_run. unfold deref.
  destruct (heap s !! i) as [e|] eqn:He; simpl; [|reflexivity].
  rewrite fmap_insert, Hg. apply insert_id. rewrite lookup_fmap, He.
  reflexivity.
Qed.

Lemma mapM_deref_state (ids : list Z) (s : State) :
  (mapM deref ids s).1 = s.
Proof.
  induction ids as [|i ids IH]; simpl; [reflexivity|].
  rewrite bind_run. unfold deref at 1.
  destruct (heap s !! i) as [e|]; simpl; [|reflexivity].
  rewrite bind_run. destruct (mapM deref ids s) as [s1 [es|ex]];
    simpl in *; exact IH.
Qed.

Lemma shape_move (res : Z * Z) (walls : list Entity) (e : Entity) (dx dy : Z) :
  shape (MovableEntity.move res walls e dx dy) = shape e.
Proof.
  unfold MovableEntity.move. destruct (negb (on_screen e)); [reflexivity|].
  destruct (existsb _ walls); reflexivity.
Qed.

(** [move_obj] rewrites at most the moving object, and nothing if it
    raises. *)
Lemma move_obj_state (self : Z) (dx dy : Z) (s : State) :
  (MovableEntity.move_obj self dx dy s).1 = s \/
  exists e walls,
    heap s !! self = Some e /\
    (MovableEntity.move_obj self dx dy s).1
    = upd_heap <[self := MovableEntity.move (DISPLAY_RESOLUTION s) walls
                           e dx dy]> s.
Proof.
  unfold MovableEntity.move_obj.
  destruct (heap s !! self) as [e|] eqn:He.
  - rewrite (bind_Ok _ _ _ _ _ (deref_Some _ _ _ He)).
    erewrite bind_Ok by reflexivity. rewrite bind_run.
    pose proof (mapM_deref_state (walls_by_id s) s) as Hm.
    destruct (mapM deref (walls_by_id s) s) as [s1 [walls|ex]];
      simpl in Hm; subst s1; [|left; reflexivity].
    right. exists e, walls. split; [reflexivity|].
    erewrite bind_Ok by reflexivity. reflexivity.
  - left. rewrite bind_run. unfold deref. rewrite He. reflexivity.
Qed.

Lemma preserves_shapes_move_obj (self : Z) (dx dy : Z) :
  preserves shapes (MovableEntity.move_obj self dx dy).
Proof.
  intros s. destruct (move_obj_state self dx dy s)
    as [->|(e & walls & He & ->)]; [reflexivity|].
  unfold shapes. simpl. rewrite fmap_insert, shape_move.
  apply insert_id. rewrite lookup_fmap, He. reflexivity.
Qed.

Lemma preserves_around_move_obj (self : Z) (dx dy : Z) :
  preserves around_objects (MovableEntity.move_obj self dx dy).
Proof.
  intros s. destruct (move_obj_state self dx dy s)
    as [->|(e & walls & He & ->)]; reflexivity.
Qed.

Lemma preserves_now {B} (f : State -> B) :
  (forall s, f (upd_clock_reads S s) = f s) -> preserves f now.
Proof. intros H s. apply H. Qed.

Ltac preserves_tick :=
  repeat first
    [ apply preserves_shapes_move_obj
    | apply preserves_deref_route
    | apply preserves_now; intros ?; reflexivity
    | apply preserves_around_move_obj
    | apply preserves_shapes_update; intros ?; reflexivity
    | preserves_step ].

Lemma preserves_shapes_frame_obj (self : Z) :
  preserves shapes (frame_obj self).
Proof.
  unfold frame_obj, Player.frame, Player.handle_keyboard, EnemyTouch.frame,
    MovableEntity.frame, Entity.frame, Entity.call.
  preserves_tick.
Qed.

Lemma preserves_around_frame_obj (self : Z) :
  preserves around_objects (frame_obj self).
Proof.
  unfold frame_obj, Player.frame, Player.handle_keyboard, EnemyTouch.frame,
    MovableEntity.frame, Entity.frame, Entity.call, update.
  preserves_tick.
Qed.


(** ** Transitions that cannot be carried out *)

(** X2: when the element of [levels] at [current_level] is not a level
    object, [_go_to_level] fails on its first statement and changes
    nothing: [TypeError] on a level class (the method lacks its [self]),
    [AttributeError] on a metaclass, [IndexError] past the end of the
    list. *)
Theorem go_to_level_without_live_level (s : State) (level : nat) :
  (forall c, levels s !! current_level s = Some (SClass c) ->
             Game._go_to_level level s = (s, Raise TypeError)) /\
  (levels s !! current_level s = Some SABCMeta \/
   levels s !! current_level s = Some SType ->
   Game._go_to_level level s = (s, Raise AttributeError)) /\
  (levels s !! current_level s = None ->
   Game._go_to_level level s = (s, Raise IndexError)).
Proof.
  unfold Game._go_to_level, Game.leave_level.
  split; [|split].
  - intros c H. apply bind_Raise. erewrite bind_Ok by reflexivity.
    rewrite (bind_Ok _ _ _ _ _ (get_level_run _ _ _ H)). reflexivity.
  - intros [H|H]; apply bind_Raise; erewrite bind_Ok by reflexivity;
      rewrite (bind_Ok _ _ _ _ _ (get_level_run _ _ _ H)); reflexivity.
  - intros H. apply bind_Raise. erewrite bind_Ok by reflexivity.
    apply bind_Raise. unfold Game.get_level.
    erewrite bind_Ok by reflexivity. rewrite H. reflexivity.
Qed.

Lemma go_to_level_without_live_level_witness :
  Game._go_to_level 1 booted = (booted, Raise TypeError).
Proof.
  destruct (go_to_level_without_live_level booted 1) as (H & _ & _).
  apply (H CLevel2). vm_compute. reflexivity.
Defined.

(** X3: [_go_to_level] with a target past the end of [levels], from a
    registered level object: the outgoing level is cleared and hidden
    first, then reading the target raises [IndexError]; [current_level]
    still points at the level that was left, whose objects are now dead
    and unregistered. *)
Theorem go_to_level_past_last (s : State) (level : nat) (l : Level) :
  levels s !! current_level s = Some (SInstance l) ->
  registered l s = true ->
  (length (levels s) <= level)%nat ->
  exists s1,
    Game._go_to_level level s = (s1, Raise IndexError) /\
    torn_down (Level.members l) s s1 /\
    current_level s1 = current_level s /\
    levels s1 = <[current_level s := SInstance (Level.hide l)]> (levels s).
Proof.
  intros Hcur Hreg Hlevel.
  assert (Hlt : (current_level s < length (levels s))%nat)
    by (eapply lookup_lt_Some; exact Hcur).
  destruct (Level_clear_run l s Hreg) as (s1 & E1 & T1 & G1).
  injection G1 as Gc Gl Gw.
  eexists. split.
  - unfold Game._go_to_level, Game.leave_level. apply bind_Raise.
    erewrite bind_Ok by reflexivity.
    rewrite (bind_Ok _ _ _ _ _ (get_level_run _ _ _ Hcur)).
    simpl. rewrite (bind_Ok _ _ _ _ _ E1).
    erewrite bind_Ok.
    2:{ apply get_level_run. rewrite Gl. exact Hcur. }
    simpl. erewrite bind_Ok by reflexivity.
    erewrite bind_Ok.
    2:{ apply set_level_run. rewrite Gl. exact Hlt. }
    apply bind_Raise. unfold Game.get_level.
    erewrite bind_Ok by reflexivity. simpl.
    rewrite lookup_ge_None_2; [reflexivity|].
    rewrite length_insert, Gl. exact Hlevel.
  - simpl. split; [exact T1|]. split; [exact Gc|]. rewrite Gl. reflexivity.
Qed.

Lemma go_to_level_past_last_witness :
  exists s1,
    Game._go_to_level 3 started = (s1, Raise IndexError) /\
    torn_down (Level.members level1_obj) started s1 /\
    current_level s1 = current_level started /\
    levels s1 = <[current_level started := SInstance (Level.hide level1_obj)]>
                  (levels started).
Proof.
  apply (go_to_level_past_last started 3 level1_obj).
  - vm_compute. reflexivity.
  - vm_compute. reflexivity.
  - vm_compute. lia.
Defined.

(** ** Clearing twice *)

Lemma dict_pop_absent (k : Z) (d : list Z) : k ∉ d -> dict_pop k d = None.
Proof. intros H. unfold dict_pop. destruct (decide (k ∈ d)); [tauto|auto]. Qed.

(** X4: clearing a registered object succeeds once; a second [clear()] of
    the same object raises [KeyError] on the first [pop] of its class and
    changes nothing. *)
Theorem clear_twice_raises_KeyError (s : State) (i : Z) :
  registered_obj s i = true ->
  exists s1,
    clear_obj i s = (s1, Ok tt) /\
    clear_obj i s1 = (s1, Raise KeyError).
Proof.
  unfold registered_obj. destruct (heap s !! i) as [e|] eqn:He; [|discriminate].
  rewrite !andb_true_iff, !bool_decide_eq_true. intros [[Hn Hi] Hc].
  pose proof (not_elem_of_filter_ne i) as Hnot.
  unfold clear_obj at 1. rewrite (bind_Ok _ _ _ _ _ (deref_Some _ _ _ He)).
  destruct (cls e) eqn:Hcls.
  - eexists. split; [apply Entity_clear_run; eassumption|].
    unfold clear_obj. erewrite bind_Ok.
    2:{ apply deref_Some. simpl. apply lookup_insert_eq. }
    simpl. rewrite Hcls. unfold Entity.clear.
    erewrite bind_Ok by reflexivity. simpl.
    rewrite (dict_pop_absent _ _ (Hnot _)). reflexivity.
  - rewrite bool_decide_eq_true in Hc.
    unfold Wall.clear at 1. erewrite bind_Ok by reflexivity.
    rewrite (dict_pop_elem _ _ Hc). erewrite bind_Ok by reflexivity.
    eexists. split; [apply Entity_clear_run; eassumption|].
    unfold clear_obj. erewrite bind_Ok.
    2:{ apply deref_Some. simpl. apply lookup_insert_eq. }
    simpl. rewrite Hcls. unfold Wall.clear.
    erewrite bind_Ok by reflexivity. simpl.
    rewrite (dict_pop_absent _ _ (Hnot _)). reflexivity.
  - rewrite bool_decide_eq_true in Hc.
    unfold MovableEntity.clear at 1. erewrite bind_Ok by reflexivity.
    rewrite (dict_pop_elem _ _ Hc). erewrite bind_Ok by reflexivity.
    eexists. split; [apply Entity_clear_run; eassumption|].
    unfold clear_obj. erewrite bind_Ok.
    2:{ apply deref_Some. simpl. apply lookup_insert_eq. }
    simpl. rewrite Hcls. unfold MovableEntity.clear.
    erewrite bind_Ok by reflexivity. simpl.
    rewrite (dict_pop_absent _ _ (Hnot _)). reflexivity.
  - rewrite bool_decide_eq_true in Hc.
    unfold MovableEntity.clear at 1. erewrite bind_Ok by reflexivity.
    rewrite (dict_pop_elem _ _ Hc). erewrite bind_Ok by reflexivity.
    eexists. split; [apply Entity_clear_run; eassumption|].
    unfold clear_obj. erewrite bind_Ok.
    2:{ apply deref_Some. simpl. apply lookup_insert_eq. }
    simpl. rewrite Hcls. unfold MovableEntity.clear.
    erewrite bind_Ok by reflexivity. simpl.
    rewrite (dict_pop_absent _ _ (Hnot _)). reflexivity.
  - rewrite bool_decide_eq_true in Hc.
    unfold MovableEntity.clear at 1. erewrite bind_Ok by reflexivity.
    rewrite (dict_pop_elem _ _ Hc). erewrite bind_Ok by reflexivity.
    eexists. split; [apply Entity_clear_run; eassumption|].
    unfold clear_obj. erewrite bind_Ok.
    2:{ apply deref_Some. simpl. apply lookup_insert_eq. }
    simpl. rewrite Hcls. unfold MovableEntity.clear.
    erewrite bind_Ok by reflexivity. simpl.
    rewrite (dict_pop_absent _ _ (Hnot _)). reflexivity.
  - rewrite andb_true_iff, !bool_decide_eq_true in Hc.
    destruct Hc as [Hm Hp].
    unfold Player.clear at 1. erewrite bind_Ok by reflexivity.
    rewrite (dict_pop_elem _ _ Hp). erewrite bind_Ok by reflexivity.
    unfold MovableEntity.clear at 1. erewrite bind_Ok by reflexivity.
    simpl. rewrite (dict_pop_elem _ _ Hm). erewrite bind_Ok by reflexivity.
    eexists. split; [apply Entity_clear_run; eassumption|].
    unfold clear_obj. erewrite bind_Ok.
    2:{ apply deref_Some. simpl. apply lookup_insert_eq. }
    simpl. rewrite Hcls. unfold Player.clear.
    erewrite bind_Ok by reflexivity. simpl.
    rewrite (dict_pop_absent _ _ (Hnot _)). reflexivity.
Qed.

Lemma clear_twice_raises_KeyError_witness :
  exists s1,
    clear_obj 0 started = (s1, Ok tt) /\
    clear_obj 0 s1 = (s1, Raise KeyError).
Proof.
  apply (clear_twice_raises_KeyError started 0). vm_compute. reflexivity.
Defined.

(** ** Route following over several frames *)

Lemma axis_step (sp a t p k : Z) :
  0 <= sp -> 0 <= k ->
  Z.min a t <= p <= Z.max a t ->
  Z.abs (t - p) = Z.max 0 (Z.abs (t - a) - k * sp) ->
  Z.min a t <= p + MovableEntity.axis_move sp (t - p) <= Z.max a t /\
  Z.abs (t - (p + MovableEntity.axis_move sp (t - p)))
  = Z.max 0 (Z.abs (t - a) - (k + 1) * sp).
Proof.
  intros Hsp Hk Hb Hd. unfold MovableEntity.axis_move.
  destruct (Z.geb_spec (t - p) 0); nia.
Qed.

Lemma move_unobstructed (res : Z * Z) (walls : list Entity) (e : Entity)
    (dx dy : Z) :
  on_screen e = true ->
  (forall w, w ∈ walls -> on_screen w = false) ->
  MovableEntity.clamp res e dx dy = (dx, dy) ->
  MovableEntity.move res walls e dx dy
  = set_xy (x e + dx) (y e + dy) (set_rect (Rect.move (rect e) dx dy) e).
Proof.
  intros Hon Hw Hc. unfold MovableEntity.move. rewrite Hon, Hc. simpl.
  assert (Hex : forall self,
    existsb (fun wall => Entity.is_collide wall self) walls = false).
  { intros self. apply not_true_is_false. rewrite existsb_exists.
    intros (w & Hin & Hcol). apply list_elem_of_In in Hin.
    unfold Entity.is_collide in Hcol. rewrite (Hw w Hin) in Hcol.
    discriminate Hcol. }
  rewrite Hex. reflexivity.
Qed.

Lemma clamp_inside (res : Z * Z) (e : Entity) (dx dy : Z) :
  box_in_display res e (x e + dx) (y e + dy) ->
  MovableEntity.clamp res e dx dy = (dx, dy).
Proof.
  unfold box_in_display, MovableEntity.clamp, Entity.left, Entity.top.
  intros (H1 & H2 & H3 & H4). destruct (only_on_screen e); [|reflexivity].
  destruct (Z.ltb_spec (y e - height e / 2 + dy) 0); [lia|].
  destruct (Z.gtb_spec (y e - height e / 2 + height e + dy) res.2); [lia|].
  destruct (Z.ltb_spec (x e - width e / 2 + dx) 0); [lia|].
  destruct (Z.gtb_spec (x e - width e / 2 + width e + dx) res.1); [lia|].
  reflexivity.
Qed.



(** ** The rectangle follows the position *)

Lemma synced_center (e : Entity) :
  synced e -> Rect.center (rect e) = (x e, y e).
Proof.
  unfold synced, Rect.center, Entity.left, Entity.top. intros ->. simpl.
  f_equal; lia.
Qed.

Lemma init_fields_synced (r : option Z) (o : bool) (sp : Z) (e : Entity) :
  synced e -> synced (MovableEntity.init_fields r o sp e).
Proof. unfold synced. intros H. exact H. Qed.

(** X6: for an object as [MovableEntity.__init__] leaves it, after any
    sequence of integer moves, each against any wall registry and whether
    carried out, clamped or rejected, the rectangle is the box of the size
    of the object around [(x, y)] and [rect.center] equals [(x, y)]: the
    arrival test of route following, made on [rect.center], is a test on
    the position fields. *)
Theorem rect_follows_position
    (res : Z * Z) (c : EntityClass) (px py w h : Z) (col : string)
    (ip : option string) (cb : option Callback) (r : option Z) (o : bool)
    (sp : Z) (moves : list (list Entity * (Z * Z))) :
  let e0 := MovableEntity.init_fields r o sp
              (Entity.fresh c px py w h col ip cb) in
  let e := fold_left
             (fun e m => MovableEntity.move res m.1 e m.2.1 m.2.2) moves e0 in
  rect e = {| Rect.left := x e - width e / 2; Rect.top := y e - height e / 2;
              Rect.width := width e; Rect.height := height e |} /\
  Rect.center (rect e) = (x e, y e) /\
  width e = w /\ height e = h.
Proof.
  intros e0 e.
  assert (H : synced e /\ width e = w /\ height e = h).
  { subst e. assert (H0 : synced e0 /\ width e0 = w /\ height e0 = h).
    { split; [apply init_fields_synced, fresh_synced|split; reflexivity]. }
    generalize dependent e0. induction moves as [|m moves IH]; intros e0 H0.
    - exact H0.
    - simpl. apply IH. destruct H0 as (Hs & Hw & Hh).
      split; [apply move_synced; exact Hs|].
      pose proof (shape_move res m.1 e0 m.2.1 m.2.2) as Hsh.
      unfold shape in Hsh. injection Hsh as _ Hw' Hh' _ _ _ _ _ _ _.
      split; congruence. }
  destruct H as (Hs & Hw & Hh).
  split; [exact Hs|]. split; [apply synced_center; exact Hs|].
  split; assumption.
Qed.

(** ** The first iteration *)

Lemma show_current_on_class (s : State) (c : LevelClass) :
  levels s !! current_level s = Some (SClass c) ->
  Game.show_current s = (s, Raise TypeError).
Proof.
  intros H. unfold Game.show_current. erewrite bind_Ok by reflexivity.
  rewrite (bind_Ok _ _ _ _ _ (get_level_run _ _ _ H)). reflexivity.
Qed.

Lemma go_to_level_on_class (s : State) (level : nat) (c : LevelClass) :
  levels s !! current_level s = Some (SClass c) ->
  Game._go_to_level level s = (s, Raise TypeError).
Proof.
  intros H. unfold Game._go_to_level, Game.leave_level.
  apply bind_Raise. erewrite bind_Ok by reflexivity.
  rewrite (bind_Ok _ _ _ _ _ (get_level_run _ _ _ H)). reflexivity.
Qed.

Lemma preserves_game_fields_handle_entities :
  preserves game_fields Game._handle_entities.
Proof.
  assert (H : preserves around_objects Game._handle_entities).
  { unfold Game._handle_entities. preserves_tick.
    apply preserves_around_frame_obj. }
  intros s. specialize (H s).
  exact (f_equal (fun t => t.1.1.1.1.1.2) H).
Qed.

(** An iteration outside the win-hold, on a state whose current element
    is a level class, ends in an exception; in [TypeError] if the ticks
    return. *)
Lemma loop_body_on_class (s : State) (inp : Input) (c : LevelClass) :
  win_time s = None ->
  levels s !! current_level s = Some (SClass c) ->
  (exists ex, (Game.loop_body inp s).2 = Raise ex) /\
  (quit inp = true -> (Game.loop_body inp s).2 = Raise SystemExit) /\
  (quit inp = false ->
   forall s1, Game._handle_entities (frame_start inp s) = (s1, Ok tt) ->
              Game.loop_body inp s = (s1, Raise TypeError)).
Proof.
  intros Hw Hc. unfold Game.loop_body.
  erewrite bind_Ok by reflexivity.
  destruct (quit inp) eqn:Hq.
  { split; [exists SystemExit; reflexivity|].
    split; [reflexivity|discriminate]. }
  erewrite bind_Ok by reflexivity.
  erewrite bind_Ok by reflexivity.
  erewrite bind_Ok by reflexivity. simpl. rewrite Hw.
  change (upd_screen (fun t => t ++ [Fill])
            (upd_keys (fun _ => pressed inp) s))
    with (frame_start inp s).
  pose proof (preserves_game_fields_handle_entities (frame_start inp s))
    as Hg.
  destruct (Game._handle_entities (frame_start inp s)) as [s1 r] eqn:Eh.
  simpl in Hg. injection Hg as Gc Gl Gw.
  assert (Hc1 : levels s1 !! current_level s1 = Some (SClass c)).
  { rewrite Gc, Gl. exact Hc. }
  unfold try_except.
  destruct r as [[]|ex].
  - assert (Hf : Game.frame (frame_start inp s) = (s1, Raise TypeError)).
    { unfold Game.frame. rewrite (bind_Ok _ _ _ _ _ Eh).
      exact (show_current_on_class s1 c Hc1). }
    rewrite (bind_Raise _ _ _ _ _ Hf). simpl.
    split; [exists TypeError; reflexivity|]. split; [discriminate|].
    intros _ s0 [= <-]. reflexivity.
  - assert (Hf : Game.frame (frame_start inp s) = (s1, Raise ex)).
    { unfold Game.frame. exact (bind_Raise _ _ _ _ _ Eh). }
    rewrite (bind_Raise _ _ _ _ _ Hf).
    split; [|split; [discriminate|intros _ s0 [=]]].
    destruct ex; cbn [Game.handler]; cbv beta iota;
      try (eexists; reflexivity);
      exists TypeError; erewrite bind_Ok by reflexivity;
      first [ rewrite (bind_Raise _ _ _ _ _
                         (go_to_level_on_class s1 _ c Hc1))
            | rewrite (go_to_level_on_class s1 _ c Hc1) ];
      reflexivity.
Qed.


(** ** Levels are built registered *)

Lemma registered_obj_extends (s s' : State) (i : Z) :
  extends s s' -> registered_obj s i = true -> registered_obj s' i = true.
Proof.
  intros (N & _ & F & E & W & Mv & P & R & _).
  destruct (decide (i < __next_id s)) as [Hi|Hi].
  - unfold registered_obj. rewrite (F i Hi).
    destruct (heap s !! i) as [e|]; [|auto].
    rewrite !andb_true_iff, !bool_decide_eq_true. intros [[Hn He] Hc].
    split; [split; [lia|auto]|].
    destruct (cls e); auto.
    all: rewrite ?andb_true_iff, ?bool_decide_eq_true in *.
    all: try destruct Hc as [Hc1 Hc2]; auto.
  - unfold registered_obj at 1. destruct (heap s !! i); [|discriminate].
    rewrite !andb_true_iff, !bool_decide_eq_true. intros [[Hn _] _]. lia.
Qed.

Lemma extends_refl (s : State) : extends s s.
Proof.
  unfold extends. split; [lia|]. split; [reflexivity|].
  do 5 (split; [auto|]). split; [intros i Hi; lia|].
  repeat split; auto.
Qed.

Lemma class_in_below (p : EntityClass -> bool) (s s' : State) (k : Z) :
  (forall j, j < __next_id s -> heap s' !! j = heap s !! j) ->
  k < __next_id s -> class_in p s k -> class_in p s' k.
Proof.
  intros F Hk (e & He & Hp). exists e. rewrite (F k Hk). auto.
Qed.

Lemma extends_trans (s1 s2 s3 : State) :
  extends s1 s2 -> extends s2 s3 -> extends s1 s3.
Proof.
  intros H12 H23.
  pose proof H12 as (N1 & G1 & F1 & E1 & W1 & M1 & P1 & R1 &
                     E1' & W1' & M1' & P1').
  pose proof H23 as (N2 & G2 & F2 & E2 & W2 & M2 & P2 & R2 &
                     E2' & W2' & M2' & P2').
  assert (Hgain : forall (p : EntityClass -> bool) (d1 d2 d3 : list Z),
    (forall k, k ∈ d2 ->
       k ∈ d1 \/ __next_id s1 <= k < __next_id s2 /\ class_in p s2 k) ->
    (forall k, k ∈ d3 ->
       k ∈ d2 \/ __next_id s2 <= k < __next_id s3 /\ class_in p s3 k) ->
    forall k, k ∈ d3 ->
       k ∈ d1 \/ __next_id s1 <= k < __next_id s3 /\ class_in p s3 k).
  { intros p d1 d2 d3 A B k Hk.
    destruct (B k Hk) as [Hk2|[Hr Hc]]; [|right; split; [lia|exact Hc]].
    destruct (A k Hk2) as [Hk1|[Hr Hc]]; [left; exact Hk1|].
    right. split; [lia|]. apply (class_in_below p s2 s3 k F2); [lia|exact Hc]. }
  unfold extends. split; [lia|]. split; [congruence|].
  split; [intros p Hp; rewrite F2 by lia; apply F1; exact Hp|].
  split; [auto|]. split; [auto|]. split; [auto|]. split; [auto|].
  split.
  { intros i Hi. destruct (decide (i < __next_id s2)) as [Hlt|Hge].
    - apply (registered_obj_extends s2 s3 i H23). apply R1. lia.
    - apply R2. lia. }
  split.
  { intros k Hk. destruct (E2' k Hk) as [Hk2|Hr]; [|right; lia].
    destruct (E1' k Hk2) as [Hk1|Hr]; [left; exact Hk1|right; lia]. }
  split; [exact (Hgain _ _ _ _ W1' W2')|].
  split; [exact (Hgain _ _ _ _ M1' M2')|exact (Hgain _ _ _ _ P1' P2')].
Qed.

Lemma enrolled_extends (s s' : State) (e : Entity) :
  enrolled s s' e -> extends s s'.
Proof.
  intros (N & G & H & E & W & Mv & P). unfold extends.
  assert (Hn : heap s' !! __next_id s = Some e)
    by (rewrite H; apply lookup_insert_eq).
  split; [lia|]. split; [exact G|].
  split; [intros p Hp; rewrite H; apply lookup_insert_ne; lia|].
  split; [intros k Hk; rewrite E, elem_of_dict_set; auto|].
  split; [intros k Hk; rewrite W; destruct (in_walls (cls e));
          [rewrite elem_of_dict_set|]; auto|].
  split; [intros k Hk; rewrite Mv; destruct (in_movables (cls e));
          [rewrite elem_of_dict_set|]; auto|].
  split; [intros k Hk; rewrite P; destruct (in_players (cls e));
          [rewrite elem_of_dict_set|]; auto|].
  split.
  { intros i Hi. assert (i = __next_id s) as -> by lia.
    unfold registered_obj. rewrite Hn, E, W, Mv, P.
    rewrite !andb_true_iff, !bool_decide_eq_true.
    split; [split; [lia|rewrite elem_of_dict_set; auto]|].
    destruct (cls e); simpl; rewrite ?andb_true_iff, ?bool_decide_eq_true,
      ?elem_of_dict_set; auto. }
  split.
  { intros k. rewrite E, elem_of_dict_set. intros [Hk| ->]; [auto|right; lia]. }
  assert (Hgain : forall (p : EntityClass -> bool) (d d' : list Z),
    d' = (if p (cls e) then dict_set (__next_id s) d else d) ->
    forall k, k ∈ d' ->
      k ∈ d \/ __next_id s <= k < __next_id s' /\ class_in p s' k).
  { intros p d d' -> k. destruct (p (cls e)) eqn:Hp; [|auto].
    rewrite elem_of_dict_set. intros [Hk| ->]; [auto|right].
    split; [lia|]. exists e. auto. }
  split; [exact (Hgain _ _ _ W)|].
  split; [exact (Hgain _ _ _ Mv)|exact (Hgain _ _ _ P)].
Qed.

(** A change of the object just built that keeps its class. *)
Lemma enrolled_update (s s1 : State) (e : Entity) (f : Entity -> Entity) :
  enrolled s s1 e -> cls (f e) = cls e ->
  update (__next_id s) f s1 = (upd_heap <[__next_id s := f e]> s1, Ok tt) /\
  enrolled s (upd_heap <[__next_id s := f e]> s1) (f e).
Proof.
  intros (N & G & H & E & W & Mv & P) Hc. split.
  - apply update_run. rewrite H. apply lookup_insert_eq.
  - unfold enrolled. rewrite Hc. simpl.
    split; [exact N|]. split; [exact G|].
    split; [rewrite H; apply insert_insert_eq|]. auto.
Qed.

Lemma enrolls_Entity_init px py w h col ip cb :
  enrolls (Entity.__init__ CEntity px py w h col ip cb).
Proof.
  intros s. eexists _, _. split; [reflexivity|].
  unfold enrolled. simpl. auto 10.
Qed.

Lemma enrolls_Wall_init px py w h col : enrolls (Wall.__init__ px py w h col).
Proof.
  intros s. eexists _, _. split; [reflexivity|].
  unfold enrolled. simpl. auto 10.
Qed.

Lemma MovableEntity_init_enrolled c px py w h col ip cb r o sp (s : State) :
  in_movables c = true -> in_walls c = false ->
  exists s',
    MovableEntity.__init__ c px py w h col ip cb r o sp s
    = (s', Ok (__next_id s)) /\
    __next_id s' = __next_id s + 1 /\
    game_fields s' = game_fields s /\
    heap s' = <[__next_id s := MovableEntity.init_fields r o sp
                  (Entity.fresh c px py w h col ip cb)]> (heap s) /\
    entities_by_id s' = dict_set (__next_id s) (entities_by_id s) /\
    walls_by_id s' = walls_by_id s /\
    movable_entities_by_id s'
    = dict_set (__next_id s) (movable_entities_by_id s) /\
    players_by_id s' = players_by_id s.
Proof.
  intros Hm Hw. unfold MovableEntity.__init__.
  erewrite bind_Ok by reflexivity.
  erewrite bind_Ok by reflexivity.
  erewrite bind_Ok.
  2:{ apply update_run. simpl. apply lookup_insert_eq. }
  eexists. split; [reflexivity|]. simpl.
  rewrite insert_insert_eq. auto 10.
Qed.

Lemma enrolls_MovableEntity_init c px py w h col ip cb r o sp :
  in_movables c = true -> in_walls c = false -> in_players c = false ->
  enrolls (MovableEntity.__init__ c px py w h col ip cb r o sp).
Proof.
  intros Hm Hw Hp s.
  destruct (MovableEntity_init_enrolled c px py w h col ip cb r o sp s Hm Hw)
    as (s' & E & N & G & H & En & W & Mv & P).
  exists s', (MovableEntity.init_fields r o sp
                (Entity.fresh c px py w h col ip cb)).
  split; [exact E|]. unfold enrolled.
  destruct c; try discriminate; simpl; auto 10.
Qed.

Lemma enrolls_Player_init px py w h col ip cb :
  enrolls (Player.__init__ px py w h col ip cb).
Proof.
  intros s. unfold Player.__init__.
  destruct (MovableEntity_init_enrolled CPlayer px py w h col ip cb
              None false 10 s eq_refl eq_refl)
    as (s' & E & N & G & H & En & W & Mv & P).
  rewrite (bind_Ok _ _ _ _ _ E).
  eexists _, (MovableEntity.init_fields None false 10
                (Entity.fresh CPlayer px py w h col ip cb)).
  split; [reflexivity|]. unfold enrolled. simpl.
  rewrite P. auto 10.
Qed.

Lemma enrolls_create_door_opened : enrolls create_door_opened.
Proof.
  intros s. unfold create_door_opened.
  destruct (enrolls_Wall_init 627 202 145 5 "brown" s) as (s1 & e & E & C).
  rewrite (bind_Ok _ _ _ _ _ E).
  destruct (enrolled_update s s1 e Entity.hide C eq_refl) as [U C'].
  rewrite (bind_Ok _ _ _ _ _ U).
  eexists _, _. split; [reflexivity|exact C'].
Qed.

Lemma enrolls_create_enemy : enrolls create_enemy.
Proof.
  intros s. unfold create_enemy, route_set_next.
  erewrite bind_Ok by reflexivity.
  erewrite bind_Ok by reflexivity.
  erewrite bind_Ok.
  2:{ erewrite bind_Ok.
      2:{ apply deref_route_Some. simpl.
          rewrite lookup_insert_ne by lia. apply lookup_insert_eq. }
      reflexivity. }
  erewrite bind_Ok.
  2:{ erewrite bind_Ok.
      2:{ apply deref_route_Some. simpl.
          rewrite lookup_insert_ne by lia. apply lookup_insert_eq. }
      reflexivity. }
  lazymatch goal with
  | |- context [MovableEntity.__init__ ?c ?a ?b ?w ?h ?col ?ip ?cb ?r ?o ?sp ?st] =>
      destruct (enrolls_MovableEntity_init c a b w h col ip cb r o sp
                  eq_refl eq_refl eq_refl st) as (s1 & e & E & C)
  end.
  eexists _, _. split; [exact E|]. exact C.
Qed.

Lemma enrolls_create_enemy2 : enrolls Level2.create_enemy2.
Proof.
  intros s. unfold Level2.create_enemy2.
  erewrite bind_Ok by reflexivity.
  destruct (enrolls_MovableEntity_init CEnemyTouch 600 530 200 200 "black"
              (Some "../assets/spikes.png")
              (Some (SpikesFrame (__next_id s))) None false 10
              eq_refl eq_refl eq_refl s)
    as (s1 & e & E & C).
  rewrite (bind_Ok _ _ _ _ _ E).
  erewrite bind_Ok by reflexivity.
  set (t := clock s1 (clock_reads s1)).
  assert (C1 : enrolled s (upd_clock_reads S s1) e).
  { destruct C as (N & G & H & R). unfold enrolled. simpl. auto 10. }
  destruct (enrolled_update s _ e (set_last_active (Some t)) C1 eq_refl)
    as [U1 C2].
  rewrite (bind_Ok _ _ _ _ _ U1).
  destruct (enrolled_update s _ _ Entity.hide C2 eq_refl) as [U2 C3].
  rewrite (bind_Ok _ _ _ _ _ U2).
  eexists _, _. split; [reflexivity|exact C3].
Qed.

(** One constructor call at the head of the computation. *)
Create HintDb enrolls.

#[local] Hint Resolve enrolls_Entity_init enrolls_Wall_init
  enrolls_Player_init enrolls_create_door_opened enrolls_create_enemy
  enrolls_create_enemy2 : enrolls.

Ltac enroll :=
  lazymatch goal with
  | |- context [(?m ≫= _) ?st] =>
      let H := fresh "H" in
      let s1 := fresh "s" in
      let e := fresh "e" in
      let E := fresh "E" in
      let C := fresh "C" in
      let X := fresh "X" in
      let N := fresh "N" in
      assert (H : enrolls m) by auto with enrolls;
      destruct (H st) as (s1 & e & E & C); clear H;
      rewrite (bind_Ok _ _ _ _ _ E);
      pose proof (enrolled_extends _ _ _ C) as X;
      destruct C as (N & _)
  end.

Ltac extends_chain :=
  repeat (eapply extends_trans; [eassumption|]); apply extends_refl.

Ltac distinct_ids :=
  repeat (apply NoDup_cons_2;
          [let Hin := fresh in
           intros Hin; rewrite ?elem_of_cons, ?elem_of_nil in Hin; lia|]);
  apply NoDup_nil_2.

Ltac ids_range :=
  let i := fresh "i" in
  intros i; rewrite ?elem_of_cons, ?elem_of_nil; lia.

Lemma furnishes_create_walls : furnishes create_walls.
Proof.
  intros s. unfold create_walls.
  do 7 enroll.
  eexists _, _. split; [reflexivity|].
  split; [extends_chain|]. split; [distinct_ids|ids_range].
Qed.

Lemma furnishes_Level1_create_entities (p : Z) :
  furnishes (Level1.create_entities p).
Proof.
  intros s.
  unfold Level1.create_entities, create_door, create_key, Level1.create_graal.
  do 5 enroll.
  eexists _, _. split; [reflexivity|].
  split; [extends_chain|]. split; [distinct_ids|ids_range].
Qed.

Lemma furnishes_Level2_create_entities (p : Z) :
  furnishes (Level2.create_entities p).
Proof.
  intros s.
  unfold Level2.create_entities, create_door, create_key, Level2.create_graal.
  do 6 enroll.
  eexists _, _. split; [reflexivity|].
  split; [extends_chain|]. split; [distinct_ids|ids_range].
Qed.

(** Calling a level class returns a level whose objects are exactly the
    objects built by the call, each held once and registered. *)
Lemma Level_construct_extends (c : LevelClass) (s : State) :
  exists l s',
    Level.construct c s = (s', Ok l) /\
    extends s s' /\
    NoDup (Level.members l) /\
    (forall i, i ∈ Level.members l <-> __next_id s <= i < __next_id s').
Proof.
  assert (Hplayable : forall (ents : Z -> M (list Z))
                        (mk : Z -> list Z -> list Z -> bool -> Level),
    (forall p, furnishes (ents p)) ->
    (forall p ws es o, Level.members (mk p ws es o) = p :: ws ++ es) ->
    exists l s',
      (player ← create_player; walls ← create_walls;
       entities ← ents player;
       mret (mk player walls entities true)) s = (s', Ok l) /\
      extends s s' /\
      NoDup (Level.members l) /\
      (forall i, i ∈ Level.members l <-> __next_id s <= i < __next_id s')).
  { intros ents mk Hents Hmem. unfold create_player.
    enroll.
    destruct (furnishes_create_walls s0) as (ws & s1 & E1 & X1 & D1 & R1).
    rewrite (bind_Ok _ _ _ _ _ E1).
    destruct (Hents (__next_id s) s1) as (es & s2 & E2 & X2 & D2 & R2).
    rewrite (bind_Ok _ _ _ _ _ E2).
    pose proof X1 as (N1 & _). pose proof X2 as (N2 & _).
    eexists _, _. split; [reflexivity|]. rewrite Hmem.
    split; [extends_chain|]. split.
    - apply NoDup_cons_2.
      + rewrite elem_of_app, R1, R2. lia.
      + apply NoDup_app. split; [exact D1|]. split; [|exact D2].
        intros i. rewrite R1, R2. lia.
    - intros i. rewrite elem_of_cons, elem_of_app, R1, R2. lia. }
  destruct c; simpl.
  - apply (Hplayable Level1.create_entities Level1Obj);
      [apply furnishes_Level1_create_entities|reflexivity].
  - apply (Hplayable Level2.create_entities Level2Obj);
      [apply furnishes_Level2_create_entities|reflexivity].
  - unfold WinMap.__init__. erewrite bind_Ok by reflexivity.
    enroll.
    eexists _, _. split; [reflexivity|]. simpl.
    split; [extends_chain|]. split; [distinct_ids|ids_range].
Qed.

Lemma registered_of_extends (l : Level) (s s' : State) :
  extends s s' -> NoDup (Level.members l) ->
  (forall i, i ∈ Level.members l -> __next_id s <= i < __next_id s') ->
  registered l s' = true.
Proof.
  intros (_ & _ & _ & _ & _ & _ & _ & R & _) Hnd Hr. unfold registered.
  rewrite andb_true_iff, bool_decide_eq_true. split; [exact Hnd|].
  apply forallb_forall. intros i Hi. apply R, Hr.
  apply list_elem_of_In. exact Hi.
Qed.

(** ** The invariant of the loop *)

Lemma live_level_view (s s' : State) :
  level_view s' = level_view s -> live_level s -> live_level s'.
Proof.
  intros H (l & Hcur & Hreg & Huniq).
  injection H as He Hw Hm Hp Hn Hh Hc Hl.
  exists l. rewrite Hc, Hl. split; [exact Hcur|]. split; [|exact Huniq].
  unfold registered in *. rewrite andb_true_iff in *.
  destruct Hreg as [Hnd Hall]. split; [exact Hnd|].
  rewrite forallb_forall in *. intros i Hi. specialize (Hall i Hi).
  unfold registered_obj in *.
  assert (Hi' : cls <$> heap s' !! i = cls <$> heap s !! i)
    by (rewrite <- !lookup_fmap, Hh; reflexivity).
  rewrite He, Hw, Hm, Hp, Hn.
  destruct (heap s !! i) as [e|]; [|discriminate].
  destruct (heap s' !! i) as [e'|]; [|discriminate].
  injection Hi' as ->. exact Hall.
Qed.

Lemma level_view_shapes (s s' : State) :
  shapes s' = shapes s -> around_objects s' = around_objects s ->
  level_view s' = level_view s.
Proof.
  intros Hs Ha. unfold level_view.
  injection Ha as He Hw Hm Hp Hn Hc Hl Hwt _ _ _ _ _.
  unfold registries. rewrite He, Hw, Hm, Hp, Hn, Hc, Hl.
  f_equal. f_equal. f_equal. apply map_eq. intros i. rewrite !lookup_fmap.
  assert (Hi : shape <$> heap s' !! i = shape <$> heap s !! i)
    by (unfold shapes in Hs; rewrite <- !lookup_fmap, Hs; reflexivity).
  destruct (heap s !! i) as [e|], (heap s' !! i) as [e'|];
    try discriminate; [|reflexivity].
  injection Hi as Hi. unfold shape in Hi. simpl. congruence.
Qed.

Lemma preserves_level_view_handle_entities :
  preserves level_view Game._handle_entities.
Proof.
  assert (Ha : preserves around_objects Game._handle_entities).
  { unfold Game._handle_entities. preserves_tick.
    apply preserves_around_frame_obj. }
  assert (Hs : preserves shapes Game._handle_entities).
  { unfold Game._handle_entities. preserves_tick.
    apply preserves_shapes_frame_obj. }
  intros s. apply level_view_shapes; [apply Hs|apply Ha].
Qed.

Lemma level_view_simulation (s s' : State) :
  simulation s' = simulation s -> level_view s' = level_view s.
Proof.
  intros H. unfold level_view.
  pose proof (f_equal (fun t => t.1.1.1.1) H) as Hr.
  pose proof (f_equal (fun t => t.1.1.1.2) H) as Hh.
  pose proof (f_equal (fun t => t.2) H) as Hg.
  simpl in Hr, Hh, Hg. injection Hg as Hc Hl _.
  rewrite Hr, Hh, Hc, Hl. reflexivity.
Qed.

Lemma registered_upd_levels (l : Level) (b : bool)
    (f : list Slot -> list Slot) (s : State) :
  registered (Level.set_on_screen b l) (upd_levels f s) = registered l s.
Proof. destruct l; reflexivity. Qed.

Lemma type_of_not_instance (sl : Slot) (l : Level) :
  Game.type_of sl <> SInstance l.
Proof. destruct sl; discriminate. Qed.

(** [enter_level] raises unless the element to be called is a class. *)
Lemma enter_level_not_class (s : State) (level : nat) (sl : Slot) :
  current_level s = level ->
  levels s !! level = Some sl ->
  (forall c, sl <> SClass c) ->
  exists ex, Game.enter_level level s = (s, Raise ex).
Proof.
  intros Hcur Hsl Hc. unfold Game.enter_level, Game._init_level.
  erewrite bind_Ok by reflexivity. rewrite Hcur.
  destruct sl as [l|c| |]; [|destruct (Hc c); reflexivity| |].
  all: exists TypeError; apply bind_Raise;
    rewrite (bind_Ok _ _ _ _ _ (get_level_run _ _ _ Hsl));
    reflexivity.
Qed.

(** A transition to an index past the list raises. *)
Lemma go_to_level_outside (s : State) (level : nat) (l : Level) :
  levels s !! current_level s = Some (SInstance l) ->
  registered l s = true ->
  (length (levels s) <= level)%nat ->
  (Game._go_to_level level s).2 = Raise IndexError.
Proof.
  intros Hcur Hreg Hlevel.
  assert (Hlt : (current_level s < length (levels s))%nat)
    by (eapply lookup_lt_Some; exact Hcur).
  destruct (Level_clear_run l s Hreg) as (s1 & E1 & T1 & G1).
  injection G1 as Gc Gl Gw.
  unfold Game._go_to_level, Game.leave_level.
  erewrite bind_Raise; [reflexivity|].
  erewrite bind_Ok by reflexivity.
  rewrite (bind_Ok _ _ _ _ _ (get_level_run _ _ _ Hcur)).
  simpl. rewrite (bind_Ok _ _ _ _ _ E1).
  erewrite bind_Ok.
  2:{ apply get_level_run. rewrite Gl. exact Hcur. }
  simpl. erewrite bind_Ok by reflexivity.
  erewrite bind_Ok.
  2:{ apply set_level_run. rewrite Gl. exact Hlt. }
  apply bind_Raise. unfold Game.get_level.
  erewrite bind_Ok by reflexivity. simpl.
  rewrite lookup_ge_None_2; [reflexivity|].
  rewrite length_insert, Gl. exact Hlevel.
Qed.

(** A transition that returns re-establishes the invariant, at the index
    it was asked for. *)
Lemma go_to_level_live (s s' : State) (level : nat) :
  live_level s ->
  Game._go_to_level level s = (s', Ok tt) ->
  live_level s' /\ current_level s' = level /\ win_time s' = win_time s /\
  (level = current_level s \/ exists c, levels s !! level = Some (SClass c)).
Proof.
  intros (l & Hcur & Hreg & Huniq) Hgo.
  destruct (decide (level < length (levels s))%nat) as [Hlt|Hge].
  2:{ pose proof (go_to_level_outside s level l Hcur Hreg) as H.
      rewrite Hgo in H. discriminate H. lia. }
  assert (Hclt : (current_level s < length (levels s))%nat)
    by (eapply lookup_lt_Some; exact Hcur).
  destruct (leave_level_run s level l Hcur Hreg Hlt)
    as (s1 & target & E1 & T & Ht & Hl1 & Hc1 & Hw1).
  unfold Game._go_to_level in Hgo. rewrite (bind_Ok _ _ _ _ _ E1) in Hgo.
  assert (Hlt1 : (level < length (levels s1))%nat)
    by (rewrite Hl1, length_insert; exact Hlt).
  destruct (lookup_lt_is_Some_2 (levels s1) level Hlt1) as [sl Hsl].
  assert (Hother : forall i l', i <> level ->
            levels s1 !! i <> Some (SInstance l')).
  { intros i l' Hi. rewrite Hl1.
    destruct (decide (i = current_level s)) as [->|Hne].
    - rewrite list_lookup_insert_eq by exact Hclt.
      intros [= H]. exact (type_of_not_instance _ _ H).
    - rewrite list_lookup_insert_ne by congruence.
      intros H. apply Hne. exact (Huniq _ _ H). }
  assert (Hcase : (exists c, sl = SClass c) \/ forall c, sl <> SClass c)
    by (destruct sl; [right|left; eauto|right|right]; discriminate).
  destruct Hcase as [[c ->]|Hnc].
  2:{ destruct (enter_level_not_class s1 level sl Hc1 Hsl Hnc) as [ex Hex].
      rewrite Hex in Hgo. discriminate. }
  destruct (enter_level_run s1 level c Hc1 Hsl)
    as (l' & s2 & E2 & _ & G2 & _ & E3).
  destruct (Level_construct_extends c s1)
    as (l2 & s3 & E2' & X & D & R).
  rewrite E2 in E2'. injection E2' as <- <-.
  rewrite E3 in Hgo. injection Hgo as <-.
  destruct G2 as (_ & Gf & _). injection Gf as Gc Gl Gw.
  split; [|split; [simpl; congruence|split; [simpl; congruence|]]].
  2:{ destruct (decide (level = current_level s)) as [Hl|Hl]; [left; exact Hl|].
      right. exists c. rewrite Hl1, list_lookup_insert_ne in Hsl by congruence.
      exact Hsl. }
  exists (Level.set_on_screen true l'). simpl. rewrite Gc, Hc1.
  split; [apply list_lookup_insert_eq; exact Hlt1|].
  split.
  - rewrite registered_upd_levels.
    apply (registered_of_extends l' s1 s2 X D). intros i. apply R.
  - intros i l0 Hi. destruct (decide (i = level)) as [->|Hne]; [reflexivity|].
    rewrite list_lookup_insert_ne in Hi by congruence.
    destruct (Hother i l0 Hne Hi).
Qed.

(** The transitions that return. *)
Lemma go_to_level_returns (s : State) (level : nat) :
  live_level s ->
  level = current_level s \/ (exists c, levels s !! level = Some (SClass c)) ->
  (Game._go_to_level level s).2 = Ok tt.
Proof.
  intros (l & Hcur & Hreg & Huniq) Hlevel.
  assert (Hclt : (current_level s < length (levels s))%nat)
    by (eapply lookup_lt_Some; exact Hcur).
  assert (Hlt : (level < length (levels s))%nat).
  { destruct Hlevel as [->|[c Hc]]; [exact Hclt|].
    eapply lookup_lt_Some; exact Hc. }
  destruct (leave_level_run s level l Hcur Hreg Hlt)
    as (s1 & target & E1 & T & Ht & Hl1 & Hc1 & Hw1).
  unfold Game._go_to_level. rewrite (bind_Ok _ _ _ _ _ E1).
  assert (Hsl : exists c, levels s1 !! level = Some (SClass c)).
  { rewrite Hl1. destruct (decide (level = current_level s)) as [->|Hne].
    - rewrite list_lookup_insert_eq in Ht by exact Hclt. injection Ht as <-.
      eexists. apply list_lookup_insert_eq. exact Hclt.
    - destruct Hlevel as [Hl|[c Hc]]; [contradiction|].
      exists c. rewrite list_lookup_insert_ne by congruence. exact Hc. }
  destruct Hsl as [c Hsl].
  destruct (enter_level_run s1 level c Hc1 Hsl) as (l' & s2 & _ & _ & _ & _ & E3).
  rewrite E3. reflexivity.
Qed.

Lemma bind_Ok_inv {A B} (m : M A) (f : A -> M B) (s s' : State) (b : B) :
  (m ≫= f) s = (s', Ok b) ->
  exists s1 a, m s = (s1, Ok a) /\ f a s1 = (s', Ok b).
Proof.
  rewrite bind_run. destruct (m s) as [s1 [a|e]]; [eauto|discriminate].
Qed.

Lemma preserves_level_view_show_current :
  preserves level_view Game.show_current.
Proof.
  intros s. apply level_view_simulation, preserves_simulation_show_current.
Qed.

Lemma preserves_level_view_frame :
  preserves level_view (Game.frame;; draw Flip;; draw Tick).
Proof.
  unfold Game.frame, draw. repeat preserves_step.
  - apply preserves_level_view_handle_entities.
  - apply preserves_level_view_show_current.
Qed.

(** A property of the state that reads [level_view] only and that the
    transitions keep is kept by the loop. *)
Section Keeps.
Variable P : State -> Prop.
Hypothesis P_view : forall s s', level_view s' = level_view s -> P s -> P s'.
Hypothesis P_go_to_level : forall level, keeps P (Game._go_to_level level).

Lemma keeps_preserves {A} (m : M A) : preserves level_view m -> keeps P m.
Proof.
  intros H s s' a Hl E. specialize (H s). rewrite E in H.
  exact (P_view s s' H Hl).
Qed.

Lemma keeps_bind {A B} (m : M A) (f : A -> M B) :
  keeps P m -> (forall a, keeps P (f a)) -> keeps P (m ≫= f).
Proof.
  intros Hm Hf s s' b Hl E.
  destruct (bind_Ok_inv _ _ _ _ _ E) as (s1 & a & E1 & E2).
  exact (Hf a s1 s' b (Hm s s1 a Hl E1) E2).
Qed.

Ltac keeps_step :=
  lazymatch goal with
  | |- keeps P (Game._go_to_level _) => apply P_go_to_level
  | |- keeps P (_ ≫= _) => apply keeps_bind; [|intros ?]
  | |- keeps P (if ?c then _ else _) => destruct c
  | |- keeps P Game.show_current =>
      apply keeps_preserves, preserves_level_view_show_current
  | |- keeps P _ =>
      apply keeps_preserves; unfold draw;
      first [ apply preserves_now; intros ?; reflexivity
            | preserves_step ]
  end.

Lemma keeps_handler (e : exn) (k : M unit) :
  Game.handler e = Some k -> keeps P k.
Proof.
  destruct e; simpl; intros [= <-]; repeat keeps_step.
Qed.

Lemma keeps_try_except {A} (m : M A) (h : exn -> option (M A)) :
  preserves level_view m ->
  (forall e k, h e = Some k -> keeps P k) ->
  keeps P (try_except m h).
Proof.
  intros Hm Hh s s' a Hl. unfold try_except. specialize (Hm s).
  destruct (m s) as [s1 [a1|e]]; simpl in Hm.
  - intros [= <- <-]. exact (P_view s s1 Hm Hl).
  - destruct (h e) as [k|] eqn:He; [|discriminate].
    apply (Hh e k He). exact (P_view s s1 Hm Hl).
Qed.

Lemma keeps_loop_body (inp : Input) : keeps P (Game.loop_body inp).
Proof.
  unfold Game.loop_body.
  keeps_step; [keeps_step|].
  keeps_step; [keeps_step; keeps_step|].
  keeps_step; [keeps_step|].
  keeps_step; [keeps_step|].
  lazymatch goal with |- keeps P (match ?w with _ => _ end) =>
    destruct w end.
  - repeat keeps_step.
  - apply keeps_try_except;
      [apply preserves_level_view_frame|apply keeps_handler].
Qed.

Lemma keeps_start (inputs : list Input) : keeps P (Game.start inputs).
Proof.
  unfold Game.start. keeps_step; [keeps_step|].
  induction inputs as [|inp inputs IH]; simpl.
  - keeps_step.
  - keeps_step; [apply keeps_loop_body|exact IH].
Qed.

End Keeps.

Lemma keeps_live_go_to_level (level : nat) :
  keeps live_level (Game._go_to_level level).
Proof.
  intros s s' [] Hl E. exact (proj1 (go_to_level_live s s' level Hl E)).
Qed.

(** X8: calling a level class, in any state, returns a level of that
    class whose objects (player, walls, others) are exactly the objects the
    call has built, each held once and each in every dictionary of its
    class; the objects registered before stay registered; so [clear()] on
    the new level returns. *)
Theorem constructed_level_is_registered (c : LevelClass) (s : State) :
  exists l s',
    Level.construct c s = (s', Ok l) /\
    Level.class_of l = c /\
    registered l s' = true /\
    (forall i, i ∈ Level.members l <-> __next_id s <= i < __next_id s') /\
    (forall j, registered_obj s j = true -> registered_obj s' j = true) /\
    (Level.clear l s').2 = Ok tt.
Proof.
  destruct (Level_construct_extends c s) as (l & s' & E & X & D & R).
  destruct (Level_construct_run c s) as (l0 & s0 & E0 & C & _).
  rewrite E in E0. injection E0 as <- <-.
  assert (Hreg : registered l s' = true).
  { apply (registered_of_extends l s s' X D). intros i. apply R. }
  exists l, s'. split; [exact E|]. split; [exact C|].
  split; [exact Hreg|]. split; [exact R|]. split.
  - intros j. apply registered_obj_extends. exact X.
  - destruct (Level_clear_run l s' Hreg) as (s2 & E2 & _). rewrite E2.
    reflexivity.
Qed.

(** X9: [_go_to_level] from a state with the invariant returns exactly
    when the target index is the current one or holds a level class; when
    it returns, the invariant holds again, [current_level] is the target
    and [win_time] is as before. *)
Theorem transition_keeps_live_level (s : State) (level : nat) :
  live_level s ->
  ((Game._go_to_level level s).2 = Ok tt <->
   level = current_level s \/
   exists c, levels s !! level = Some (SClass c)) /\
  ((Game._go_to_level level s).2 = Ok tt ->
   live_level (Game._go_to_level level s).1 /\
   current_level (Game._go_to_level level s).1 = level /\
   win_time (Game._go_to_level level s).1 = win_time s).
Proof.
  intros Hl.
  assert (H : (Game._go_to_level level s).2 = Ok tt ->
              Game._go_to_level level s
              = ((Game._go_to_level level s).1, Ok tt)).
  { destruct (Game._go_to_level level s) as [s' r]. simpl. intros ->.
    reflexivity. }
  split; [split|].
  - intros Hr. apply (go_to_level_live s _ level Hl (H Hr)).
  - apply go_to_level_returns. exact Hl.
  - intros Hr.
    destruct (go_to_level_live s _ level Hl (H Hr)) as (H1 & H2 & H3 & _).
    auto.
Qed.

Lemma transition_keeps_live_level_witness :
  (Game._go_to_level 1 started).2 = Ok tt /\
  live_level (Game._go_to_level 1 started).1 /\
  current_level (Game._go_to_level 1 started).1 = 1%nat.
Proof.
  assert (Hl : live_level started).
  { exists level1_obj. split; [vm_compute; reflexivity|].
    split; [vm_compute; reflexivity|].
    intros [|[|[|i]]] l'; vm_compute; intros [=]; reflexivity. }
  destruct (transition_keeps_live_level started 1 Hl) as [Hiff Hinv].
  assert (Hr : (Game._go_to_level 1 started).2 = Ok tt).
  { apply Hiff. right. exists CLevel2. vm_compute. reflexivity. }
  destruct (Hinv Hr) as (H1 & H2 & _). auto.
Defined.



(** ** The dictionaries hold the current level only *)

Lemma class_in_cls (p : EntityClass -> bool) (s s' : State) (k : Z) :
  cls <$> heap s' = cls <$> heap s -> class_in p s k -> class_in p s' k.
Proof.
  intros H (e & He & Hp).
  assert (Hk : cls <$> heap s' !! k = cls <$> heap s !! k)
    by (rewrite <- !lookup_fmap, H; reflexivity).
  rewrite He in Hk. destruct (heap s' !! k) as [e'|] eqn:He'; [|discriminate].
  injection Hk as Hk. exists e'. rewrite Hk. split; [exact He'|exact Hp].
Qed.

(** What [clear()] of a registered object does to the dictionaries. *)
Lemma clear_obj_exact (s : State) (i : Z) (e : Entity) :
  registered_obj s i = true -> heap s !! i = Some e ->
  exists s',
    clear_obj i s = (s', Ok tt) /\
    heap s' = <[i := set_alive false e]> (heap s) /\
    entities_by_id s' = filter (fun j => j ≠ i) (entities_by_id s) /\
    walls_by_id s' = pop_if (in_walls (cls e)) i (walls_by_id s) /\
    movable_entities_by_id s'
    = pop_if (in_movables (cls e)) i (movable_entities_by_id s) /\
    players_by_id s' = pop_if (in_players (cls e)) i (players_by_id s).
Proof.
  unfold registered_obj. intros Hr He. rewrite He in Hr.
  rewrite !andb_true_iff, !bool_decide_eq_true in Hr.
  destruct Hr as [[Hn Hi] Hc].
  unfold clear_obj. rewrite (bind_Ok _ _ _ _ _ (deref_Some _ _ _ He)).
  destruct (cls e) eqn:Hcls.
  - eexists. split; [apply Entity_clear_run; eassumption|].
    simpl. auto 10.
  - rewrite bool_decide_eq_true in Hc.
    unfold Wall.clear. erewrite bind_Ok by reflexivity.
    rewrite (dict_pop_elem _ _ Hc). erewrite bind_Ok by reflexivity.
    eexists. split; [apply Entity_clear_run; eassumption|].
    simpl. auto 10.
  - rewrite bool_decide_eq_true in Hc.
    unfold MovableEntity.clear. erewrite bind_Ok by reflexivity.
    rewrite (dict_pop_elem _ _ Hc). erewrite bind_Ok by reflexivity.
    eexists. split; [apply Entity_clear_run; eassumption|].
    simpl. auto 10.
  - rewrite bool_decide_eq_true in Hc.
    unfold MovableEntity.clear. erewrite bind_Ok by reflexivity.
    rewrite (dict_pop_elem _ _ Hc). erewrite bind_Ok by reflexivity.
    eexists. split; [apply Entity_clear_run; eassumption|].
    simpl. auto 10.
  - rewrite bool_decide_eq_true in Hc.
    unfold MovableEntity.clear. erewrite bind_Ok by reflexivity.
    rewrite (dict_pop_elem _ _ Hc). erewrite bind_Ok by reflexivity.
    eexists. split; [apply Entity_clear_run; eassumption|].
    simpl. auto 10.
  - rewrite andb_true_iff, !bool_decide_eq_true in Hc.
    destruct Hc as [Hm Hp].
    unfold Player.clear. erewrite bind_Ok by reflexivity.
    rewrite (dict_pop_elem _ _ Hp). erewrite bind_Ok by reflexivity.
    unfold MovableEntity.clear. erewrite bind_Ok by reflexivity.
    simpl. rewrite (dict_pop_elem _ _ Hm). erewrite bind_Ok by reflexivity.
    eexists. split; [apply Entity_clear_run; eassumption|].
    simpl. auto 10.
Qed.

Lemma vacated_nil (s : State) : vacated [] s s.
Proof.
  unfold vacated. split; [reflexivity|].
  split; [intros k Hk; split; [exact Hk|apply not_elem_of_nil]|].
  repeat split; try assumption; intros Hn; inversion Hn.
Qed.

Lemma clear_obj_vacated (s : State) (i : Z) :
  registered_obj s i = true -> vacated [i] s (clear_obj i s).1.
Proof.
  intros Hr. destruct (heap s !! i) as [e|] eqn:He.
  2:{ unfold registered_obj in Hr. rewrite He in Hr. discriminate. }
  destruct (clear_obj_exact s i e Hr He) as (s' & E & H & En & W & Mv & P).
  rewrite E. simpl.
  assert (Hpop : forall (p : EntityClass -> bool) (d : list Z) (k : Z),
    k ∈ pop_if (p (cls e)) i d ->
    k ∈ d /\ (k ∈ [i] -> ~ class_in p s k)).
  { intros p d k. unfold pop_if. destruct (p (cls e)) eqn:Hp.
    - rewrite list_elem_of_filter, list_elem_of_singleton. tauto.
    - intros Hk. split; [exact Hk|].
      rewrite list_elem_of_singleton. intros -> (e' & He' & Hp').
      congruence. }
  unfold vacated. split.
  { rewrite H. apply map_eq. intros k. rewrite !lookup_fmap.
    destruct (decide (k = i)) as [->|Hk].
    - rewrite lookup_insert_eq, He. reflexivity.
    - rewrite lookup_insert_ne by congruence. reflexivity. }
  split.
  { intros k. rewrite En, list_elem_of_filter, list_elem_of_singleton. tauto. }
  split; [rewrite W; apply Hpop|].
  split; [rewrite Mv; apply Hpop|rewrite P; apply Hpop].
Qed.

Lemma vacated_cons (i : Z) (l : list Z) (s1 s2 s3 : State) :
  vacated [i] s1 s2 -> vacated l s2 s3 -> vacated (i :: l) s1 s3.
Proof.
  intros (H1 & E1 & W1 & M1 & P1) (H2 & E2 & W2 & M2 & P2).
  assert (Hstep : forall (p : EntityClass -> bool) (d1 d2 d3 : list Z),
    (forall k, k ∈ d2 -> k ∈ d1 /\ (k ∈ [i] -> ~ class_in p s1 k)) ->
    (forall k, k ∈ d3 -> k ∈ d2 /\ (k ∈ l -> ~ class_in p s2 k)) ->
    forall k, k ∈ d3 -> k ∈ d1 /\ (k ∈ i :: l -> ~ class_in p s1 k)).
  { intros p d1 d2 d3 A B k Hk. destruct (B k Hk) as [Hk2 Hl].
    destruct (A k Hk2) as [Hk1 Hi]. split; [exact Hk1|].
    rewrite elem_of_cons. intros [->|Hkl].
    - apply Hi. apply list_elem_of_singleton. reflexivity.
    - intros Hc. apply (Hl Hkl). exact (class_in_cls p s1 s2 k H1 Hc). }
  unfold vacated. split; [congruence|]. split.
  { intros k Hk. destruct (E2 k Hk) as [Hk2 Hl].
    destruct (E1 k Hk2) as [Hk1 Hi]. split; [exact Hk1|].
    rewrite not_elem_of_cons. split; [|exact Hl].
    intros ->. apply Hi. apply list_elem_of_singleton. reflexivity. }
  split; [exact (Hstep _ _ _ _ W1 W2)|].
  split; [exact (Hstep _ _ _ _ M1 M2)|exact (Hstep _ _ _ _ P1 P2)].
Qed.

Lemma for_each_clear_vacated (l : list Z) (s : State) :
  NoDup l ->
  (forall i, i ∈ l -> registered_obj s i = true) ->
  vacated l s (for_each l clear_obj s).1.
Proof.
  revert s. induction l as [|i l IH]; intros s Hnd Hreg.
  - apply vacated_nil.
  - apply NoDup_cons in Hnd. destruct Hnd as [Hil Hnd].
    assert (Hi : registered_obj s i = true)
      by (apply Hreg, list_elem_of_here).
    pose proof (clear_obj_vacated s i Hi) as V1.
    destruct (clear_obj_run s i Hi) as (s1 & E1 & T1 & _).
    rewrite E1 in V1. simpl in V1.
    simpl. rewrite (bind_Ok _ _ _ _ _ E1).
    apply (vacated_cons i l s s1 _ V1). apply IH; [exact Hnd|].
    intros j Hj. apply (torn_down_registered [i] s s1 j T1).
    + rewrite list_elem_of_singleton. intros ->. contradiction.
    + apply Hreg. apply list_elem_of_further. exact Hj.
Qed.

(** After [clear()], [leave_level] touches the [Game] object only. *)
Lemma leave_level_objects (s : State) (level : nat) (l : Level) :
  levels s !! current_level s = Some (SInstance l) ->
  (registries (Game.leave_level level s).1, heap (Game.leave_level level s).1)
  = (registries (Level.clear l s).1, heap (Level.clear l s).1).
Proof.
  intros Hcur. unfold Game.leave_level.
  erewrite bind_Ok by reflexivity.
  rewrite (bind_Ok _ _ _ _ _ (get_level_run _ _ _ Hcur)).
  cbn [Game.level_clear]. rewrite bind_run.
  destruct (Level.clear l s) as [sc [[]|ex]]; [|reflexivity].
  cbn [fst].
  assert (H : preserves (fun s => (registries s, heap s))
    (sl ← Game.get_level (current_level s);
     hidden ← Game.level_hide sl;
     Game.set_level (current_level s) hidden;;
     target ← Game.get_level level;
     Game.set_level (current_level s) (Game.type_of target);;
     modify (upd_current_level (fun _ => level)))).
  { unfold Game.get_level, Game.set_level, Game.level_hide.
    repeat preserves_step. }
  apply (H sc).
Qed.

Lemma holds_only_view (s s' : State) (ids : list Z) :
  level_view s' = level_view s -> holds_only s ids -> holds_only s' ids.
Proof.
  intros H (E & W & Mv & P).
  injection H as He Hw Hm Hp Hn Hh Hc Hl.
  unfold holds_only. rewrite He, Hw, Hm, Hp.
  split; [exact E|].
  split; [intros k Hk; destruct (W k Hk); eauto using class_in_cls|].
  split; [intros k Hk; destruct (Mv k Hk); eauto using class_in_cls|].
  intros k Hk; destruct (P k Hk); eauto using class_in_cls.
Qed.

Lemma dictionaries_current_view (s s' : State) :
  level_view s' = level_view s ->
  dictionaries_current s -> dictionaries_current s'.
Proof.
  intros H [Hl Hd]. split; [exact (live_level_view s s' H Hl)|].
  pose proof H as H'. injection H' as _ _ _ _ _ _ Hc Hlv.
  intros l. rewrite Hc, Hlv. intros Hcur.
  exact (holds_only_view s s' _ H (Hd l Hcur)).
Qed.

(** The three steps of a transition that returns: the outgoing level is
    left, the class found at the target is called, and the level it builds
    is stored, shown. *)
Lemma go_to_level_steps (s s' : State) (level : nat) (l : Level) :
  levels s !! current_level s = Some (SInstance l) ->
  registered l s = true ->
  Game._go_to_level level s = (s', Ok tt) ->
  exists s1 s2 c l',
    Game.leave_level level s = (s1, Ok tt) /\
    Level.construct c s1 = (s2, Ok l') /\
    current_level s1 = level /\
    (level < length (levels s1))%nat /\
    s' = upd_levels
           (fun _ => <[level := SInstance (Level.set_on_screen true l')]>
                       (levels s1)) s2.
Proof.
  intros Hcur Hreg Hgo.
  destruct (decide (level < length (levels s))%nat) as [Hlt|Hge].
  2:{ pose proof (go_to_level_outside s level l Hcur Hreg) as H.
      rewrite Hgo in H. discriminate H. lia. }
  destruct (leave_level_run s level l Hcur Hreg Hlt)
    as (s1 & target & E1 & T & Ht & Hl1 & Hc1 & Hw1).
  unfold Game._go_to_level in Hgo. rewrite (bind_Ok _ _ _ _ _ E1) in Hgo.
  assert (Hlt1 : (level < length (levels s1))%nat)
    by (rewrite Hl1, length_insert; exact Hlt).
  destruct (lookup_lt_is_Some_2 (levels s1) level Hlt1) as [sl Hsl].
  assert (Hcase : (exists c, sl = SClass c) \/ forall c, sl <> SClass c)
    by (destruct sl; [right|left; eauto|right|right]; discriminate).
  destruct Hcase as [[c ->]|Hnc].
  2:{ destruct (enter_level_not_class s1 level sl Hc1 Hsl Hnc) as [ex Hex].
      rewrite Hex in Hgo. discriminate. }
  destruct (enter_level_run s1 level c Hc1 Hsl)
    as (l' & s2 & E2 & _ & _ & _ & E3).
  rewrite E3 in Hgo. injection Hgo as <-.
  exists s1, s2, c, l'. auto.
Qed.

Lemma members_set_on_screen (b : bool) (l : Level) :
  Level.members (Level.set_on_screen b l) = Level.members l.
Proof. destruct l; reflexivity. Qed.

(** A transition that returns leaves in the dictionaries the objects of
    the level it has built, and nothing else. *)
Lemma go_to_level_current (level : nat) :
  keeps dictionaries_current (Game._go_to_level level).
Proof.
  intros s s' [] [Hl Hd] Hgo.
  split; [exact (proj1 (go_to_level_live s s' level Hl Hgo))|].
  destruct Hl as (l & Hcur & Hreg & _). specialize (Hd l Hcur).
  destruct (go_to_level_steps s s' level l Hcur Hreg Hgo)
    as (s1 & s2 & c & l' & E1 & E2 & Hc1 & Hlt1 & ->).
  destruct (Level_construct_extends c s1) as (l0 & s0 & E0 & X & D & R).
  rewrite E2 in E0. injection E0 as <- <-.
  pose proof X as (_ & Gf & _ & _ & _ & _ & _ & _ & Eg & Wg & Mg & Pg).
  injection Gf as Gc Gl Gw.
  (* the dictionaries are empty once the outgoing level is left *)
  pose proof (leave_level_objects s level l Hcur) as Ho.
  rewrite E1, Level_clear_for_each in Ho. cbn [fst] in Ho.
  assert (V : vacated (Level.members l) s
                (for_each (Level.members l) clear_obj s).1).
  { unfold registered in Hreg.
    rewrite andb_true_iff, bool_decide_eq_true, forallb_forall in Hreg.
    destruct Hreg as [Hnd Hall]. apply for_each_clear_vacated; [exact Hnd|].
    intros i Hi. apply Hall. apply list_elem_of_In. exact Hi. }
  injection Ho as He Hw Hm Hp _ _. clear E1.
  destruct V as (_ & Ev & Wv & Mv & Pv).
  destruct Hd as (Eh & Wh & Mh & Ph).
  assert (Ee : forall k, k ∉ entities_by_id s1).
  { intros k Hk. rewrite He in Hk. destruct (Ev k Hk) as [Hk' Hn].
    exact (Hn (Eh k Hk')). }
  assert (We : forall k, k ∉ walls_by_id s1).
  { intros k Hk. rewrite Hw in Hk. destruct (Wv k Hk) as [Hk' Hn].
    destruct (Wh k Hk') as [Hin Hc]. exact (Hn Hin Hc). }
  assert (Me : forall k, k ∉ movable_entities_by_id s1).
  { intros k Hk. rewrite Hm in Hk. destruct (Mv k Hk) as [Hk' Hn].
    destruct (Mh k Hk') as [Hin Hc]. exact (Hn Hin Hc). }
  assert (Pe : forall k, k ∉ players_by_id s1).
  { intros k Hk. rewrite Hp in Hk. destruct (Pv k Hk) as [Hk' Hn].
    destruct (Ph k Hk') as [Hin Hc]. exact (Hn Hin Hc). }
  (* the level found at [current_level] is the one just built *)
  intros l2. cbn [current_level levels upd_levels]. rewrite Gc, Hc1.
  rewrite list_lookup_insert_eq by exact Hlt1. intros [= <-].
  rewrite members_set_on_screen. unfold holds_only.
  cbn [entities_by_id walls_by_id movable_entities_by_id players_by_id
       upd_levels].
  split.
  { intros k Hk. destruct (Eg k Hk) as [Hk'|Hr]; [destruct (Ee k Hk')|].
    apply R. exact Hr. }
  split.
  { intros k Hk. destruct (Wg k Hk) as [Hk'|[Hr Hc]]; [destruct (We k Hk')|].
    split; [apply R; exact Hr|exact Hc]. }
  split.
  { intros k Hk. destruct (Mg k Hk) as [Hk'|[Hr Hc]]; [destruct (Me k Hk')|].
    split; [apply R; exact Hr|exact Hc]. }
  intros k Hk. destruct (Pg k Hk) as [Hk'|[Hr Hc]]; [destruct (Pe k Hk')|].
  split; [apply R; exact Hr|exact Hc].
Qed.

Lemma class_inb_true (p : EntityClass -> bool) (s : State) (k : Z) :
  class_inb p s k = true -> class_in p s k.
Proof.
  unfold class_inb, class_in. destruct (heap s !! k) as [e|]; [eauto|].
  discriminate.
Qed.

Lemma holds_onlyb_true (s : State) (ids : list Z) :
  holds_onlyb s ids = true -> holds_only s ids.
Proof.
  unfold holds_onlyb, holds_only. rewrite !andb_true_iff, !forallb_forall.
  intros [[[E W] Mv] P].
  assert (H : forall (p : EntityClass -> bool) (d : list Z),
    (forall k, In k d ->
       bool_decide (k ∈ ids) && class_inb p s k = true) ->
    forall k, k ∈ d -> k ∈ ids /\ class_in p s k).
  { intros p d Hd k Hk. apply list_elem_of_In in Hk.
    specialize (Hd k Hk). rewrite andb_true_iff, bool_decide_eq_true in Hd.
    destruct Hd as [Hi Hc]. split; [exact Hi|apply class_inb_true, Hc]. }
  split.
  { intros k Hk. apply list_elem_of_In in Hk. specialize (E k Hk).
    rewrite bool_decide_eq_true in E. exact E. }
  split; [exact (H _ _ W)|]. split; [exact (H _ _ Mv)|exact (H _ _ P)].
Qed.



(** ** What the ticks never show *)

Section StaysHidden.
Variable w : Z.

Lemma stays_hidden_state {A} (m : M A) :
  (forall s, (m s).1 = s) -> stays_hidden w m.
Proof. intros H s. rewrite H. auto. Qed.

Lemma stays_hidden_bind {A B} (m : M A) (f : A -> M B) :
  stays_hidden w m -> (forall a, stays_hidden w (f a)) ->
  stays_hidden w (m ≫= f).
Proof.
  intros Hm Hf s Hs. rewrite bind_run. specialize (Hm s Hs).
  destruct (m s) as [s1 [a|e]]; simpl in *; [apply Hf|]; exact Hm.
Qed.

Lemma stays_hidden_heap {A} (m : M A) :
  (forall s, heap (m s).1 = heap s) -> stays_hidden w m.
Proof.
  intros H s [(e & He & Ho) Hu]. unfold hidden, unnamed. rewrite H.
  split; [eauto|exact Hu].
Qed.

(** Rewriting an object: the callback is kept, and [w] is not shown. *)
Lemma stays_hidden_update (i : Z) (g : Entity -> Entity) :
  (forall e, frame_callback (g e) = frame_callback e) ->
  (i = w -> forall e, on_screen e = false -> on_screen (g e) = false) ->
  stays_hidden w (update i g).
Proof.
  intros Hcb Hon s [(e & He & Ho) Hu]. unfold update. rewrite bind_run.
  unfold deref. destruct (heap s !! i) as [ei|] eqn:Hi; simpl.
  2:{ split; [exists e; auto|exact Hu]. }
  unfold hidden, unnamed. simpl. split.
  - destruct (decide (i = w)) as [->|Hne].
    + exists (g ei). rewrite lookup_insert_eq. split; [reflexivity|].
      rewrite He in Hi. injection Hi as <-. apply Hon; auto.
    + exists e. rewrite lookup_insert_ne by exact Hne. auto.
  - intros j ej cb Hj Hc. destruct (decide (j = i)) as [->|Hne].
    + rewrite lookup_insert_eq in Hj. injection Hj as <-.
      rewrite Hcb in Hc. exact (Hu i ei cb Hi Hc).
    + rewrite lookup_insert_ne in Hj by congruence. exact (Hu j ej cb Hj Hc).
Qed.

Lemma on_screen_move (res : Z * Z) (walls : list Entity) (e : Entity)
    (dx dy : Z) :
  on_screen (MovableEntity.move res walls e dx dy) = on_screen e /\
  frame_callback (MovableEntity.move res walls e dx dy) = frame_callback e.
Proof.
  unfold MovableEntity.move. destruct (negb (on_screen e)); [auto|].
  destruct (existsb _ walls); auto.
Qed.

Lemma stays_hidden_move_obj (self : Z) (dx dy : Z) :
  stays_hidden w (MovableEntity.move_obj self dx dy).
Proof.
  intros s [(e & He & Ho) Hu].
  destruct (move_obj_state self dx dy s)
    as [->|(es & walls & Hs & ->)]; [split; [exists e; auto|exact Hu]|].
  destruct (on_screen_move (DISPLAY_RESOLUTION s) walls es dx dy)
    as [Hon Hcb].
  unfold hidden, unnamed. simpl. split.
  - destruct (decide (self = w)) as [->|Hne].
    + eexists. rewrite lookup_insert_eq. split; [reflexivity|].
      rewrite Hon. congruence.
    + exists e. rewrite lookup_insert_ne by exact Hne. auto.
  - intros j ej cb Hj Hc. destruct (decide (j = self)) as [->|Hne].
    + rewrite lookup_insert_eq in Hj. injection Hj as <-.
      rewrite Hcb in Hc. exact (Hu self es cb Hs Hc).
    + rewrite lookup_insert_ne in Hj by congruence. exact (Hu j ej cb Hj Hc).
Qed.

Lemma stays_hidden_for_each {A} (l : list A) (k : A -> M unit) :
  (forall a, stays_hidden w (k a)) -> stays_hidden w (for_each l k).
Proof.
  intros Hk. induction l as [|a l IH]; simpl.
  - apply stays_hidden_state. reflexivity.
  - apply stays_hidden_bind; [apply Hk|intros _; exact IH].
Qed.

Ltac stays_step :=
  lazymatch goal with
  | |- stays_hidden _ (_ ≫= _) => apply stays_hidden_bind; [|intros ?]
  | |- stays_hidden _ (MovableEntity.move_obj _ _ _) =>
      apply stays_hidden_move_obj
  | |- stays_hidden _ (for_each _ _) => apply stays_hidden_for_each; intros ?
  | |- stays_hidden _ (update _ Entity.hide) =>
      apply stays_hidden_update; [intros ?; reflexivity|reflexivity]
  | |- stays_hidden _ (update _ (set_route _)) =>
      apply stays_hidden_update;
      [intros ?; reflexivity|intros _ ? Ho; exact Ho]
  | |- stays_hidden _ (update _ (set_last_active _)) =>
      apply stays_hidden_update;
      [intros ?; reflexivity|intros _ ? Ho; exact Ho]
  | |- stays_hidden _ (deref _) =>
      apply stays_hidden_state; intros ?; unfold deref;
      destruct (heap _ !! _); reflexivity
  | |- stays_hidden _ (deref_route _) =>
      apply stays_hidden_state; intros ?; unfold deref_route;
      destruct (routes _ !! _); reflexivity
  | |- stays_hidden _ now => apply stays_hidden_heap; intros ?; reflexivity
  | |- stays_hidden _ (mret _) => apply stays_hidden_state; reflexivity
  | |- stays_hidden _ (raise _) => apply stays_hidden_state; reflexivity
  | |- stays_hidden _ (gets _) => apply stays_hidden_state; reflexivity
  | |- stays_hidden _ (match ?c with _ => _ end) => destruct c
  end.

(** A callback that does not show [w] leaves it hidden. *)
Lemma stays_hidden_call (cb : Callback) (arg : Z) :
  shows cb w = false -> stays_hidden w (Entity.call cb arg).
Proof.
  intros Hcb.
  assert (Hshow : forall i, i <> w ->
            stays_hidden w (update i (set_on_screen true))).
  { intros i Hi. apply stays_hidden_update; [intros ?; reflexivity|].
    intros ->. contradiction. }
  destruct cb as [p d o|p|p|sp]; simpl in Hcb;
    try (apply bool_decide_eq_false in Hcb);
    unfold Entity.call; repeat stays_step; apply Hshow; exact Hcb.
Qed.

Lemma stays_hidden_Entity_frame (self : Z) :
  stays_hidden w (Entity.frame self).
Proof.
  intros s Hs. unfold Entity.frame. rewrite bind_run. unfold deref.
  destruct (heap s !! self) as [e|] eqn:He; [|exact Hs]. cbv beta iota.
  destruct (frame_callback e) as [cb|] eqn:Hc; [|exact Hs].
  destruct (alive e); [|exact Hs].
  apply stays_hidden_call; [|exact Hs]. exact (proj2 Hs self e cb He Hc).
Qed.

Lemma stays_hidden_frame_obj (self : Z) : stays_hidden w (frame_obj self).
Proof.
  unfold frame_obj, Player.frame, Player.handle_keyboard, EnemyTouch.frame,
    MovableEntity.frame.
  repeat first [apply stays_hidden_Entity_frame | stays_step].
Qed.

Lemma stays_hidden_handle_entities : stays_hidden w Game._handle_entities.
Proof.
  unfold Game._handle_entities. stays_step; [stays_step|].
  stays_step. apply stays_hidden_frame_obj.
Qed.

End StaysHidden.

Lemma unnamedb_true (w : Z) (s : State) :
  unnamedb w s = true -> unnamed w s.
Proof.
  unfold unnamedb, unnamed. rewrite forallb_forall. intros H i e cb Hi Hc.
  specialize (H (i, e)). simpl in H. rewrite Hc in H.
  apply negb_true_iff, H. apply list_elem_of_In.
  apply elem_of_map_to_list. exact Hi.
Qed.

Lemma stays_hidden_frame (w : Z) : stays_hidden w Game.frame.
Proof.
  unfold Game.frame. apply stays_hidden_bind;
    [apply stays_hidden_handle_entities|intros _].
  apply stays_hidden_heap. intros s.
  exact (f_equal (fun t => t.1.1.1.2) (preserves_simulation_show_current s)).
Qed.



(** ** The key *)

Lemma upd_heap_id (s : State) (i : Z) (e : Entity) :
  heap s !! i = Some e -> upd_heap <[i := e]> s = s.
Proof.
  intros H. destruct s. unfold upd_heap. simpl in *.
  rewrite (insert_id _ _ _ H). reflexivity.
Qed.

(** X13: the tick of a live object carrying the callback of the key, when
    its rectangle overlaps that of the player - whether or not the key, the
    player or the doors are shown - returns, hides the key and the door and
    shows the opened door, and changes nothing else; a second tick in the
    state reached changes nothing.  Without the overlap, or on a dead key,
    the tick changes nothing. *)
Theorem key_tick_opens_door
    (s : State) (k p d o : Z) (key pe de oe : Entity) :
  heap s !! k = Some key ->
  frame_callback key = Some (KeyFrame p d o) ->
  heap s !! p = Some pe ->
  heap s !! d = Some de ->
  heap s !! o = Some oe ->
  k <> d -> k <> o -> d <> o ->
  let s' := (Entity.frame k s).1 in
  (alive key = true ->
   Rect.colliderect (rect key) (rect pe) = true ->
   (Entity.frame k s).2 = Ok tt /\
   around_objects s' = around_objects s /\
   heap s' = <[o := set_on_screen true oe]>
               (<[d := Entity.hide de]> (<[k := Entity.hide key]> (heap s))) /\
   Entity.frame k s' = (s', Ok tt)) /\
  (alive key = false \/ Rect.colliderect (rect key) (rect pe) = false ->
   Entity.frame k s = (s, Ok tt)).
Proof.
  intros Hk Hcb Hp Hd Ho Hkd Hko Hdo s'.
  assert (Hframe : forall (t : State) (key' pe' : Entity),
    heap t !! k = Some key' -> heap t !! p = Some pe' ->
    frame_callback key' = Some (KeyFrame p d o) ->
    Entity.frame k t =
    if alive key' then
      if Rect.colliderect (rect key') (rect pe') then
        (update k Entity.hide;; update d Entity.hide;;
         update o (set_on_screen true)) t
      else (t, Ok tt)
    else (t, Ok tt)).
  { intros t key' pe' Hk' Hp' Hcb'. unfold Entity.frame.
    rewrite (bind_Ok _ _ _ _ _ (deref_Some _ _ _ Hk')). rewrite Hcb'.
    destruct (alive key'); [|reflexivity]. unfold Entity.call.
    rewrite (bind_Ok _ _ _ _ _ (deref_Some _ _ _ Hk')).
    rewrite (bind_Ok _ _ _ _ _ (deref_Some _ _ _ Hp')).
    destruct (Rect.colliderect _ _); reflexivity. }
  split.
  - intros Ha Hc.
    assert (E : Entity.frame k s =
      (upd_heap <[o := set_on_screen true oe]>
         (upd_heap <[d := Entity.hide de]>
            (upd_heap <[k := Entity.hide key]> s)), Ok tt)).
    { rewrite (Hframe s key pe Hk Hp Hcb), Ha, Hc.
      rewrite (bind_Ok _ _ _ _ _ (update_run _ _ _ _ Hk)).
      erewrite bind_Ok.
      2:{ apply update_run. simpl. rewrite lookup_insert_ne by exact Hkd.
          exact Hd. }
      apply update_run. simpl.
      rewrite lookup_insert_ne by exact Hdo.
      rewrite lookup_insert_ne by exact Hko. exact Ho. }
    subst s'. rewrite E. cbn [fst snd].
    split; [reflexivity|]. split; [reflexivity|]. split; [reflexivity|].
    set (t := upd_heap _ _).
    assert (Hk' : heap t !! k = Some (Entity.hide key)).
    { subst t. simpl. rewrite lookup_insert_ne by congruence.
      rewrite lookup_insert_ne by congruence. apply lookup_insert_eq. }
    assert (Hd' : heap t !! d = Some (Entity.hide de)).
    { subst t. simpl. rewrite lookup_insert_ne by congruence.
      apply lookup_insert_eq. }
    assert (Ho' : heap t !! o = Some (set_on_screen true oe)).
    { subst t. simpl. apply lookup_insert_eq. }
    assert (Hp' : exists pe', heap t !! p = Some pe' /\ rect pe' = rect pe).
    { destruct (decide (p = o)) as [->|Hpo].
      { eexists. split; [exact Ho'|]. rewrite Ho in Hp. injection Hp as <-.
        reflexivity. }
      destruct (decide (p = d)) as [->|Hpd].
      { eexists. split; [exact Hd'|]. rewrite Hd in Hp. injection Hp as <-.
        reflexivity. }
      destruct (decide (p = k)) as [->|Hpk].
      { eexists. split; [exact Hk'|]. rewrite Hk in Hp. injection Hp as <-.
        reflexivity. }
      exists pe. split; [|reflexivity]. subst t. simpl.
      rewrite !lookup_insert_ne by congruence. exact Hp. }
    destruct Hp' as (pe' & Hp' & Hr).
    rewrite (Hframe t (Entity.hide key) pe' Hk' Hp' Hcb).
    change (alive (Entity.hide key)) with (alive key).
    change (rect (Entity.hide key)) with (rect key).
    rewrite Ha, Hr, Hc.
    rewrite (bind_Ok _ _ _ _ _ (update_run _ _ _ _ Hk')).
    change (Entity.hide (Entity.hide key)) with (Entity.hide key).
    rewrite (upd_heap_id t k _ Hk').
    rewrite (bind_Ok _ _ _ _ _ (update_run _ _ _ _ Hd')).
    change (Entity.hide (Entity.hide de)) with (Entity.hide de).
    rewrite (upd_heap_id t d _ Hd').
    rewrite (update_run _ _ _ _ Ho').
    change (set_on_screen true (set_on_screen true oe))
      with (set_on_screen true oe).
    rewrite (upd_heap_id t o _ Ho'). reflexivity.
  - intros Hno. rewrite (Hframe s key pe Hk Hp Hcb).
    destruct Hno as [-> | ->]; [reflexivity|].
    destruct (alive key); reflexivity.
Qed.

Lemma key_tick_opens_door_witness :
  on_screen <$> heap (Entity.frame 11 (upd_heap
    <[0 := set_xy 795 105
             (set_rect {| Rect.left := 775; Rect.top := 90;
                          Rect.width := 40; Rect.height := 30 |}
                spawned_player)]> started)).1 !! 8 = Some false.
Proof.
  set (s := upd_heap _ started).
  assert (Hk : exists key, heap s !! 11 = Some key /\
                 frame_callback key = Some (KeyFrame 0 8 9) /\
                 alive key = true /\
                 Rect.colliderect (rect key)
                   {| Rect.left := 775; Rect.top := 90;
                      Rect.width := 40; Rect.height := 30 |} = true).
  { eexists. split; [vm_compute; reflexivity|]. vm_compute. auto. }
  destruct Hk as (key & Hk & Hcb & Ha & Hc).
  assert (Hd : exists de, heap s !! 8 = Some de)
    by (eexists; vm_compute; reflexivity).
  destruct Hd as [de Hd].
  assert (Ho : exists oe, heap s !! 9 = Some oe)
    by (eexists; vm_compute; reflexivity).
  destruct Ho as [oe Ho].
  destruct (key_tick_opens_door s 11 0 8 9 key _ de oe Hk Hcb
              (lookup_insert_eq _ _ _) Hd Ho) as [H _]; try lia.
  destruct (H Ha Hc) as (_ & _ & Hh & _).
  rewrite Hh. rewrite lookup_insert_ne by lia. rewrite lookup_insert_eq.
  reflexivity.
Defined.
